(** * web-serial-monitor: the session core of [App.tsx]

    A shallow embedding of the log buffer, the disconnect / connect
    procedures, the chunked file transfer, the send queue and the WebSocket
    reconnect logic of the React component [App], with the properties the
    specification states about them, and further properties of this code, of
    the log export, of the line-frequency meter and of the quick-send list.

    Conventions.
    - A [Uint8Array] is a [list byte]; a JS number that holds a length, a
      size or a delay is a [Z]; a JS string is a [string] (UTF-8 bytes).
    - A [useRef] cell is a field of [Refs]; the [useState] values a render
      closes over are a [Render]; handlers take the [Render] they were
      created in, so a value read through the closure stays what it was
      when the handler started, while a ref is read live.
    - Host calls whose result the code branches on (device picker, port
      open, writes ...) take their result as an [Outcome] argument. *)

From stdpp Require Import base numbers list strings pretty gmap.
From Stdlib Require Import Strings.Byte Strings.Ascii.

Local Open Scope Z_scope.

(** ** types.ts *)

Inductive CommMode := Serial | WebSocket | Bluetooth.
Inductive DisplayMode := Text | Hex.
Inductive FileSendMode := Raw | YModem.
Inductive LogType := rx | tx | info | error.

#[global] Instance CommMode_eq_dec : EqDecision CommMode.
Proof. solve_decision. Defined.
#[global] Instance DisplayMode_eq_dec : EqDecision DisplayMode.
Proof. solve_decision. Defined.
#[global] Instance LogType_eq_dec : EqDecision LogType.
Proof. solve_decision. Defined.

Record LogEntry := {
  id : string;            (* Math.random().toString(36).substr(2, 9) *)
  timestamp : Z;          (* new Date(), as milliseconds *)
  type : LogType;
  data : list byte;
  text : string;
  byteCount : Z
}.

(** What [addLog] draws from the host for one entry: the random id and the
    clock reading. *)
Record Stamp := { stamp_id : string; stamp_time : Z }.

(** ** JavaScript array helpers *)

(** [Array.prototype.slice(start, end)] / [Uint8Array.prototype.slice]:
    a negative index counts from the end, both are clamped to the length. *)
Definition relIndex (len i : Z) : Z :=
  if bool_decide (i < 0) then Z.max (len + i) 0 else Z.min i len.

Definition slice {A} (start end_ : Z) (l : list A) : list A :=
  let len := Z.of_nat (length l) in
  let k := relIndex len start in
  let final := relIndex len end_ in
  take (Z.to_nat (Z.max (final - k) 0)) (drop (Z.to_nat k) l).

(** [slice(start)]: the end defaults to the length. *)
Definition slice_from {A} (start : Z) (l : list A) : list A :=
  slice start (Z.of_nat (length l)) l.

(** ** The log buffer *)

(** [calculateBufferSize]: [logs.reduce((total, log) => total + log.data.length, 0)]. *)
Definition calculateBufferSize (logs : list LogEntry) : Z :=
  foldl (fun total log => total + Z.of_nat (length (data log))) 0 logs.

(** The [while] loop of [addLog]:
    [while (calculateBufferSize(tempLogs) > max && tempLogs.length > 10) tempLogs.shift()]. *)
Fixpoint evictOldest (currentMaxBufferSize : Z) (tempLogs : list LogEntry) : list LogEntry :=
  match tempLogs with
  | [] => []
  | _ :: shifted =>
      if bool_decide (calculateBufferSize tempLogs > currentMaxBufferSize)
         && bool_decide (Z.of_nat (length tempLogs) > 10)
      then evictOldest currentMaxBufferSize shifted
      else tempLogs
  end.

Definition newLogEntry (st : Stamp) (ty : LogType) (d : list byte) (newText : string) : LogEntry :=
  {| id := stamp_id st; timestamp := stamp_time st; type := ty;
     data := d; text := newText; byteCount := Z.of_nat (length d) |}.

(** The updater [addLog] hands to [setLogs]: [prev => ...], given the value of
    [maxBufferSizeRef.current]. *)
Definition addLogUpdater (st : Stamp) (currentMaxBufferSize : Z)
    (ty : LogType) (d : list byte) (newText : string)
    (prev : list LogEntry) : list LogEntry :=
  let newLog := newLogEntry st ty d newText in
  let updatedLogs := prev ++ [newLog] in
  if bool_decide (Z.of_nat (length updatedLogs) > 1000) then
    slice_from (-500) updatedLogs
  else
    let currentSize := calculateBufferSize updatedLogs in
    if bool_decide (currentSize > currentMaxBufferSize) then
      evictOldest currentMaxBufferSize updatedLogs
    else updatedLogs.

(** [totalBytes] of the specification: byte counts of received and sent
    entries only. *)
Definition isTraffic (l : LogEntry) : bool :=
  match type l with rx | tx => true | info | error => false end.

Definition totalBytes (logs : list LogEntry) : Z :=
  foldl (fun total log => total + byteCount log) 0 (filter (fun l => isTraffic l = true) logs).

(** ** Host values *)

(** Handles of host objects. *)
Abbreviation SerialPort := nat (only parsing).
Abbreviation Reader := nat (only parsing).
Abbreviation Socket := nat (only parsing).
Abbreviation Timer := positive (only parsing).
Abbreviation Characteristic := nat (only parsing).

(** A thrown value, as far as the code looks at it: [err.message]
    ([err_name] is what a DOMException carries besides). *)
Record JsError := { err_name : string; err_message : string }.

(** The settled state of a promise, or of a call that may throw. *)
Inductive Outcome (A : Type) :=
| Resolved (a : A)
| Rejected (err : JsError).
Arguments Resolved {A} a.
Arguments Rejected {A} err.

(** [BluetoothDevice]: [device.name] (empty when undefined) and whether
    [device.gatt] is there. *)
Record BluetoothDevice := { device_name : string; gatt : bool }.

(** The [File] handed to [handleFileSend]: [file.name] and the bytes
    [file.arrayBuffer()] resolves to. *)
Record File := { file_name : string; file_bytes : list byte }.

(** An item of [sendQueueRef.current]: [{data, text, mode}]. *)
Record SendQueueItem := { q_data : list byte; q_text : string; q_mode : DisplayMode }.

(** Who issues a write: the drain loop of the send queue or the loop of a
    file transfer. *)
Inductive Origin := FromQueue | FromTransfer.

(** What the code does to the outside, in the order it does it. *)
Inductive Effect :=
| SerialWrite (o : Origin) (p : SerialPort) (chunk : list byte)   (* writer.write(chunk) *)
| BleWrite (o : Origin) (c : Characteristic) (chunk : list byte)  (* characteristic.writeValue(chunk) *)
| WsSendBinary (o : Origin) (ws : Socket) (chunk : list byte)     (* ws.send(Uint8Array) *)
| WsSendText (ws : Socket) (s : string)              (* ws.send(string), of the send queue *)
| NewWebSocket (url : string)                        (* new WebSocket(url) *)
| WsClose (ws : Socket)                              (* ws.close() *)
| PortClose (p : SerialPort)                         (* port.close() *)
| ReaderCancel (r : Reader)                          (* reader.cancel() *)
| GattDisconnect                                     (* device.gatt.disconnect() *)
| Progress (p : Z)                                   (* options.onProgress(p) *)
| Sleep (ms : Z)                                     (* await new Promise(r => setTimeout(r, ms)) *)
| Alert (msg : string).                              (* alert(msg) *)

(** ** The state of the component *)

(** The [useState] values; a handler closes over the ones of the render that
    created it. *)
Record Render := {
  port : option SerialPort;
  isConnected : bool;
  isPaused : bool;
  maxBufferSize : Z;
  commMode : CommMode;
  wsUrl : string;
  isReconnecting : bool;
  bluetoothServiceUUID : string;
  bluetoothCharacteristicUUID : string;
  baudRate : Z;                       (* config.baudRate *)
  logs : list LogEntry
}.

(** Options of a file transfer: [{throttleBytes, throttleMs}] (the mode
    selector is not read, progress goes to the effect trace). *)
Record FileOptions := { throttleBytes : Z; throttleMs : Z }.

(** A running [handleFileSend]: the render it closes over, the [writer] of
    the serial branch, the bytes, the options and the cursor [sent]. *)
Record FileJob := {
  job_snap : Render;
  job_writer : option SerialPort;
  job_data : list byte;
  job_options : FileOptions;
  job_sent : Z
}.

(** An async function parked at an [await]. *)
Inductive Task :=
| DrainAwaitingWrite (snap : Render)                 (* processSendQueue, at [await ...write(item.data)] *)
| FileAwaitingWrite (job : FileJob) (chunk : list byte) (* handleFileSend, at [await ...write(chunk)] *)
| FileSleeping (job : FileJob).                      (* handleFileSend, at the pacing delay *)

(** The callback of a pending [setTimeout]: [() => { connect(); }] of the
    [onclose] handler installed by the [connect] of render [snap]. *)
Inductive Callback := ReconnectCallback (snap : Render).

(** The [useRef] cells. *)
Record Refs := {
  wsRef : option Socket;
  shouldReconnectRef : bool;
  reconnectTimerRef : option Timer;
  bluetoothDeviceRef : option BluetoothDevice;
  bluetoothCharacteristicRef : option Characteristic;
  readerRef : option Reader;
  keepReadingRef : bool;
  isPausedRef : bool;
  maxBufferSizeRef : Z;
  sendQueueRef : list SendQueueItem;
  isSendingRef : bool;
  newlineCountRef : Z
}.

(** The part of the browser the code talks to: pending timeouts with their
    delay, sockets with the render their handlers close over, parked async
    functions, the renders of the [gattserverdisconnected] listeners, the supply of ids and clock readings, and the effect trace. *)
Record Host := {
  timers : gmap Timer (Z * Callback);
  nextTimer : Timer;
  sockets : gmap Socket Render;
  nextSocket : Socket;
  suspended : list Task;
  gattListeners : list Render;
  stamps : nat -> Stamp;
  tick : nat;
  effects : list Effect
}.

Record App := { ui : Render; refs : Refs; host : Host }.

(** Field updates. *)
Definition with_port (v : option SerialPort) (r : Render) : Render :=
  {| port := v; isConnected := isConnected r; isPaused := isPaused r;
     maxBufferSize := maxBufferSize r; commMode := commMode r; wsUrl := wsUrl r;
     isReconnecting := isReconnecting r; bluetoothServiceUUID := bluetoothServiceUUID r;
     bluetoothCharacteristicUUID := bluetoothCharacteristicUUID r; baudRate := baudRate r;
     logs := logs r |}.
Definition with_isConnected (v : bool) (r : Render) : Render :=
  {| port := port r; isConnected := v; isPaused := isPaused r;
     maxBufferSize := maxBufferSize r; commMode := commMode r; wsUrl := wsUrl r;
     isReconnecting := isReconnecting r; bluetoothServiceUUID := bluetoothServiceUUID r;
     bluetoothCharacteristicUUID := bluetoothCharacteristicUUID r; baudRate := baudRate r;
     logs := logs r |}.
Definition with_isPaused (v : bool) (r : Render) : Render :=
  {| port := port r; isConnected := isConnected r; isPaused := v;
     maxBufferSize := maxBufferSize r; commMode := commMode r; wsUrl := wsUrl r;
     isReconnecting := isReconnecting r; bluetoothServiceUUID := bluetoothServiceUUID r;
     bluetoothCharacteristicUUID := bluetoothCharacteristicUUID r; baudRate := baudRate r;
     logs := logs r |}.
Definition with_maxBufferSize (v : Z) (r : Render) : Render :=
  {| port := port r; isConnected := isConnected r; isPaused := isPaused r;
     maxBufferSize := v; commMode := commMode r; wsUrl := wsUrl r;
     isReconnecting := isReconnecting r; bluetoothServiceUUID := bluetoothServiceUUID r;
     bluetoothCharacteristicUUID := bluetoothCharacteristicUUID r; baudRate := baudRate r;
     logs := logs r |}.
Definition with_commMode (v : CommMode) (r : Render) : Render :=
  {| port := port r; isConnected := isConnected r; isPaused := isPaused r;
     maxBufferSize := maxBufferSize r; commMode := v; wsUrl := wsUrl r;
     isReconnecting := isReconnecting r; bluetoothServiceUUID := bluetoothServiceUUID r;
     bluetoothCharacteristicUUID := bluetoothCharacteristicUUID r; baudRate := baudRate r;
     logs := logs r |}.
Definition with_wsUrl (v : string) (r : Render) : Render :=
  {| port := port r; isConnected := isConnected r; isPaused := isPaused r;
     maxBufferSize := maxBufferSize r; commMode := commMode r; wsUrl := v;
     isReconnecting := isReconnecting r; bluetoothServiceUUID := bluetoothServiceUUID r;
     bluetoothCharacteristicUUID := bluetoothCharacteristicUUID r; baudRate := baudRate r;
     logs := logs r |}.
Definition with_isReconnecting (v : bool) (r : Render) : Render :=
  {| port := port r; isConnected := isConnected r; isPaused := isPaused r;
     maxBufferSize := maxBufferSize r; commMode := commMode r; wsUrl := wsUrl r;
     isReconnecting := v; bluetoothServiceUUID := bluetoothServiceUUID r;
     bluetoothCharacteristicUUID := bluetoothCharacteristicUUID r; baudRate := baudRate r;
     logs := logs r |}.
Definition with_bluetoothServiceUUID (v : string) (r : Render) : Render :=
  {| port := port r; isConnected := isConnected r; isPaused := isPaused r;
     maxBufferSize := maxBufferSize r; commMode := commMode r; wsUrl := wsUrl r;
     isReconnecting := isReconnecting r; bluetoothServiceUUID := v;
     bluetoothCharacteristicUUID := bluetoothCharacteristicUUID r; baudRate := baudRate r;
     logs := logs r |}.
Definition with_bluetoothCharacteristicUUID (v : string) (r : Render) : Render :=
  {| port := port r; isConnected := isConnected r; isPaused := isPaused r;
     maxBufferSize := maxBufferSize r; commMode := commMode r; wsUrl := wsUrl r;
     isReconnecting := isReconnecting r; bluetoothServiceUUID := bluetoothServiceUUID r;
     bluetoothCharacteristicUUID := v; baudRate := baudRate r; logs := logs r |}.
Definition with_logs (v : list LogEntry) (r : Render) : Render :=
  {| port := port r; isConnected := isConnected r; isPaused := isPaused r;
     maxBufferSize := maxBufferSize r; commMode := commMode r; wsUrl := wsUrl r;
     isReconnecting := isReconnecting r; bluetoothServiceUUID := bluetoothServiceUUID r;
     bluetoothCharacteristicUUID := bluetoothCharacteristicUUID r; baudRate := baudRate r;
     logs := v |}.
Definition with_wsRef (v : option Socket) (r : Refs) : Refs :=
  {| wsRef := v; shouldReconnectRef := shouldReconnectRef r;
     reconnectTimerRef := reconnectTimerRef r; bluetoothDeviceRef := bluetoothDeviceRef r;
     bluetoothCharacteristicRef := bluetoothCharacteristicRef r; readerRef := readerRef r;
     keepReadingRef := keepReadingRef r; isPausedRef := isPausedRef r;
     maxBufferSizeRef := maxBufferSizeRef r; sendQueueRef := sendQueueRef r;
     isSendingRef := isSendingRef r; newlineCountRef := newlineCountRef r |}.
Definition with_shouldReconnectRef (v : bool) (r : Refs) : Refs :=
  {| wsRef := wsRef r; shouldReconnectRef := v; reconnectTimerRef := reconnectTimerRef r;
     bluetoothDeviceRef := bluetoothDeviceRef r;
     bluetoothCharacteristicRef := bluetoothCharacteristicRef r; readerRef := readerRef r;
     keepReadingRef := keepReadingRef r; isPausedRef := isPausedRef r;
     maxBufferSizeRef := maxBufferSizeRef r; sendQueueRef := sendQueueRef r;
     isSendingRef := isSendingRef r; newlineCountRef := newlineCountRef r |}.
Definition with_reconnectTimerRef (v : option Timer) (r : Refs) : Refs :=
  {| wsRef := wsRef r; shouldReconnectRef := shouldReconnectRef r; reconnectTimerRef := v;
     bluetoothDeviceRef := bluetoothDeviceRef r;
     bluetoothCharacteristicRef := bluetoothCharacteristicRef r; readerRef := readerRef r;
     keepReadingRef := keepReadingRef r; isPausedRef := isPausedRef r;
     maxBufferSizeRef := maxBufferSizeRef r; sendQueueRef := sendQueueRef r;
     isSendingRef := isSendingRef r; newlineCountRef := newlineCountRef r |}.
Definition with_bluetoothDeviceRef (v : option BluetoothDevice) (r : Refs) : Refs :=
  {| wsRef := wsRef r; shouldReconnectRef := shouldReconnectRef r;
     reconnectTimerRef := reconnectTimerRef r; bluetoothDeviceRef := v;
     bluetoothCharacteristicRef := bluetoothCharacteristicRef r; readerRef := readerRef r;
     keepReadingRef := keepReadingRef r; isPausedRef := isPausedRef r;
     maxBufferSizeRef := maxBufferSizeRef r; sendQueueRef := sendQueueRef r;
     isSendingRef := isSendingRef r; newlineCountRef := newlineCountRef r |}.
Definition with_bluetoothCharacteristicRef (v : option Characteristic) (r : Refs) : Refs :=
  {| wsRef := wsRef r; shouldReconnectRef := shouldReconnectRef r;
     reconnectTimerRef := reconnectTimerRef r; bluetoothDeviceRef := bluetoothDeviceRef r;
     bluetoothCharacteristicRef := v; readerRef := readerRef r;
     keepReadingRef := keepReadingRef r; isPausedRef := isPausedRef r;
     maxBufferSizeRef := maxBufferSizeRef r; sendQueueRef := sendQueueRef r;
     isSendingRef := isSendingRef r; newlineCountRef := newlineCountRef r |}.
Definition with_readerRef (v : option Reader) (r : Refs) : Refs :=
  {| wsRef := wsRef r; shouldReconnectRef := shouldReconnectRef r;
     reconnectTimerRef := reconnectTimerRef r; bluetoothDeviceRef := bluetoothDeviceRef r;
     bluetoothCharacteristicRef := bluetoothCharacteristicRef r; readerRef := v;
     keepReadingRef := keepReadingRef r; isPausedRef := isPausedRef r;
     maxBufferSizeRef := maxBufferSizeRef r; sendQueueRef := sendQueueRef r;
     isSendingRef := isSendingRef r; newlineCountRef := newlineCountRef r |}.
Definition with_keepReadingRef (v : bool) (r : Refs) : Refs :=
  {| wsRef := wsRef r; shouldReconnectRef := shouldReconnectRef r;
     reconnectTimerRef := reconnectTimerRef r; bluetoothDeviceRef := bluetoothDeviceRef r;
     bluetoothCharacteristicRef := bluetoothCharacteristicRef r; readerRef := readerRef r;
     keepReadingRef := v; isPausedRef := isPausedRef r;
     maxBufferSizeRef := maxBufferSizeRef r; sendQueueRef := sendQueueRef r;
     isSendingRef := isSendingRef r; newlineCountRef := newlineCountRef r |}.
Definition with_isPausedRef (v : bool) (r : Refs) : Refs :=
  {| wsRef := wsRef r; shouldReconnectRef := shouldReconnectRef r;
     reconnectTimerRef := reconnectTimerRef r; bluetoothDeviceRef := bluetoothDeviceRef r;
     bluetoothCharacteristicRef := bluetoothCharacteristicRef r; readerRef := readerRef r;
     keepReadingRef := keepReadingRef r; isPausedRef := v;
     maxBufferSizeRef := maxBufferSizeRef r; sendQueueRef := sendQueueRef r;
     isSendingRef := isSendingRef r; newlineCountRef := newlineCountRef r |}.
Definition with_maxBufferSizeRef (v : Z) (r : Refs) : Refs :=
  {| wsRef := wsRef r; shouldReconnectRef := shouldReconnectRef r;
     reconnectTimerRef := reconnectTimerRef r; bluetoothDeviceRef := bluetoothDeviceRef r;
     bluetoothCharacteristicRef := bluetoothCharacteristicRef r; readerRef := readerRef r;
     keepReadingRef := keepReadingRef r; isPausedRef := isPausedRef r;
     maxBufferSizeRef := v; sendQueueRef := sendQueueRef r; isSendingRef := isSendingRef r;
     newlineCountRef := newlineCountRef r |}.
Definition with_sendQueueRef (v : list SendQueueItem) (r : Refs) : Refs :=
  {| wsRef := wsRef r; shouldReconnectRef := shouldReconnectRef r;
     reconnectTimerRef := reconnectTimerRef r; bluetoothDeviceRef := bluetoothDeviceRef r;
     bluetoothCharacteristicRef := bluetoothCharacteristicRef r; readerRef := readerRef r;
     keepReadingRef := keepReadingRef r; isPausedRef := isPausedRef r;
     maxBufferSizeRef := maxBufferSizeRef r; sendQueueRef := v;
     isSendingRef := isSendingRef r; newlineCountRef := newlineCountRef r |}.
Definition with_isSendingRef (v : bool) (r : Refs) : Refs :=
  {| wsRef := wsRef r; shouldReconnectRef := shouldReconnectRef r;
     reconnectTimerRef := reconnectTimerRef r; bluetoothDeviceRef := bluetoothDeviceRef r;
     bluetoothCharacteristicRef := bluetoothCharacteristicRef r; readerRef := readerRef r;
     keepReadingRef := keepReadingRef r; isPausedRef := isPausedRef r;
     maxBufferSizeRef := maxBufferSizeRef r; sendQueueRef := sendQueueRef r;
     isSendingRef := v; newlineCountRef := newlineCountRef r |}.
Definition with_newlineCountRef (v : Z) (r : Refs) : Refs :=
  {| wsRef := wsRef r; shouldReconnectRef := shouldReconnectRef r;
     reconnectTimerRef := reconnectTimerRef r; bluetoothDeviceRef := bluetoothDeviceRef r;
     bluetoothCharacteristicRef := bluetoothCharacteristicRef r; readerRef := readerRef r;
     keepReadingRef := keepReadingRef r; isPausedRef := isPausedRef r;
     maxBufferSizeRef := maxBufferSizeRef r; sendQueueRef := sendQueueRef r;
     isSendingRef := isSendingRef r; newlineCountRef := v |}.
Definition with_timers (v : gmap Timer (Z * Callback)) (r : Host) : Host :=
  {| timers := v; nextTimer := nextTimer r; sockets := sockets r;
     nextSocket := nextSocket r; suspended := suspended r;
     gattListeners := gattListeners r; stamps := stamps r; tick := tick r;
     effects := effects r |}.
Definition with_nextTimer (v : Timer) (r : Host) : Host :=
  {| timers := timers r; nextTimer := v; sockets := sockets r; nextSocket := nextSocket r;
     suspended := suspended r; gattListeners := gattListeners r; stamps := stamps r;
     tick := tick r; effects := effects r |}.
Definition with_sockets (v : gmap Socket Render) (r : Host) : Host :=
  {| timers := timers r; nextTimer := nextTimer r; sockets := v;
     nextSocket := nextSocket r; suspended := suspended r;
     gattListeners := gattListeners r; stamps := stamps r; tick := tick r;
     effects := effects r |}.
Definition with_nextSocket (v : Socket) (r : Host) : Host :=
  {| timers := timers r; nextTimer := nextTimer r; sockets := sockets r; nextSocket := v;
     suspended := suspended r; gattListeners := gattListeners r; stamps := stamps r;
     tick := tick r; effects := effects r |}.
Definition with_suspended (v : list Task) (r : Host) : Host :=
  {| timers := timers r; nextTimer := nextTimer r; sockets := sockets r;
     nextSocket := nextSocket r; suspended := v; gattListeners := gattListeners r;
     stamps := stamps r; tick := tick r; effects := effects r |}.
Definition with_gattListeners (v : list Render) (r : Host) : Host :=
  {| timers := timers r; nextTimer := nextTimer r; sockets := sockets r;
     nextSocket := nextSocket r; suspended := suspended r; gattListeners := v;
     stamps := stamps r; tick := tick r; effects := effects r |}.
Definition with_tick (v : nat) (r : Host) : Host :=
  {| timers := timers r; nextTimer := nextTimer r; sockets := sockets r;
     nextSocket := nextSocket r; suspended := suspended r;
     gattListeners := gattListeners r; stamps := stamps r; tick := v;
     effects := effects r |}.
Definition with_effects (v : list Effect) (r : Host) : Host :=
  {| timers := timers r; nextTimer := nextTimer r; sockets := sockets r;
     nextSocket := nextSocket r; suspended := suspended r;
     gattListeners := gattListeners r; stamps := stamps r; tick := tick r; effects := v |}.
Definition with_ui (v : Render) (r : App) : App :=
  {| ui := v; refs := refs r; host := host r |}.
Definition with_refs (v : Refs) (r : App) : App :=
  {| ui := ui r; refs := v; host := host r |}.
Definition with_host (v : Host) (r : App) : App :=
  {| ui := ui r; refs := refs r; host := v |}.

Definition onUi (f : Render -> Render) (a : App) : App := with_ui (f (ui a)) a.
Definition onRefs (f : Refs -> Refs) (a : App) : App := with_refs (f (refs a)) a.
Definition onHost (f : Host -> Host) (a : App) : App := with_host (f (host a)) a.

(** The state setters of React. [setIsPaused] includes the effect
    [useEffect(() => { isPausedRef.current = isPaused }, [isPaused])] that
    follows the render. *)
Definition setPort (v : option SerialPort) : App -> App := onUi (with_port v).
Definition setIsConnected (v : bool) : App -> App := onUi (with_isConnected v).
Definition setIsReconnecting (v : bool) : App -> App := onUi (with_isReconnecting v).
Definition setIsPaused (v : bool) (a : App) : App :=
  onRefs (with_isPausedRef v) (onUi (with_isPaused v) a).
Definition setLogs (f : list LogEntry -> list LogEntry) : App -> App :=
  onUi (fun u => with_logs (f (logs u)) u).

(** One more entry of the effect trace. *)
Definition perform (e : Effect) : App -> App :=
  onHost (fun h => with_effects (effects h ++ [e]) h).

(** Park / unpark an async function. *)
Definition suspend (t : Task) : App -> App :=
  onHost (fun h => with_suspended (suspended h ++ [t]) h).
Definition unpark (i : nat) : App -> App :=
  onHost (fun h => with_suspended (delete i (suspended h)) h).

(** [setTimeout(cb, ms)] and [clearTimeout(t)]. *)
Definition setTimeout (cb : Callback) (ms : Z) (a : App) : Timer * App :=
  let t := nextTimer (host a) in
  (t, onHost (fun h => with_nextTimer (Pos.succ t) (with_timers (<[t := (ms, cb)]> (timers h)) h)) a).
Definition clearTimeout (t : Timer) : App -> App :=
  onHost (fun h => with_timers (delete t (timers h)) h).

(** [(newText.match(/\n/g) || []).length] *)
Fixpoint countNewlines (s : string) : Z :=
  match s with
  | EmptyString => 0
  | String c rest => (if Ascii.eqb c "010"%char then 1 else 0) + countNewlines rest
  end.

(** [addLog(type, data, newText)]: the id and the time come from the host,
    the ceiling from [maxBufferSizeRef.current]. *)
Definition addLog (ty : LogType) (d : list byte) (newText : string) (a : App) : App :=
  let st := stamps (host a) (tick (host a)) in
  let a1 := match ty with
            | rx => onRefs (fun r => with_newlineCountRef (newlineCountRef r + countNewlines newText) r) a
            | _ => a
            end in
  let a2 := setLogs (addLogUpdater st (maxBufferSizeRef (refs a1)) ty d newText) a1 in
  onHost (fun h => with_tick (S (tick h)) h) a2.

(** [new Uint8Array()] *)
Definition emptyBytes : list byte := [].

(** [togglePause] *)
Definition togglePause (snap : Render) (a : App) : App :=
  if negb (isConnected snap) then a
  else
    let newPausedState := negb (isPaused snap) in
    let a := setIsPaused newPausedState a in
    if newPausedState then addLog info emptyBytes "串口数据已暂停" a
    else addLog info emptyBytes "串口数据已恢复" a.

(** The button [清空]: [setLogs([])]. *)
Definition clearLogs : App -> App := setLogs (fun _ => []).

(** ** disconnect *)

(** [disconnect]. [cancelResult] is what [await readerRef.current.cancel()]
    settles to; a rejection there is not caught and ends the function. The
    calls in [try { ... } catch (e) {}] cannot fail it. *)
Definition disconnect (snap : Render) (cancelResult : Outcome ()) (a : App) : App :=
  match commMode snap with
  | Bluetooth =>
      let a := match bluetoothDeviceRef (refs a) with
               | Some dev => if gatt dev then perform GattDisconnect a else a
               | None => a
               end in
      let a := onRefs (with_bluetoothDeviceRef None) a in
      let a := onRefs (with_bluetoothCharacteristicRef None) a in
      let a := setIsConnected false a in
      let a := setIsPaused false a in
      addLog info emptyBytes "蓝牙已断开" a
  | WebSocket =>
      let a := onRefs (with_shouldReconnectRef false) a in
      let a := setIsReconnecting false a in
      let a := match reconnectTimerRef (refs a) with
               | Some t => onRefs (with_reconnectTimerRef None) (clearTimeout t a)
               | None => a
               end in
      let a := match wsRef (refs a) with
               | Some ws => onRefs (with_wsRef None) (perform (WsClose ws) a)
               | None => a
               end in
      let a := setIsConnected false a in
      let a := setIsPaused false a in
      addLog info emptyBytes "WebSocket 已关闭" a
  | Serial =>
      let a := onRefs (with_keepReadingRef false) a in
      let continue (a : App) :=
        let a := match port snap with
                 | Some p => setPort None (perform (PortClose p) a)
                 | None => a
                 end in
        let a := setIsConnected false a in
        let a := setIsPaused false a in
        addLog info emptyBytes "串口已关闭" a in
      match readerRef (refs a) with
      | Some r =>
          let a := perform (ReaderCancel r) a in
          match cancelResult with
          | Resolved _ => continue (onRefs (with_readerRef None) a)
          | Rejected _ => a
          end
      | None => continue a
      end
  end.

(** ** connect *)

(** What the host answers during one [connect]. *)
Record ConnectEnv := {
  hasSerial : bool;                               (* 'serial' in navigator *)
  requestPort : Outcome SerialPort;               (* navigator.serial.requestPort() *)
  openPort : Outcome ();                          (* selectedPort.open({...}) *)
  hasBluetooth : bool;                            (* 'bluetooth' in navigator *)
  requestDevice : Outcome BluetoothDevice;        (* navigator.bluetooth.requestDevice({...}) *)
  gattConnect : Outcome ();                       (* device.gatt.connect() *)
  getPrimaryService : Outcome ();                 (* server.getPrimaryService(uuid) *)
  getCharacteristic : Outcome Characteristic;     (* service.getCharacteristic(uuid) *)
  startNotifications : Outcome ();                (* characteristic.startNotifications() *)
  newWebSocket : Outcome ()                       (* new WebSocket(wsUrl) *)
}.

(** [await p] inside [try { ... } catch (err) { handler }]. *)
Definition awaiting {A} (p : Outcome A) (handler : JsError -> App -> App)
    (k : A -> App -> App) (a : App) : App :=
  match p with
  | Resolved x => k x a
  | Rejected err => handler err a
  end.

(** The [TypeError] of a property read on [null] / [undefined]. *)
Definition typeErrorNull : JsError :=
  {| err_name := "TypeError"; err_message := "Cannot read properties of null" |}.

(** [device.name || '未知设备'] *)
Definition deviceLabel (device : BluetoothDevice) : string :=
  if String.eqb (device_name device) "" then "未知设备" else device_name device.

(** [readLoop(selectedPort)] up to its first [await reader.read()]: it takes
    the reader; what it reads arrives as [serialData] below. *)
Definition readLoop (selectedPort : SerialPort) (a : App) : App :=
  if keepReadingRef (refs a) then onRefs (with_readerRef (Some selectedPort)) a else a.

(** [connect], one branch per [commMode] as in the source. *)
Definition connect (snap : Render) (env : ConnectEnv) (a : App) : App :=
  match commMode snap with
  | Bluetooth =>
      if negb (hasBluetooth env) then
        perform (Alert "您的浏览器不支持 Web Bluetooth API。请使用 Chrome 或 Edge 浏览器。") a
      else if String.eqb (bluetoothServiceUUID snap) ""
              || String.eqb (bluetoothCharacteristicUUID snap) "" then
        perform (Alert "请先配置蓝牙服务 UUID 和特征 UUID") a
      else
        let catch (err : JsError) :=
          addLog error emptyBytes ("蓝牙连接失败: " +:+ err_message err) in
        awaiting (requestDevice env) catch (fun device a =>
          let a := addLog info emptyBytes ("正在连接蓝牙设备: " +:+ deviceLabel device) a in
          awaiting (if gatt device then gattConnect env else Rejected typeErrorNull) catch (fun _ a =>
            let a := addLog info emptyBytes "GATT 服务器已连接" a in
            awaiting (getPrimaryService env) catch (fun _ a =>
              let a := addLog info emptyBytes "已获取服务" a in
              awaiting (getCharacteristic env) catch (fun characteristic a =>
                let a := addLog info emptyBytes "已获取特征" a in
                let a := onRefs (with_bluetoothDeviceRef (Some device)) a in
                let a := onRefs (with_bluetoothCharacteristicRef (Some characteristic)) a in
                awaiting (startNotifications env) catch (fun _ a =>
                  let a := addLog info emptyBytes "已启用通知" a in
                  let a := setIsConnected true a in
                  let a := addLog info emptyBytes ("蓝牙已连接: " +:+ deviceLabel device) a in
                  onHost (fun h => with_gattListeners (gattListeners h ++ [snap]) h) a)
                a) a) a) a) a
  | WebSocket =>
      if String.eqb (wsUrl snap) "" then
        perform (Alert "请输入 WebSocket 服务器地址") a
      else
        let a := perform (NewWebSocket (wsUrl snap)) a in
        match newWebSocket env with
        | Resolved _ =>
            let ws := nextSocket (host a) in
            let a := onHost (fun h => with_nextSocket (S ws)
                                        (with_sockets (<[ws := snap]> (sockets h)) h)) a in
            let a := onRefs (with_wsRef (Some ws)) a in
            onRefs (with_shouldReconnectRef true) a
        | Rejected err =>
            addLog error emptyBytes ("WebSocket 连接失败: " +:+ err_message err) a
        end
  | Serial =>
      if negb (hasSerial env) then
        perform (Alert "您的浏览器不支持 Web Serial API。") a
      else
        let catch (err : JsError) :=
          addLog error emptyBytes ("连接失败: " +:+ err_message err) in
        awaiting (requestPort env) catch (fun selectedPort a =>
          awaiting (openPort env) catch (fun _ a =>
            let a := setPort (Some selectedPort) a in
            let a := setIsConnected true a in
            let a := onRefs (with_keepReadingRef true) a in
            let a := addLog info emptyBytes ("已连接: " +:+ pretty (baudRate snap) +:+ " bps") a in
            readLoop selectedPort a) a) a
  end.

(** ** What the host delivers *)

(** An incoming WebSocket message, with what the decoder / encoder makes of
    it: an [ArrayBuffer] and its decoded text, a string and its encoding, or
    anything else (a [Blob]). *)
Inductive WsMessage :=
| BinaryMessage (d : list byte) (decoded : string)
| TextMessage (s : string) (encoded : list byte)
| OtherMessage.

(** [ws.onopen], with the render of the [connect] that made the socket. *)
Definition ws_onopen (snap : Render) (a : App) : App :=
  let a := setIsConnected true a in
  let a := setIsReconnecting false a in
  addLog info emptyBytes ("WebSocket 已连接: " +:+ wsUrl snap) a.

(** [ws.onmessage] *)
Definition ws_onmessage (m : WsMessage) (a : App) : App :=
  if isPausedRef (refs a) then a
  else match m with
       | BinaryMessage d decoded => addLog rx d decoded a
       | TextMessage s encoded => addLog rx encoded s a
       | OtherMessage => addLog rx [] "[二进制数据]" a
       end.

(** [ws.onerror]: the event prints as [[object Event]]. *)
Definition ws_onerror (a : App) : App :=
  addLog error emptyBytes ("WebSocket 错误: " +:+ "[object Event]") a.

(** The delay of the reconnect timer. *)
Definition reconnectDelay : Z := 1000.

(** [ws.onclose] *)
Definition ws_onclose (snap : Render) (a : App) : App :=
  let a := setIsConnected false a in
  let a := setIsPaused false a in
  let a := onRefs (with_wsRef None) a in
  if shouldReconnectRef (refs a) && bool_decide (commMode snap = WebSocket) then
    let a := setIsReconnecting true a in
    let a := addLog info emptyBytes "WebSocket 连接已断开，1秒后尝试重连..." a in
    let '(t, a) := setTimeout (ReconnectCallback snap) reconnectDelay a in
    onRefs (with_reconnectTimerRef (Some t)) a
  else
    let a := setIsReconnecting false a in
    addLog info emptyBytes "WebSocket 连接已关闭" a.

(** The listener of [characteristicvaluechanged]. *)
Definition characteristicvaluechanged (d : list byte) (textChunk : string) (a : App) : App :=
  if isPausedRef (refs a) then a else addLog rx d textChunk a.

(** The listener of [gattserverdisconnected]. *)
Definition gattserverdisconnected (snap : Render) (a : App) : App :=
  if bool_decide (commMode snap = Bluetooth) && isConnected snap then
    let a := setIsConnected false a in
    let a := setIsPaused false a in
    let a := onRefs (with_bluetoothDeviceRef None) a in
    let a := onRefs (with_bluetoothCharacteristicRef None) a in
    addLog info emptyBytes "蓝牙设备已断开" a
  else a.

(** One round of the inner loop of [readLoop]: a chunk [value] read from the
    port and its decoding. *)
Definition serialData (value : list byte) (textChunk : string) (a : App) : App :=
  if negb (isPausedRef (refs a)) then addLog rx value textChunk a else a.

(** ** The send queue *)

(** What the host answers when a handler asks about the transport: whether
    [wsRef.current.readyState === WebSocket.OPEN], whether [port.writable]
    is there, and what [port.writable.getWriter()] does (it throws on a
    locked stream). They do not change while a handler runs between two
    [await]s. *)
Record HostAnswers := {
  wsOpen : bool;
  portWritable : bool;
  getWriter : Outcome ()
}.

(** The converters of [./utils/converters], which [sendData] calls. *)
Record Converters := {
  hexToUint8Array : string -> list byte;
  stringToUint8Array : string -> list byte;
  uint8ArrayToString : list byte -> string
}.

(** The [while (sendQueueRef.current.length > 0)] loop of [processSendQueue],
    from its head up to the next [await] or to its end. [queue] is
    [sendQueueRef.current]. A write that is awaited parks the function; the
    WebSocket branch and the branches that find no transport go on at once. *)
Fixpoint drainLoop (snap : Render) (ans : HostAnswers)
    (queue : list SendQueueItem) (a : App) : App :=
  match queue with
  | [] => onRefs (with_isSendingRef false) a
  | item :: rest =>
      let a := onRefs (with_sendQueueRef rest) a in        (* shift() *)
      match commMode snap with
      | Bluetooth =>
          match bluetoothCharacteristicRef (refs a) with
          | Some c => suspend (DrainAwaitingWrite snap) (perform (BleWrite FromQueue c (q_data item)) a)
          | None => drainLoop snap ans rest a
          end
      | WebSocket =>
          match wsRef (refs a) with
          | Some ws =>
              if wsOpen ans then
                let a := match q_mode item with
                         | Hex => perform (WsSendBinary FromQueue ws (q_data item)) a
                         | Text => perform (WsSendText ws (q_text item)) a
                         end in
                drainLoop snap ans rest a
              else drainLoop snap ans rest a
          | None => drainLoop snap ans rest a
          end
      | Serial =>
          match port snap with
          | Some p =>
              if portWritable ans then
                match getWriter ans with
                | Resolved _ =>
                    suspend (DrainAwaitingWrite snap) (perform (SerialWrite FromQueue p (q_data item)) a)
                | Rejected err =>
                    drainLoop snap ans rest
                      (addLog error emptyBytes ("发送失败: " +:+ err_message err) a)
                end
              else drainLoop snap ans rest a
          | None => drainLoop snap ans rest a
          end
      end
  end.

(** [processSendQueue] *)
Definition processSendQueue (snap : Render) (ans : HostAnswers) (a : App) : App :=
  if isSendingRef (refs a) || bool_decide (length (sendQueueRef (refs a)) = 0%nat) then a
  else
    let a := onRefs (with_isSendingRef true) a in
    drainLoop snap ans (sendQueueRef (refs a)) a.

(** [sendData(input, mode)] *)
Definition sendData (conv : Converters) (snap : Render) (input : string) (mode : DisplayMode)
    (ans : HostAnswers) (a : App) : App :=
  if isPaused snap then addLog error emptyBytes "发送失败: 已暂停" a
  else
    let d := match mode with
             | Hex => hexToUint8Array conv input
             | Text => stringToUint8Array conv input
             end in
    let textToSend := uint8ArrayToString conv d in
    let a := addLog tx d textToSend a in
    let a := onRefs (fun r => with_sendQueueRef
                 (sendQueueRef r ++ [{| q_data := d; q_text := textToSend; q_mode := mode |}]) r) a in
    processSendQueue snap ans a.

(** ** The file transfer *)

(** [Math.round((sent / total) * 100)], in exact arithmetic (the source
    computes the quotient and the product in doubles): half-way cases go up. *)
Definition roundPercent (sent total : Z) : Z := (200 * sent + total) / (2 * total).

(** The chunk size the loop of a branch slices with: [options.throttleBytes],
    and [Math.min(options.throttleBytes, 20)] in the Bluetooth branch. *)
Definition chunkSizeOf (mode : CommMode) (options : FileOptions) : Z :=
  match mode with
  | Bluetooth => Z.min (throttleBytes options) 20
  | WebSocket | Serial => throttleBytes options
  end.

Definition with_job_sent (v : Z) (job : FileJob) : FileJob :=
  {| job_snap := job_snap job; job_writer := job_writer job; job_data := job_data job;
     job_options := job_options job; job_sent := v |}.

(** The [catch (err)] of the transfer. *)
Definition fileCatch (err : JsError) : App -> App :=
  addLog error emptyBytes ("文件发送中断: " +:+ err_message err).

(** After the loop: [if (!isPaused) addLog('info', ..., '文件发送完毕')]. *)
Definition fileEnd (snap : Render) (a : App) : App :=
  if negb (isPaused snap) then addLog info emptyBytes "文件发送完毕" a else a.

(** The loop body after the write of [chunk] is through: move the cursor,
    report, pace, and go round ([loop]) again. *)
Definition fileAfterWrite (loop : FileJob -> App -> option App)
    (job : FileJob) (chunk : list byte) (a : App) : option App :=
  let total := Z.of_nat (length (job_data job)) in
  let sent := job_sent job + Z.of_nat (length chunk) in
  let job := with_job_sent sent job in
  let a := perform (Progress (roundPercent sent total)) a in
  if bool_decide (throttleMs (job_options job) > 0) && bool_decide (sent < total) then
    Some (suspend (FileSleeping job) (perform (Sleep (throttleMs (job_options job))) a))
  else loop job a.

(** The [while (sent < total)] loop of [handleFileSend], from its head up to
    the next [await] or to the end of the function. The pause test reads
    [isPaused] of the render the function closes over. The WebSocket branch
    does not await its write, so it may go round several times; [fuel] bounds
    that, and [None] is a loop that is still going round. *)
Fixpoint fileLoop (fuel : nat) (job : FileJob) (a : App) : option App :=
  match fuel with
  | O => None
  | S fuel =>
      let snap := job_snap job in
      let total := Z.of_nat (length (job_data job)) in
      let sent := job_sent job in
      if bool_decide (sent < total) then
        if isPaused snap then
          Some (fileEnd snap (addLog error emptyBytes "文件发送中断: 已暂停" a))
        else
          let chunk := slice sent (sent + chunkSizeOf (commMode snap) (job_options job))
                             (job_data job) in
          match commMode snap with
          | Bluetooth =>
              match bluetoothCharacteristicRef (refs a) with
              | Some c => Some (suspend (FileAwaitingWrite job chunk) (perform (BleWrite FromTransfer c chunk) a))
              | None => Some (fileCatch typeErrorNull a)
              end
          | WebSocket =>
              match wsRef (refs a) with
              | Some ws => fileAfterWrite (fileLoop fuel) job chunk (perform (WsSendBinary FromTransfer ws chunk) a)
              | None => Some (fileCatch typeErrorNull a)
              end
          | Serial =>
              match job_writer job with
              | Some p => Some (suspend (FileAwaitingWrite job chunk) (perform (SerialWrite FromTransfer p chunk) a))
              | None => Some (fileCatch typeErrorNull a)
              end
          end
      else Some (fileEnd snap a)
  end.

(** [`文件: ${file.name} (${total} 字节)`] and [`开始发送文件: ...`] *)
Definition fileLabel (file : File) : string :=
  file_name file +:+ " (" +:+ pretty (Z.of_nat (length (file_bytes file))) +:+ " 字节)".

(** [handleFileSend(file, options)], up to its first [await] in the loop. *)
Definition handleFileSend (snap : Render) (file : File) (options : FileOptions)
    (ans : HostAnswers) (fuel : nat) (a : App) : option App :=
  let start (writer : option SerialPort) (a : App) :=
    let a := addLog tx (file_bytes file) ("文件: " +:+ fileLabel file) a in
    let a := addLog info emptyBytes ("开始发送文件: " +:+ fileLabel file) a in
    fileLoop fuel {| job_snap := snap; job_writer := writer; job_data := file_bytes file;
                     job_options := options; job_sent := 0 |} a in
  if isPaused snap then Some (addLog error emptyBytes "文件发送失败: 已暂停" a)
  else
    match commMode snap with
    | Bluetooth =>
        match bluetoothCharacteristicRef (refs a) with
        | Some _ => start None a
        | None => Some (addLog error emptyBytes "文件发送失败: 蓝牙未连接" a)
        end
    | WebSocket =>
        match wsRef (refs a) with
        | Some _ =>
            if wsOpen ans then start None a
            else Some (addLog error emptyBytes "文件发送失败: WebSocket 未连接" a)
        | None => Some (addLog error emptyBytes "文件发送失败: WebSocket 未连接" a)
        end
    | Serial =>
        match port snap with
        | Some p =>
            if portWritable ans then
              match getWriter ans with
              | Resolved _ => start (Some p) a
              | Rejected _ => Some a
              end
            else Some a
        | None => Some a
        end
    end.

(** ** Resuming a parked function *)

(** The function parked as [t] goes on with [result], the settled state of
    what it awaited. *)
Definition resumeTask (t : Task) (result : Outcome ()) (ans : HostAnswers) (fuel : nat)
    (a : App) : option App :=
  match t with
  | DrainAwaitingWrite snap =>
      let a := match result with
               | Resolved _ => a
               | Rejected err => addLog error emptyBytes ("发送失败: " +:+ err_message err) a
               end in
      Some (drainLoop snap ans (sendQueueRef (refs a)) a)
  | FileAwaitingWrite job chunk =>
      match result with
      | Resolved _ => fileAfterWrite (fileLoop fuel) job chunk a
      | Rejected err => Some (fileCatch err a)
      end
  | FileSleeping job => fileLoop fuel job a
  end.

Definition resume (i : nat) (result : Outcome ()) (ans : HostAnswers) (fuel : nat)
    (a : App) : option App :=
  match suspended (host a) !! i with
  | Some t => resumeTask t result ans fuel (unpark i a)
  | None => Some a
  end.

(** ** Events *)

(** A pending timeout comes due: the host drops it and runs its callback. *)
Definition timerFire (t : Timer) (env : ConnectEnv) (a : App) : App :=
  match timers (host a) !! t with
  | Some (_, ReconnectCallback snap) => connect snap env (clearTimeout t a)
  | None => a
  end.

Inductive SocketEvent :=
| SocketOpen
| SocketMessage (m : WsMessage)
| SocketError
| SocketClose.

(** An event of socket [ws] reaches the handler [connect] gave it; after
    [close] the socket delivers nothing more. *)
Definition socketEvent (ws : Socket) (e : SocketEvent) (a : App) : App :=
  match sockets (host a) !! ws with
  | Some snap =>
      match e with
      | SocketOpen => ws_onopen snap a
      | SocketMessage m => ws_onmessage m a
      | SocketError => ws_onerror a
      | SocketClose => ws_onclose snap (onHost (fun h => with_sockets (delete ws (sockets h)) h) a)
      end
  | None => a
  end.

(** [setMaxBufferSize(v)] with the effect that copies it to the ref. *)
Definition setMaxBufferSize (v : Z) (a : App) : App :=
  onRefs (with_maxBufferSizeRef v) (onUi (with_maxBufferSize v) a).

(** Everything that can happen to the component: the user's actions, which
    run the handler of the current render, and what the host delivers. The
    enabling conditions of the buttons are left out: every handler may be
    invoked in every state. *)
Inductive Event :=
| Connect (env : ConnectEnv)
| Disconnect (cancelResult : Outcome ())
| TogglePause
| ClearLogs
| SetCommMode (m : CommMode)
| SetMaxBufferSize (v : Z)
| SetWsUrl (url : string)
| SetBluetoothServiceUUID (uuid : string)
| SetBluetoothCharacteristicUUID (uuid : string)
| SendData (conv : Converters) (input : string) (mode : DisplayMode) (ans : HostAnswers)
| FileSend (file : File) (options : FileOptions) (ans : HostAnswers) (fuel : nat)
| Resume (i : nat) (result : Outcome ()) (ans : HostAnswers) (fuel : nat)
| TimerFire (t : Timer) (env : ConnectEnv)
| SocketDelivers (ws : Socket) (e : SocketEvent)
| SerialDelivers (value : list byte) (textChunk : string)
| BleNotifies (d : list byte) (textChunk : string)
| GattDisconnected (listener : nat).

Definition step (e : Event) (a : App) : option App :=
  match e with
  | Connect env => Some (connect (ui a) env a)
  | Disconnect cancelResult => Some (disconnect (ui a) cancelResult a)
  | TogglePause => Some (togglePause (ui a) a)
  | ClearLogs => Some (clearLogs a)
  | SetCommMode m => Some (onUi (with_commMode m) a)
  | SetMaxBufferSize v => Some (setMaxBufferSize v a)
  | SetWsUrl url => Some (onUi (with_wsUrl url) a)
  | SetBluetoothServiceUUID uuid => Some (onUi (with_bluetoothServiceUUID uuid) a)
  | SetBluetoothCharacteristicUUID uuid => Some (onUi (with_bluetoothCharacteristicUUID uuid) a)
  | SendData conv input mode ans => Some (sendData conv (ui a) input mode ans a)
  | FileSend file options ans fuel => handleFileSend (ui a) file options ans fuel a
  | Resume i result ans fuel => resume i result ans fuel a
  | TimerFire t env => Some (timerFire t env a)
  | SocketDelivers ws e => Some (socketEvent ws e a)
  | SerialDelivers value textChunk => Some (serialData value textChunk a)
  | BleNotifies d textChunk => Some (characteristicvaluechanged d textChunk a)
  | GattDisconnected i =>
      match gattListeners (host a) !! i with
      | Some snap => Some (gattserverdisconnected snap a)
      | None => Some a
      end
  end.

Fixpoint run (es : list Event) (a : App) : option App :=
  match es with
  | [] => Some a
  | e :: es => match step e a with
               | Some a' => run es a'
               | None => None
               end
  end.

(** The component as mounted: the initial values of its [useState] and
    [useRef] hooks, and a host with nothing pending. *)
Definition initialApp (supply : nat -> Stamp) : App :=
  {| ui := {| port := None; isConnected := false; isPaused := false;
              maxBufferSize := 100 * 1024; commMode := Serial;
              wsUrl := "ws://localhost:8080"; isReconnecting := false;
              bluetoothServiceUUID := ""; bluetoothCharacteristicUUID := "";
              baudRate := 115200; logs := [] |};
     refs := {| wsRef := None; shouldReconnectRef := true; reconnectTimerRef := None;
                bluetoothDeviceRef := None; bluetoothCharacteristicRef := None;
                readerRef := None; keepReadingRef := true; isPausedRef := false;
                maxBufferSizeRef := 100 * 1024; sendQueueRef := []; isSendingRef := false;
                newlineCountRef := 0 |};
     host := {| timers := ∅; nextTimer := 1%positive; sockets := ∅; nextSocket := 0%nat;
                suspended := []; gattListeners := []; stamps := supply; tick := 0%nat;
                effects := [] |} |}.

Definition Reachable (a : App) : Prop :=
  exists supply es, run es (initialApp supply) = Some a.

(** ** Notions the statements below use *)

(** The buffer with the entry of [addLog(ty, d, newText)] appended, before
    any eviction: [updatedLogs] of the source. *)
Definition updatedLogs (ty : LogType) (d : list byte) (newText : string) (a : App)
    : list LogEntry :=
  logs (ui a) ++ [newLogEntry (stamps (host a) (tick (host a))) ty d newText].

(** A supply of ids and times for the examples. *)
Definition supply0 : nat -> Stamp := fun n => {| stamp_id := pretty n; stamp_time := Z.of_nat n |}.

(** An entry is sound when its [byteCount] is the length of its payload and,
    if it is an [info] or [error] entry, the payload is empty. *)
Definition entryOk (l : LogEntry) : Prop :=
  byteCount l = Z.of_nat (length (data l)) /\ (isTraffic l = false -> data l = []).

Definition LogsOk (a : App) : Prop := Forall entryOk (logs (ui a)).

(** A component whose buffer holds [n] one-byte entries, with ceiling
    [ceiling]; for the examples. *)
Definition appWithLogs (n : nat) (ceiling : Z) : App :=
  setLogs (fun _ => repeat (newLogEntry (supply0 0) rx [x00] "0") n)
          (setMaxBufferSize ceiling (initialApp supply0)).

(** The state a list of events leads to from the mounted component (the
    mounted component itself if a step does not return). *)
Definition after (es : list Event) : App :=
  default (initialApp supply0) (run es (initialApp supply0)).

(** The text of the entry [disconnect] logs in each mode. *)
Definition closedText (m : CommMode) : string :=
  match m with
  | Bluetooth => "蓝牙已断开"
  | WebSocket => "WebSocket 已关闭"
  | Serial => "串口已关闭"
  end.

(** The number of [info] entries of a buffer that report a closed link. *)
Definition isClosedEntry (l : LogEntry) : bool :=
  bool_decide (type l = info)
  && (String.eqb (text l) (closedText Bluetooth)
      || String.eqb (text l) (closedText WebSocket)
      || String.eqb (text l) (closedText Serial)).

Definition countClosed (logs : list LogEntry) : nat :=
  length (filter (fun l => isClosedEntry l = true) logs).

(** The number of [error] entries of a buffer. *)
Definition countErrors (logs : list LogEntry) : nat :=
  length (filter (fun l => type l = error) logs).

(** The device picker of a [connect] was dismissed: the request of the port
    (serial) or of the device (Bluetooth) rejects with [err]. *)
Definition pickerDismissed (snap : Render) (env : ConnectEnv) (err : JsError) : Prop :=
  match commMode snap with
  | Serial => hasSerial env = true /\ requestPort env = Rejected err
  | Bluetooth =>
      hasBluetooth env = true
      /\ bluetoothServiceUUID snap <> "" /\ bluetoothCharacteristicUUID snap <> ""
      /\ requestDevice env = Rejected err
  | WebSocket => False
  end.

(** The text of the [error] entry the [catch] of [connect] logs. *)
Definition connectFailureText (m : CommMode) (err : JsError) : string :=
  match m with
  | Bluetooth => "蓝牙连接失败: " +:+ err_message err
  | WebSocket => "WebSocket 连接失败: " +:+ err_message err
  | Serial => "连接失败: " +:+ err_message err
  end.

(** What Chrome rejects [requestPort()] with when the chooser is dismissed. *)
Definition noPortSelected : JsError :=
  {| err_name := "NotFoundError";
     err_message := "Failed to execute 'requestPort' on 'Serial': No port selected by the user." |}.

(** A host on which every call succeeds, but for the serial chooser, which
    the user dismisses. *)
Definition dismissingEnv : ConnectEnv :=
  {| hasSerial := true; requestPort := Rejected noPortSelected; openPort := Resolved ();
     hasBluetooth := true; requestDevice := Resolved {| device_name := "dev"; gatt := true |};
     gattConnect := Resolved (); getPrimaryService := Resolved ();
     getCharacteristic := Resolved 0%nat; startNotifications := Resolved ();
     newWebSocket := Resolved () |}.

(** An uninterrupted run: as long as a function is parked, the oldest one
    goes on with a resolved promise, [rounds] times at most; nothing else
    happens in between. [None] when [rounds] or [fuel] run out. *)
Fixpoint settle (rounds : nat) (ans : HostAnswers) (fuel : nat) (a : App) : option App :=
  match suspended (host a) with
  | [] => Some a
  | _ :: _ =>
      match rounds with
      | O => None
      | S rounds =>
          match resume 0 (Resolved ()) ans fuel a with
          | Some a' => settle rounds ans fuel a'
          | None => None
          end
      end
  end.

(** [handleFileSend] run to its end without interruption. *)
Definition transfer (snap : Render) (file : File) (options : FileOptions) (ans : HostAnswers)
    (fuel rounds : nat) (a : App) : option App :=
  match handleFileSend snap file options ans fuel a with
  | Some a' => settle rounds ans fuel a'
  | None => None
  end.

(** The write a transfer of render [snap] issues per chunk, if its transport
    is there: the writer of the port, the socket in [wsRef] or the
    characteristic in [bluetoothCharacteristicRef]. *)
Definition writeOf (snap : Render) (writer : option SerialPort) (a : App)
    : option (list byte -> Effect) :=
  match commMode snap with
  | Bluetooth => BleWrite FromTransfer <$> bluetoothCharacteristicRef (refs a)
  | WebSocket => WsSendBinary FromTransfer <$> wsRef (refs a)
  | Serial => SerialWrite FromTransfer <$> writer
  end.

(** The transport passes the tests [handleFileSend] makes before it starts. *)
Definition transportReady (snap : Render) (ans : HostAnswers) (a : App)
    : option (list byte -> Effect) :=
  match commMode snap with
  | Bluetooth => writeOf snap None a
  | WebSocket => if wsOpen ans then writeOf snap None a else None
  | Serial =>
      match getWriter ans with
      | Resolved _ => if portWritable ans then writeOf snap (port snap) a else None
      | Rejected _ => None
      end
  end.

(** [ceil(total / c)] *)
Definition chunkCount (total c : Z) : nat := Z.to_nat ((total + c - 1) / c).

(** What the specification expects of chunk number [i] (from 0) of a
    transfer of [d] in chunks of [c] bytes with delay [ms]: the write of the
    next [min(c, remaining)] bytes, the progress report with the cursor after
    it, and the delay unless the chunk is the last one. *)
Definition chunkEffects (write : list byte -> Effect) (c ms : Z) (d : list byte) (i : nat)
    : list Effect :=
  let total := Z.of_nat (length d) in
  [write (take (Z.to_nat c) (drop (i * Z.to_nat c) d));
   Progress (roundPercent (Z.min ((Z.of_nat i + 1) * c) total) total)]
  ++ (if bool_decide (ms > 0) && bool_decide (S i < chunkCount total c)%nat
      then [Sleep ms] else []).

Definition transferTrace (write : list byte -> Effect) (c ms : Z) (d : list byte)
    : list Effect :=
  flat_map (chunkEffects write c ms d) (seq 0 (chunkCount (Z.of_nat (length d)) c)).

Definition isWrite (e : Effect) : bool :=
  match e with
  | SerialWrite _ _ _ | BleWrite _ _ _ | WsSendBinary _ _ _ | WsSendText _ _ => true
  | _ => false
  end.

(** A host on which every call of [connect] succeeds; the chooser returns
    port 7. *)
Definition okEnv : ConnectEnv :=
  {| hasSerial := true; requestPort := Resolved 7%nat; openPort := Resolved ();
     hasBluetooth := true; requestDevice := Resolved {| device_name := "dev"; gatt := true |};
     gattConnect := Resolved (); getPrimaryService := Resolved ();
     getCharacteristic := Resolved 0%nat; startNotifications := Resolved ();
     newWebSocket := Resolved () |}.

(** A transport that is there and takes writes. *)
Definition up : HostAnswers := {| wsOpen := true; portWritable := true; getWriter := Resolved () |}.

(** A file of [size] zero bytes. *)
Definition zeroFile (size : Z) : File :=
  {| file_name := "f.bin"; file_bytes := repeat x00 (Z.to_nat size) |}.

(** A transfer during which the user pauses: the port is connected, a file
    of four bytes goes out in chunks of two, the pause button is pressed
    while the first write is awaited, then the two writes resolve. *)
Definition fourBytes : File := {| file_name := "f.bin"; file_bytes := [x01; x02; x03; x04] |}.

Definition pausedAfterFirstChunk : list Event :=
  [Connect okEnv; FileSend fourBytes {| throttleBytes := 2; throttleMs := 0 |} up 5;
   TogglePause].

Definition pausedTransfer : list Event :=
  pausedAfterFirstChunk ++ [Resume 0 (Resolved ()) up 5; Resume 0 (Resolved ()) up 5].

(** The drain loops that are parked. *)
Definition isDrain (t : Task) : bool :=
  match t with DrainAwaitingWrite _ => true | _ => false end.

Definition drainTasks (a : App) : list Task :=
  filter (fun t => isDrain t = true) (suspended (host a)).

(** The writes of the send queue in the effect trace. *)
Definition isQueueWrite (e : Effect) : bool :=
  match e with
  | SerialWrite FromQueue _ _ | BleWrite FromQueue _ _ | WsSendBinary FromQueue _ _
  | WsSendText _ _ => true
  | _ => false
  end.

Definition queueWrites (es : list Effect) : list Effect :=
  filter (fun e => isQueueWrite e = true) es.

(** A write of the queue carries an item: its payload is the bytes of the
    item, or its text for a text frame. *)
Definition carries (e : Effect) (item : SendQueueItem) : Prop :=
  match e with
  | SerialWrite FromQueue _ d | BleWrite FromQueue _ d | WsSendBinary FromQueue _ d =>
      d = q_data item
  | WsSendText _ s => s = q_text item
  | _ => False
  end.

(** The item [sendData(input, mode)] pushes. *)
Definition itemOf (conv : Converters) (input : string) (mode : DisplayMode) : SendQueueItem :=
  let d := match mode with
           | Hex => hexToUint8Array conv input
           | Text => stringToUint8Array conv input
           end in
  {| q_data := d; q_text := uint8ArrayToString conv d; q_mode := mode |}.

(** The items the events [es] push, in the order of the events, starting in
    state [a]. *)
Fixpoint enqueuedBy (es : list Event) (a : App) : list SendQueueItem :=
  match es with
  | [] => []
  | e :: es =>
      match e with
      | SendData conv input mode _ =>
          if isPaused (ui a) then [] else [itemOf conv input mode]
      | _ => []
      end
      ++ match step e a with
         | Some a' => enqueuedBy es a'
         | None => []
         end
  end.

(** The state of the send queue after the items [enq] were pushed: the
    items left the queue in the order they came, the writes of the queue are
    writes of items that left, in that order; at most one drain loop is
    parked, [isSendingRef] says whether one is, and without one the queue is
    empty. *)
Definition QueueInv (enq : list SendQueueItem) (a : App) : Prop :=
  (exists done written,
      enq = done ++ sendQueueRef (refs a)
      /\ written `sublist_of` done
      /\ Forall2 carries (queueWrites (effects (host a))) written)
  /\ (length (drainTasks a) <= 1)%nat
  /\ (isSendingRef (refs a) = true <-> drainTasks a <> [])
  /\ (drainTasks a = [] -> sendQueueRef (refs a) = []).

(** [x] differs from [a] in nothing the send queue is about. *)
Definition QFrame (a x : App) : Prop :=
  sendQueueRef (refs x) = sendQueueRef (refs a)
  /\ isSendingRef (refs x) = isSendingRef (refs a)
  /\ drainTasks x = drainTasks a
  /\ queueWrites (effects (host x)) = queueWrites (effects (host a)).

(** The drain loop run on [queue] from [x] to [x']: the items it took, in
    order, the writes it issued for them, and whether it parked or ended. *)
Definition Drained (snap : Render) (queue : list SendQueueItem) (x x' : App) : Prop :=
  exists processed written ws,
    queue = processed ++ sendQueueRef (refs x')
    /\ written `sublist_of` processed
    /\ queueWrites (effects (host x')) = queueWrites (effects (host x)) ++ ws
    /\ Forall2 carries ws written
    /\ ((drainTasks x' = drainTasks x ++ [DrainAwaitingWrite snap]
         /\ isSendingRef (refs x') = isSendingRef (refs x))
        \/ (drainTasks x' = drainTasks x
            /\ isSendingRef (refs x') = false /\ sendQueueRef (refs x') = [])).

(** Converters for the examples: a string is its bytes. *)
Definition plainConverters : Converters :=
  {| hexToUint8Array := String.list_byte_of_string;
     stringToUint8Array := String.list_byte_of_string;
     uint8ArrayToString := String.string_of_list_byte |}.

(** Two sends on a connected port, the second while the write of the first
    is awaited, then the two writes resolve. *)
Definition sendWhileDraining : list Event :=
  [Connect okEnv; SendData plainConverters "a" Text up; SendData plainConverters "b" Text up].

Definition sendTwo : list Event :=
  sendWhileDraining ++ [Resume 0 (Resolved ()) up 1; Resume 0 (Resolved ()) up 1].

(** The connection attempts in an effect trace: the calls of
    [new WebSocket(url)]. *)
Definition isNewWebSocket (e : Effect) : bool :=
  match e with NewWebSocket _ => true | _ => false end.

Definition attempts (es : list Effect) : nat :=
  length (filter (fun e => isNewWebSocket e = true) es).

(** [x] differs from [a] in nothing the reconnect logic is about. *)
Definition NFrame (a x : App) : Prop :=
  timers (host x) = timers (host a)
  /\ nextTimer (host x) = nextTimer (host a)
  /\ sockets (host x) = sockets (host a)
  /\ shouldReconnectRef (refs x) = shouldReconnectRef (refs a)
  /\ attempts (effects (host x)) = attempts (effects (host a)).

(** A render whose [connect] takes the WebSocket branch and gets as far as
    the constructor. *)
Definition socketRender (snap : Render) : Prop :=
  commMode snap = WebSocket /\ wsUrl snap <> "".

(** What holds of the timers and sockets of the host in every reachable
    state: the pending timers are older than the next handle, every socket
    was made by a [connect] in WebSocket mode, and so was the socket whose
    [onclose] set a pending timer, with the fixed delay. *)
Definition HostInv (a : App) : Prop :=
  (forall t, is_Some (timers (host a) !! t) -> (t < nextTimer (host a))%positive)
  /\ (forall ws snap, sockets (host a) !! ws = Some snap -> socketRender snap)
  /\ (forall t ms snap, timers (host a) !! t = Some (ms, ReconnectCallback snap) ->
        ms = reconnectDelay /\ socketRender snap).

(** No reconnect is on its way: the flag is down and no timer is pending;
    [n] attempts were made so far. *)
Definition Quiet (n : nat) (a : App) : Prop :=
  shouldReconnectRef (refs a) = false
  /\ timers (host a) = ∅
  /\ attempts (effects (host a)) = n.

(** Every event but the user's [connect]. *)
Definition notConnect (e : Event) : Prop :=
  match e with Connect _ => False | _ => True end.

(** A WebSocket session that is open, and the same after its socket closed
    unexpectedly. *)
Definition connected : list Event :=
  [SetCommMode WebSocket; Connect okEnv; SocketDelivers 0 SocketOpen].

Definition reconnecting : list Event := connected ++ [SocketDelivers 0 SocketClose].

(** Two sockets at a time: the user asks for a connection twice before the
    first socket opens, both sockets close, the user gives up. *)
Definition overlapping : list Event :=
  [SetCommMode WebSocket; Connect okEnv; Connect okEnv;
   SocketDelivers 0 SocketClose; SocketDelivers 1 SocketClose; Disconnect (Resolved ())].

(** ** Export, copy and the line-frequency meter *)

Inductive ExportFormat := Txt | Bin.

(** [logs.filter(l => l.type === 'rx' || l.type === 'tx').map(l => l.text).join('')] *)
Definition exportContent (logs : list LogEntry) : string :=
  String.concat "" (map text (filter (fun l => type l = rx \/ type l = tx) logs)).

(** What [exportLogs] hands to the browser: the [download] name of the
    anchor, the part and the type of the [Blob]. *)
Record Download := { download_name : string; blob_part : string; blob_type : string }.

(** [exportLogs(format)], with the reading of [new Date().getTime()];
    [None] when it returns without a download. *)
Definition exportLogs (format : ExportFormat) (now : Z) (logs : list LogEntry)
    : option Download :=
  if bool_decide (length logs = 0%nat) then None
  else
    let filename := "serial_log_" +:+ pretty now in
    let content := exportContent logs in
    Some {| download_name := filename +:+ match format with Txt => ".txt" | Bin => ".bin" end;
            blob_part := content; blob_type := "text/plain" |}.

(** [copyLogs]: what goes to the clipboard, [None] when it returns at once. *)
Definition copyLogs (logs : list LogEntry) : option string :=
  if bool_decide (length logs = 0%nat) then None else Some (exportContent logs).

(** The state of the line-frequency display: [lineFrequency] and
    [lastFrequencyUpdateRef.current]. *)
Record Meter := { lineFrequency : Z; lastFrequencyUpdateRef : Z }.

(** The callback of [setInterval(..., 1000)], with the reading of
    [Date.now()]. *)
Definition frequencyTimer (now : Z) (m : Meter) (a : App) : Meter * App :=
  let timeDiff := now - lastFrequencyUpdateRef m in
  if bool_decide (timeDiff >= 1000) then
    ({| lineFrequency := newlineCountRef (refs a); lastFrequencyUpdateRef := now |},
     onRefs (with_newlineCountRef 0) a)
  else (m, a).

(** ** components/QuickSendList.tsx *)

(** [QuickSendItem] of [types.ts]: [{id, label, content, mode}]. *)
Record QuickSendItem := {
  qs_id : string;
  qs_label : string;
  qs_content : string;
  qs_mode : DisplayMode
}.

(** [Partial<QuickSendItem>]: the fields an update carries. *)
Record QuickSendUpdates := {
  u_id : option string;
  u_label : option string;
  u_content : option string;
  u_mode : option DisplayMode
}.

(** [{ ...item, ...updates }] *)
Definition spread (item : QuickSendItem) (updates : QuickSendUpdates) : QuickSendItem :=
  {| qs_id := default (qs_id item) (u_id updates);
     qs_label := default (qs_label item) (u_label updates);
     qs_content := default (qs_content item) (u_content updates);
     qs_mode := default (qs_mode item) (u_mode updates) |}.

(** [addItem], [removeItem] and [updateItem]: the list each of them hands to
    [onUpdate]. [newId] is what [Math.random().toString(36).substr(2, 9)]
    gives. *)
Definition addItem (newId : string) (items : list QuickSendItem) : list QuickSendItem :=
  items ++ [{| qs_id := newId; qs_label := "新指令"; qs_content := ""; qs_mode := Text |}].

Definition removeItem (id : string) (items : list QuickSendItem) : list QuickSendItem :=
  filter (fun item => qs_id item <> id) items.

Definition updateItem (id : string) (updates : QuickSendUpdates) (items : list QuickSendItem)
    : list QuickSendItem :=
  map (fun item => if decide (qs_id item = id) then spread item updates else item) items.

(** ** Further notions *)

(** The events by which the host hands received data to the component. *)
Definition isDelivery (e : Event) : bool :=
  match e with
  | SerialDelivers _ _ | BleNotifies _ _ | SocketDelivers _ (SocketMessage _) => true
  | _ => false
  end.

(** The text a run of serial reads and Bluetooth notifications carries, in
    the order of arrival. *)
Fixpoint receivedText (es : list Event) : string :=
  match es with
  | [] => ""
  | SerialDelivers _ textChunk :: es | BleNotifies _ textChunk :: es =>
      textChunk +:+ receivedText es
  | _ :: es => receivedText es
  end.

Definition isStream (e : Event) : bool :=
  match e with
  | SerialDelivers _ _ | BleNotifies _ _ => true
  | _ => false
  end.

(** The bytes a write of a file transfer carries. *)
Definition transferPayload (e : Effect) : list byte :=
  match e with
  | SerialWrite FromTransfer _ chunk | BleWrite FromTransfer _ chunk
  | WsSendBinary FromTransfer _ chunk => chunk
  | _ => []
  end.

(** All the bytes the file transfers of an effect trace wrote, in order. *)
Definition transferred (es : list Effect) : list byte := flat_map transferPayload es.

(** The values [options.onProgress] was called with, in order. *)
Definition progressOf (es : list Effect) : list Z :=
  omap (fun e => match e with Progress p => Some p | _ => None end) es.

(** The frame the WebSocket branch of [processSendQueue] sends for an item:
    the text for an item sent in text mode, the bytes for one in hex mode. *)
Definition frameOf (ws : Socket) (item : SendQueueItem) : Effect :=
  match q_mode item with
  | Hex => WsSendBinary FromQueue ws (q_data item)
  | Text => WsSendText ws (q_text item)
  end.

(** The transport the drain loop of render [snap] writes to is not there. *)
Definition noTransport (snap : Render) (ans : HostAnswers) (a : App) : Prop :=
  match commMode snap with
  | Bluetooth => bluetoothCharacteristicRef (refs a) = None
  | WebSocket => wsRef (refs a) = None \/ wsOpen ans = false
  | Serial => port snap = None \/ portWritable ans = false
  end.

(** [n] rounds of a connection that keeps failing: the socket [ws] closes,
    the timer its [onclose] sets comes due, and the [connect] it runs makes
    the next socket. *)
Fixpoint retry (n : nat) (env : ConnectEnv) (ws : Socket) (a : App) : App :=
  match n with
  | O => a
  | S n =>
      retry n env (nextSocket (host a))
        (timerFire (nextTimer (host a)) env (socketEvent ws SocketClose a))
  end.

(** A paused component is a connected one. *)
Definition PausedConnected (a : App) : Prop :=
  isPaused (ui a) = true -> isConnected (ui a) = true.

(** Every host call of the [connect] of render [snap] succeeds, as far as
    [connect] itself reports the connection: the serial branch up to
    [open], the Bluetooth branch up to [startNotifications]. The WebSocket
    branch never does; there [onopen] reports it. *)
Definition connectSucceeds (snap : Render) (env : ConnectEnv) : Prop :=
  match commMode snap with
  | Serial =>
      hasSerial env = true
      /\ (exists p, requestPort env = Resolved p) /\ openPort env = Resolved ()
  | Bluetooth =>
      hasBluetooth env = true
      /\ bluetoothServiceUUID snap <> "" /\ bluetoothCharacteristicUUID snap <> ""
      /\ (exists device, requestDevice env = Resolved device /\ gatt device = true)
      /\ gattConnect env = Resolved () /\ getPrimaryService env = Resolved ()
      /\ (exists c, getCharacteristic env = Resolved c)
      /\ startNotifications env = Resolved ()
  | WebSocket => False
  end.

(** * Properties *)

(** ** Lists, sums and slices *)

Lemma foldl_add_acc {A} (f : A -> Z) (l : list A) (z : Z) :
  foldl (fun total x => total + f x) z l = z + foldl (fun total x => total + f x) 0 l.
Proof.
  revert z. induction l as [|x l IH]; intros z; simpl; [lia|].
  rewrite IH, (IH (0 + f x)). lia.
Qed.

Lemma calculateBufferSize_cons x l :
  calculateBufferSize (x :: l) = Z.of_nat (length (data x)) + calculateBufferSize l.
Proof. unfold calculateBufferSize. simpl. rewrite foldl_add_acc. lia. Qed.

Lemma calculateBufferSize_app l1 l2 :
  calculateBufferSize (l1 ++ l2) = calculateBufferSize l1 + calculateBufferSize l2.
Proof.
  induction l1 as [|x l1 IH]; simpl; [reflexivity|].
  rewrite !calculateBufferSize_cons, IH. lia.
Qed.

Lemma slice_from_last {A} (k : nat) (l : list A) :
  (0 < k <= length l)%nat ->
  slice_from (- Z.of_nat k) l = drop (length l - k) l.
Proof.
  intros Hk. unfold slice_from, slice, relIndex.
  repeat case_bool_decide; try lia.
  rewrite take_ge by (rewrite length_drop; lia).
  f_equal. lia.
Qed.

Lemma slice_chunk {A} (sent c : Z) (l : list A) :
  0 <= sent <= Z.of_nat (length l) -> 0 < c ->
  slice sent (sent + c) l = take (Z.to_nat c) (drop (Z.to_nat sent) l).
Proof.
  intros Hs Hc. unfold slice, relIndex.
  repeat case_bool_decide; try lia.
  rewrite (Z.min_l sent) by lia.
  set (rest := drop (Z.to_nat sent) l).
  assert (Hrest : length rest = (length l - Z.to_nat sent)%nat) by (apply length_drop).
  destruct (decide (sent + c <= Z.of_nat (length l))) as [Hle|Hgt].
  - rewrite Z.min_l by lia. f_equal. lia.
  - rewrite Z.min_r by lia. rewrite !take_ge; [reflexivity | lia | lia].
Qed.

(** ** The log buffer *)

Section LogBuffer.

Implicit Types (logs prev : list LogEntry) (st : Stamp) (ceiling : Z).

(** The eviction loop stops at the first suffix that fits or is down to
    ten entries. *)
Lemma evictOldest_spec ceiling logs :
  exists k : nat,
    evictOldest ceiling logs = drop k logs
    /\ (calculateBufferSize (drop k logs) <= ceiling \/ (length (drop k logs) <= 10)%nat)
    /\ forall j : nat, (j < k)%nat ->
         calculateBufferSize (drop j logs) > ceiling /\ (length (drop j logs) > 10)%nat.
Proof.
  induction logs as [|x logs IH].
  - exists 0%nat. simpl. split; [reflexivity|]. split; [right; lia | intros; lia].
  - cbn [evictOldest].
    destruct (bool_decide (calculateBufferSize (x :: logs) > ceiling)
              && bool_decide (Z.of_nat (length (x :: logs)) > 10)) eqn:Hcond.
    + apply andb_prop in Hcond as [H1 H2].
      apply bool_decide_eq_true in H1, H2.
      destruct IH as (k & Heq & Hstop & Hbefore).
      exists (S k). simpl. split; [exact Heq|]. split; [exact Hstop|].
      intros [|j] Hj; simpl.
      * split; [exact H1 | simpl in H2; lia].
      * apply Hbefore. lia.
    + exists 0%nat. simpl. split; [reflexivity|]. split; [|intros; lia].
      apply andb_false_iff in Hcond as [H|H]; apply bool_decide_eq_false in H.
      * left. lia.
      * right. simpl in H. lia.
Qed.

Lemma evictOldest_fits ceiling logs :
  calculateBufferSize logs <= ceiling -> evictOldest ceiling logs = logs.
Proof.
  intros H. destruct logs as [|x logs]; [reflexivity|].
  cbn [evictOldest]. rewrite bool_decide_false by lia. reflexivity.
Qed.

(** What [addLogUpdater] returns is a suffix of the old buffer with the new
    entry at its end. *)
Lemma addLogUpdater_suffix st ceiling ty d newText prev :
  exists k : nat,
    addLogUpdater st ceiling ty d newText prev
    = drop k (prev ++ [newLogEntry st ty d newText])
    /\ (k <= length prev)%nat.
Proof.
  unfold addLogUpdater. case_bool_decide as Hcount.
  - rewrite length_app in Hcount. simpl in Hcount.
    change (-500) with (- Z.of_nat 500).
    rewrite slice_from_last by (rewrite length_app; simpl; lia).
    eexists. split; [reflexivity|]. rewrite length_app. simpl. lia.
  - case_bool_decide as Hsize.
    + destruct (evictOldest_spec ceiling (prev ++ [newLogEntry st ty d newText]))
        as (k & Heq & _ & Hbefore).
      exists k. split; [exact Heq|].
      destruct (decide (k <= length prev)%nat) as [|Hk]; [assumption|].
      destruct (Hbefore (length prev)) as [_ Hlen]; [lia|].
      rewrite length_drop, length_app in Hlen. simpl in Hlen. lia.
    + exists 0%nat. split; [reflexivity | lia].
Qed.

End LogBuffer.

(** ** [addLog] on the component *)

Section AddLog.

Implicit Types (a : App) (ty : LogType) (d : list byte) (newText : string).

Lemma addLog_logs ty d newText a :
  logs (ui (addLog ty d newText a))
  = addLogUpdater (stamps (host a) (tick (host a))) (maxBufferSizeRef (refs a))
      ty d newText (logs (ui a)).
Proof. destruct ty; reflexivity. Qed.

Lemma addLog_host ty d newText a :
  host (addLog ty d newText a) = with_tick (S (tick (host a))) (host a).
Proof. destruct ty; reflexivity. Qed.

Lemma addLog_refs ty d newText a :
  refs (addLog ty d newText a)
  = match ty with
    | rx => with_newlineCountRef (newlineCountRef (refs a) + countNewlines newText) (refs a)
    | _ => refs a
    end.
Proof. destruct ty; reflexivity. Qed.

Lemma addLog_suffix ty d newText a :
  exists k : nat,
    logs (ui (addLog ty d newText a)) = drop k (updatedLogs ty d newText a)
    /\ (k <= length (logs (ui a)))%nat.
Proof. rewrite addLog_logs. apply addLogUpdater_suffix. Qed.

(** The newest entry is never evicted. *)
Lemma addLog_last ty d newText a :
  last (logs (ui (addLog ty d newText a)))
  = Some (newLogEntry (stamps (host a) (tick (host a))) ty d newText).
Proof.
  destruct (addLog_suffix ty d newText a) as (k & -> & Hk).
  unfold updatedLogs. rewrite drop_app_le by exact Hk. apply last_snoc.
Qed.

Lemma LogsOk_addLog ty d newText a :
  (match ty with rx | tx => True | info | error => d = [] end) ->
  LogsOk a -> LogsOk (addLog ty d newText a).
Proof.
  intros Hd Hok. unfold LogsOk.
  destruct (addLog_suffix ty d newText a) as (k & -> & _).
  apply Forall_drop, Forall_app. split; [exact Hok|].
  constructor; [|constructor]. split; [reflexivity|].
  unfold isTraffic. simpl. destruct ty; try discriminate; intros _; exact Hd.
Qed.

End AddLog.

(** C1 (as amended). After any append the entry count is at most 1000, and
    the byte footprint is at most the ceiling unless the append tripped the
    count trim (the buffer already held 1000 entries) or the buffer is down
    to ten entries or fewer. *)
Theorem addLog_bounds (ty : LogType) (d : list byte) (newText : string) (a : App) :
  (length (logs (ui (addLog ty d newText a))) <= 1000)%nat
  /\ ((1000 <= length (logs (ui a)))%nat
      \/ calculateBufferSize (logs (ui (addLog ty d newText a))) <= maxBufferSizeRef (refs a)
      \/ (length (logs (ui (addLog ty d newText a))) <= 10)%nat).
Proof.
  rewrite addLog_logs. unfold addLogUpdater.
  set (upd := logs (ui a) ++ [newLogEntry _ ty d newText]).
  assert (Hlen : length upd = S (length (logs (ui a)))).
  { unfold upd. rewrite length_app. simpl. lia. }
  case_bool_decide as Hcount.
  - change (-500) with (- Z.of_nat 500).
    rewrite slice_from_last by lia. rewrite length_drop.
    split; [lia | left; lia].
  - case_bool_decide as Hsize.
    + destruct (evictOldest_spec (maxBufferSizeRef (refs a)) upd) as (k & -> & Hstop & _).
      rewrite length_drop in *. split; [lia|]. right. exact Hstop.
    + split; [lia|]. right. left. lia.
Qed.

(** C1, as stated, fails: with the default ceiling of 100 KB, one received
    chunk of 102401 bytes leaves a buffer whose footprint is above the
    ceiling. *)
Lemma addLog_exceeds_ceiling :
  maxBufferSizeRef (refs (initialApp supply0)) = 102400
  /\ ~ calculateBufferSize
         (logs (ui (addLog rx (repeat x00 (Z.to_nat 102401)) "" (initialApp supply0))))
       <= maxBufferSizeRef (refs (initialApp supply0)).
Proof.
  split; [reflexivity|]. intros H. vm_compute in H. apply H. reflexivity.
Qed.

(** C5. An append that pushes the entry count above 1000 leaves exactly the
    500 most recent entries, the new one being the last, whatever the byte
    ceiling is. *)
Theorem addLog_count_trim (ty : LogType) (d : list byte) (newText : string) (a : App) :
  (length (updatedLogs ty d newText a) > 1000)%nat ->
  logs (ui (addLog ty d newText a))
  = drop (length (updatedLogs ty d newText a) - 500) (updatedLogs ty d newText a)
  /\ length (logs (ui (addLog ty d newText a))) = 500%nat.
Proof.
  intros Hcount. rewrite addLog_logs. unfold addLogUpdater.
  fold (updatedLogs ty d newText a).
  rewrite bool_decide_true by lia.
  change (-500) with (- Z.of_nat 500).
  rewrite slice_from_last by lia.
  split; [reflexivity|]. rewrite length_drop. lia.
Qed.

(** C6. An append that leaves the count at 1000 or below and the footprint
    above the ceiling drops entries from the oldest end, one at a time, and
    stops at the first buffer that fits or has only ten entries left. *)
Theorem addLog_byte_eviction (ty : LogType) (d : list byte) (newText : string) (a : App) :
  (length (updatedLogs ty d newText a) <= 1000)%nat ->
  calculateBufferSize (updatedLogs ty d newText a) > maxBufferSizeRef (refs a) ->
  exists k : nat,
    logs (ui (addLog ty d newText a)) = drop k (updatedLogs ty d newText a)
    /\ (calculateBufferSize (drop k (updatedLogs ty d newText a)) <= maxBufferSizeRef (refs a)
        \/ (length (drop k (updatedLogs ty d newText a)) <= 10)%nat)
    /\ forall j : nat, (j < k)%nat ->
         calculateBufferSize (drop j (updatedLogs ty d newText a)) > maxBufferSizeRef (refs a)
         /\ (length (drop j (updatedLogs ty d newText a)) > 10)%nat.
Proof.
  intros Hcount Hsize. rewrite addLog_logs. unfold addLogUpdater.
  fold (updatedLogs ty d newText a).
  rewrite bool_decide_false by lia.
  rewrite bool_decide_true by exact Hsize.
  apply evictOldest_spec.
Qed.

Lemma addLog_count_trim_witness :
  length (logs (ui (addLog rx [x01] "1" (appWithLogs 1000 102400)))) = 500%nat.
Proof.
  refine (proj2 (addLog_count_trim rx [x01] "1" (appWithLogs 1000 102400) _)).
  vm_compute. lia.
Defined.

Lemma addLog_byte_eviction_witness :
  exists k : nat,
    logs (ui (addLog rx [x01] "1" (appWithLogs 12 3)))
    = drop k (updatedLogs rx [x01] "1" (appWithLogs 12 3))
    /\ (length (drop k (updatedLogs rx [x01] "1" (appWithLogs 12 3))) <= 10)%nat.
Proof.
  destruct (addLog_byte_eviction rx [x01] "1" (appWithLogs 12 3)) as (k & Heq & Hstop & _).
  - vm_compute. lia.
  - vm_compute. reflexivity.
  - exists k. split; [exact Heq|].
    destruct Hstop as [Hfit|Hten]; [|exact Hten].
    exfalso. revert Hfit. rewrite <- Heq. vm_compute. intros H. apply H. reflexivity.
Defined.

(** ** Every handler keeps the log entries sound *)

Section LogsSound.

Implicit Types (a : App) (snap : Render).

Create HintDb logsok.
Hint Constants Opaque : logsok.

Lemma LogsOk_frame a a' : logs (ui a') = logs (ui a) -> LogsOk a -> LogsOk a'.
Proof. unfold LogsOk. intros ->. trivial. Qed.

Lemma LogsOk_onRefs f a : LogsOk a -> LogsOk (onRefs f a).
Proof. apply LogsOk_frame. reflexivity. Qed.
Lemma LogsOk_onHost f a : LogsOk a -> LogsOk (onHost f a).
Proof. apply LogsOk_frame. reflexivity. Qed.
Lemma LogsOk_perform e a : LogsOk a -> LogsOk (perform e a).
Proof. apply LogsOk_frame. reflexivity. Qed.
Lemma LogsOk_suspend t a : LogsOk a -> LogsOk (suspend t a).
Proof. apply LogsOk_frame. reflexivity. Qed.
Lemma LogsOk_unpark i a : LogsOk a -> LogsOk (unpark i a).
Proof. apply LogsOk_frame. reflexivity. Qed.
Lemma LogsOk_clearTimeout t a : LogsOk a -> LogsOk (clearTimeout t a).
Proof. apply LogsOk_frame. reflexivity. Qed.
Lemma LogsOk_setTimeout cb ms a : LogsOk a -> LogsOk (setTimeout cb ms a).2.
Proof. apply LogsOk_frame. reflexivity. Qed.
Lemma LogsOk_setPort v a : LogsOk a -> LogsOk (setPort v a).
Proof. apply LogsOk_frame. reflexivity. Qed.
Lemma LogsOk_setIsConnected v a : LogsOk a -> LogsOk (setIsConnected v a).
Proof. apply LogsOk_frame. reflexivity. Qed.
Lemma LogsOk_setIsReconnecting v a : LogsOk a -> LogsOk (setIsReconnecting v a).
Proof. apply LogsOk_frame. reflexivity. Qed.
Lemma LogsOk_setIsPaused v a : LogsOk a -> LogsOk (setIsPaused v a).
Proof. apply LogsOk_frame. reflexivity. Qed.
Lemma LogsOk_setMaxBufferSize v a : LogsOk a -> LogsOk (setMaxBufferSize v a).
Proof. apply LogsOk_frame. reflexivity. Qed.
Lemma LogsOk_clearLogs a : LogsOk (clearLogs a).
Proof. constructor. Qed.

Lemma LogsOk_addLog_info newText a : LogsOk a -> LogsOk (addLog info emptyBytes newText a).
Proof. apply LogsOk_addLog. reflexivity. Qed.
Lemma LogsOk_addLog_error newText a : LogsOk a -> LogsOk (addLog error emptyBytes newText a).
Proof. apply LogsOk_addLog. reflexivity. Qed.
Lemma LogsOk_addLog_rx d newText a : LogsOk a -> LogsOk (addLog rx d newText a).
Proof. apply LogsOk_addLog. exact I. Qed.
Lemma LogsOk_addLog_tx d newText a : LogsOk a -> LogsOk (addLog tx d newText a).
Proof. apply LogsOk_addLog. exact I. Qed.

Hint Resolve LogsOk_onRefs LogsOk_onHost LogsOk_perform LogsOk_suspend LogsOk_unpark
  LogsOk_clearTimeout LogsOk_setPort LogsOk_setIsConnected
  LogsOk_setIsReconnecting LogsOk_setIsPaused LogsOk_setMaxBufferSize LogsOk_clearLogs
  LogsOk_addLog_info LogsOk_addLog_error LogsOk_addLog_rx LogsOk_addLog_tx : logsok.

(** Split on every test and [match] of an unfolded handler, then chain the
    lemmas above. *)
Ltac handler_logsok :=
  cbv zeta; repeat case_match; subst; simplify_eq; eauto 40 with logsok.

Lemma LogsOk_togglePause snap a : LogsOk a -> LogsOk (togglePause snap a).
Proof. intros. unfold togglePause. handler_logsok. Qed.

Lemma LogsOk_disconnect snap r a : LogsOk a -> LogsOk (disconnect snap r a).
Proof. intros. unfold disconnect. handler_logsok. Qed.

Lemma LogsOk_connect snap env a : LogsOk a -> LogsOk (connect snap env a).
Proof. intros. unfold connect, awaiting, readLoop. handler_logsok. Qed.

Lemma LogsOk_ws_onclose snap a : LogsOk a -> LogsOk (ws_onclose snap a).
Proof.
  intros. unfold ws_onclose. cbv zeta. case_match.
  - apply LogsOk_onRefs, LogsOk_setTimeout. eauto 20 with logsok.
  - eauto 20 with logsok.
Qed.

Lemma LogsOk_socketEvent ws e a : LogsOk a -> LogsOk (socketEvent ws e a).
Proof.
  intros. unfold socketEvent. destruct (sockets (host a) !! ws); [|assumption].
  destruct e.
  - unfold ws_onopen. handler_logsok.
  - unfold ws_onmessage. handler_logsok.
  - unfold ws_onerror. handler_logsok.
  - apply LogsOk_ws_onclose. eauto with logsok.
Qed.

Lemma LogsOk_drainLoop snap ans queue a : LogsOk a -> LogsOk (drainLoop snap ans queue a).
Proof.
  revert a. induction queue as [|item rest IH]; intros a Hok; simpl.
  - eauto with logsok.
  - repeat case_match; try apply IH; eauto 20 with logsok.
Qed.

Hint Resolve LogsOk_togglePause LogsOk_disconnect LogsOk_connect LogsOk_socketEvent
  LogsOk_drainLoop : logsok.

Lemma LogsOk_sendData conv snap input mode ans a :
  LogsOk a -> LogsOk (sendData conv snap input mode ans a).
Proof. intros. unfold sendData, processSendQueue. handler_logsok. Qed.

Lemma LogsOk_fileEnd snap a : LogsOk a -> LogsOk (fileEnd snap a).
Proof. intros. unfold fileEnd. handler_logsok. Qed.

Lemma LogsOk_fileCatch err a : LogsOk a -> LogsOk (fileCatch err a).
Proof. intros. unfold fileCatch. handler_logsok. Qed.

Hint Resolve LogsOk_sendData LogsOk_fileEnd LogsOk_fileCatch : logsok.

Lemma LogsOk_fileAfterWrite loop job chunk a a' :
  (forall job a a', LogsOk a -> loop job a = Some a' -> LogsOk a') ->
  LogsOk a -> fileAfterWrite loop job chunk a = Some a' -> LogsOk a'.
Proof.
  intros Hloop Hok. unfold fileAfterWrite. cbv zeta. case_match.
  - intros [= <-]. eauto 20 with logsok.
  - apply Hloop. eauto with logsok.
Qed.

Lemma LogsOk_fileLoop fuel job a a' :
  LogsOk a -> fileLoop fuel job a = Some a' -> LogsOk a'.
Proof.
  revert job a a'. induction fuel as [|fuel IH]; intros job a a' Hok; simpl; [discriminate|].
  repeat case_match; try (intros [= <-]; eauto 20 with logsok).
  apply LogsOk_fileAfterWrite; eauto with logsok.
Qed.

Lemma LogsOk_handleFileSend snap file options ans fuel a a' :
  LogsOk a -> handleFileSend snap file options ans fuel a = Some a' -> LogsOk a'.
Proof.
  intros Hok. unfold handleFileSend. cbv zeta.
  repeat case_match; try (intros [= <-]; eauto 20 with logsok);
    apply LogsOk_fileLoop; eauto 20 with logsok.
Qed.

Lemma LogsOk_resume i result ans fuel a a' :
  LogsOk a -> resume i result ans fuel a = Some a' -> LogsOk a'.
Proof.
  intros Hok. unfold resume. case_match; [|intros [= <-]; assumption].
  unfold resumeTask. repeat case_match; try (intros [= <-]; eauto 20 with logsok).
  - apply LogsOk_fileAfterWrite; [apply LogsOk_fileLoop | eauto with logsok].
  - apply LogsOk_fileLoop. eauto with logsok.
Qed.

Lemma LogsOk_step e a a' : LogsOk a -> step e a = Some a' -> LogsOk a'.
Proof.
  intros Hok. destruct e; cbn [step]; try (intros [= <-]).
  - eauto with logsok.
  - eauto with logsok.
  - eauto with logsok.
  - eauto with logsok.
  - apply (LogsOk_frame a); [reflexivity | assumption].
  - eauto with logsok.
  - apply (LogsOk_frame a); [reflexivity | assumption].
  - apply (LogsOk_frame a); [reflexivity | assumption].
  - apply (LogsOk_frame a); [reflexivity | assumption].
  - eauto with logsok.
  - apply LogsOk_handleFileSend. assumption.
  - apply LogsOk_resume. assumption.
  - unfold timerFire. repeat case_match; eauto 20 with logsok.
  - eauto with logsok.
  - unfold serialData. repeat case_match; eauto 20 with logsok.
  - unfold characteristicvaluechanged. repeat case_match; eauto 20 with logsok.
  - case_match; intros [= <-]; [|assumption].
    unfold gattserverdisconnected. repeat case_match; eauto 20 with logsok.
Qed.

Lemma LogsOk_run es a a' : LogsOk a -> run es a = Some a' -> LogsOk a'.
Proof.
  revert a. induction es as [|e es IH]; intros a Hok; simpl.
  - intros [= <-]. assumption.
  - destruct (step e a) as [a1|] eqn:Hstep; [|discriminate].
    apply IH. eapply LogsOk_step; eassumption.
Qed.

End LogsSound.

Lemma totalBytes_cons x logs :
  totalBytes (x :: logs) = (if isTraffic x then byteCount x else 0) + totalBytes logs.
Proof.
  unfold totalBytes. rewrite filter_cons.
  destruct (isTraffic x); simpl.
  - rewrite foldl_add_acc. lia.
  - lia.
Qed.

Lemma sound_footprint logs :
  Forall entryOk logs -> calculateBufferSize logs = totalBytes logs.
Proof.
  induction 1 as [|x logs [Hcount Hempty] _ IH]; [reflexivity|].
  rewrite calculateBufferSize_cons, totalBytes_cons, IH.
  destruct (isTraffic x); [lia|]. rewrite Hempty by reflexivity. simpl. lia.
Qed.

Lemma Reachable_LogsOk a : Reachable a -> LogsOk a.
Proof.
  intros (supply & es & Hrun). eapply LogsOk_run; [|exact Hrun]. constructor.
Qed.

(** C10. In every reachable state each [info] and [error] entry of the
    buffer has an empty payload and byte count 0, so the footprint summed
    over all entries is the sum over the received and sent ones. *)
Theorem reachable_footprint (a : App) :
  Reachable a ->
  Forall (fun l => type l = info \/ type l = error -> data l = [] /\ byteCount l = 0)
         (logs (ui a))
  /\ calculateBufferSize (logs (ui a)) = totalBytes (logs (ui a)).
Proof.
  intros Hreach. apply Reachable_LogsOk in Hreach. split.
  - eapply Forall_impl; [exact Hreach|].
    intros l [Hcount Hempty] Hty.
    assert (Hd : data l = []).
    { apply Hempty. unfold isTraffic. destruct Hty as [-> | ->]; reflexivity. }
    split; [exact Hd|]. rewrite Hcount, Hd. reflexivity.
  - apply sound_footprint. exact Hreach.
Qed.

Lemma reachable_footprint_witness :
  calculateBufferSize
    (logs (ui (after [Disconnect (Resolved ()); SerialDelivers [x01; x02] "ab"])))
  = totalBytes (logs (ui (after [Disconnect (Resolved ()); SerialDelivers [x01; x02] "ab"]))).
Proof.
  refine (proj2 (reachable_footprint _ _)).
  exists supply0, [Disconnect (Resolved ()); SerialDelivers [x01; x02] "ab"].
  reflexivity.
Defined.

(** ** disconnect and connect *)

(** C3 (as amended). Every invocation of [disconnect] whose
    [reader.cancel()] resolves appends one "closed" [info] entry, whatever
    the state; invoked a second time in a row it appends a second one and
    changes nothing else. *)
Theorem disconnect_twice (a : App) (r' : Outcome ()) :
  last (logs (ui (disconnect (ui a) (Resolved ()) a)))
  = Some (newLogEntry (stamps (host a) (tick (host a))) info emptyBytes
            (closedText (commMode (ui a))))
  /\ disconnect (ui (disconnect (ui a) (Resolved ()) a)) r' (disconnect (ui a) (Resolved ()) a)
     = addLog info emptyBytes (closedText (commMode (ui a)))
         (disconnect (ui a) (Resolved ()) a).
Proof.
  destruct a as [u r h]. destruct u, r. unfold disconnect. cbn [ui commMode].
  destruct commMode0; cbv zeta; cbn [refs port].
  - (* Serial *)
    destruct readerRef0, port0; cbn [onRefs with_refs refs with_keepReadingRef readerRef];
      (split; [rewrite addLog_last; reflexivity | reflexivity]).
  - (* WebSocket *)
    destruct reconnectTimerRef0, wsRef0;
      (split; [rewrite addLog_last; reflexivity | reflexivity]).
  - (* Bluetooth *)
    destruct bluetoothDeviceRef0 as [[name [|]]|];
      (split; [rewrite addLog_last; reflexivity | reflexivity]).
Qed.

(** C3, as stated, fails: on the mounted component, which is disconnected,
    [disconnect] is no no-op but logs a "closed" entry, and two invocations
    in a row log two; so do two invocations on a connected WebSocket. *)
Lemma disconnect_logs_each_time :
  isConnected (ui (after [])) = false
  /\ countClosed (logs (ui (after []))) = 0%nat
  /\ countClosed (logs (ui (after [Disconnect (Resolved ())]))) = 1%nat
  /\ countClosed (logs (ui (after [Disconnect (Resolved ()); Disconnect (Resolved ())]))) = 2%nat
  /\ isConnected (ui (after connected)) = true
  /\ countClosed (logs (ui (after (connected
                                    ++ [Disconnect (Resolved ()); Disconnect (Resolved ())]))))
     = 2%nat.
Proof. repeat split; vm_compute; reflexivity. Qed.

(** C4 (as amended). A dismissed device picker is caught by the [catch] of
    [connect] like every other failure: [connect] does nothing but log one
    [error] entry with the message of the rejection. *)
Theorem connect_picker_dismissed (snap : Render) (env : ConnectEnv) (err : JsError) (a : App) :
  pickerDismissed snap env err ->
  connect snap env a = addLog error emptyBytes (connectFailureText (commMode snap) err) a
  /\ last (logs (ui (connect snap env a)))
     = Some (newLogEntry (stamps (host a) (tick (host a))) error emptyBytes
               (connectFailureText (commMode snap) err)).
Proof.
  intros Hdismissed.
  assert (Heq : connect snap env a
                = addLog error emptyBytes (connectFailureText (commMode snap) err) a).
  { unfold pickerDismissed in Hdismissed. unfold connect.
    destruct (commMode snap).
    - destruct Hdismissed as [-> ->]. reflexivity.
    - destruct Hdismissed.
    - destruct Hdismissed as (-> & Hs & Hc & ->).
      apply String.eqb_neq in Hs, Hc. rewrite Hs, Hc. reflexivity. }
  split; [exact Heq|]. rewrite Heq. apply addLog_last.
Qed.

Lemma connect_picker_dismissed_witness :
  last (logs (ui (connect (ui (initialApp supply0)) dismissingEnv (initialApp supply0))))
  = Some (newLogEntry (supply0 0) error emptyBytes (connectFailureText Serial noPortSelected)).
Proof.
  refine (proj2 (connect_picker_dismissed (ui (initialApp supply0)) dismissingEnv
                   noPortSelected (initialApp supply0) _)).
  split; reflexivity.
Defined.

(** C4, as stated, fails: the user dismisses the serial chooser of the
    mounted component and the buffer holds one [error] entry. *)
Lemma dismissed_picker_logs_error :
  requestPort dismissingEnv = Rejected noPortSelected
  /\ countErrors (logs (ui (after []))) = 0%nat
  /\ countErrors (logs (ui (after [Connect dismissingEnv]))) = 1%nat
  /\ map (fun l => (type l, text l)) (logs (ui (after [Connect dismissingEnv])))
     = [(error, connectFailureText Serial noPortSelected)].
Proof. repeat split; vm_compute; reflexivity. Qed.

(** ** The file transfer *)

Lemma chunkCount_lt (total c : Z) (i : nat) :
  0 < c -> 0 <= total -> (i < chunkCount total c)%nat <-> Z.of_nat i * c < total.
Proof.
  intros Hc Htotal. unfold chunkCount.
  assert (Hq := Z.div_mod (total + c - 1) c ltac:(lia)).
  assert (Hr := Z.mod_pos_bound (total + c - 1) c Hc).
  assert (0 <= (total + c - 1) / c) by (apply Z.div_pos; lia).
  split; intros H'; [|apply Nat2Z.inj_lt; rewrite Z2Nat.id by lia]; nia.
Qed.

Lemma chunk_length {A} (c : Z) (i : nat) (l : list A) :
  0 < c -> Z.of_nat i * c < Z.of_nat (length l) ->
  Z.of_nat i * c + Z.of_nat (length (take (Z.to_nat c) (drop (i * Z.to_nat c) l)))
  = Z.min ((Z.of_nat i + 1) * c) (Z.of_nat (length l)).
Proof.
  intros Hc Hi. rewrite length_take, length_drop.
  assert (Z.of_nat (i * Z.to_nat c) = Z.of_nat i * c) by (rewrite Nat2Z.inj_mul; lia).
  lia.
Qed.

Section Transfer.

Variables (snap : Render) (writer : option SerialPort) (d : list byte)
          (options : FileOptions) (ans : HostAnswers) (write : list byte -> Effect).

Let total : Z := Z.of_nat (length d).
Let c : Z := chunkSizeOf (commMode snap) options.
Let ms : Z := throttleMs options.
Let n : nat := chunkCount total c.

Hypothesis running : isPaused snap = false.
Hypothesis positive_chunk : 0 < c.

(** The job with the cursor after [i] chunks. *)
Let jobAt (i : nat) : FileJob :=
  {| job_snap := snap; job_writer := writer; job_data := d; job_options := options;
     job_sent := Z.min (Z.of_nat i * c) total |}.

(** A state at the head of the loop: nothing parked, the transport there. *)
Let atHead (x : App) : Prop :=
  suspended (host x) = [] /\ writeOf snap writer x = Some write.

Lemma atHead_perform e x : atHead x -> atHead (perform e x).
Proof. intros [Hs Hw]. split; assumption. Qed.

Lemma settle_one rounds fuel t x :
  suspended (host x) = [t] ->
  settle (S rounds) ans fuel x
  = match resumeTask t (Resolved ()) ans fuel (unpark 0 x) with
    | Some x' => settle rounds ans fuel x'
    | None => None
    end.
Proof. intros Hs. simpl. unfold resume. rewrite Hs. reflexivity. Qed.

Lemma fileLoop_done fuel x :
  fileLoop (S fuel) (jobAt n) x = Some (addLog info emptyBytes "文件发送完毕" x).
Proof.
  simpl. rewrite bool_decide_false.
  - unfold fileEnd. rewrite running. reflexivity.
  - fold total. assert (~ (n < chunkCount total c)%nat) by (unfold n; lia).
    rewrite chunkCount_lt in H by lia. lia.
Qed.

(** The head of the loop with chunk [i] to go: the write of that chunk. *)
Lemma fileLoop_chunk fuel i x :
  (i < n)%nat -> atHead x ->
  fileLoop (S fuel) (jobAt i) x
  = let chunk := take (Z.to_nat c) (drop (i * Z.to_nat c) d) in
    match commMode snap with
    | WebSocket => fileAfterWrite (fileLoop fuel) (jobAt i) chunk (perform (write chunk) x)
    | _ => Some (suspend (FileAwaitingWrite (jobAt i) chunk) (perform (write chunk) x))
    end.
Proof.
  intros Hi [_ Hw]. apply chunkCount_lt in Hi; [|assumption|lia].
  fold total in Hi. 
  assert (Hsent : Z.min (Z.of_nat i * c) total = Z.of_nat i * c) by lia.
  simpl. fold total c. rewrite Hsent. rewrite bool_decide_true by lia. rewrite running.
  rewrite slice_chunk by (fold total; lia).
  replace (Z.to_nat (Z.of_nat i * c)) with (i * Z.to_nat c)%nat
    by (rewrite Z2Nat.inj_mul, Nat2Z.id by lia; reflexivity).
  unfold writeOf in Hw. destruct (commMode snap); simpl.
  - destruct writer; simplify_eq/=. reflexivity.
  - destruct (wsRef (refs x)); simplify_eq/=. reflexivity.
  - destruct (bluetoothCharacteristicRef (refs x)); simplify_eq/=. reflexivity.
Qed.

Lemma fileAfterWrite_chunk loop i y :
  (i < n)%nat ->
  fileAfterWrite loop (jobAt i) (take (Z.to_nat c) (drop (i * Z.to_nat c) d)) y
  = let y' := perform (Progress (roundPercent (Z.min ((Z.of_nat i + 1) * c) total) total)) y in
    if bool_decide (ms > 0) && bool_decide (S i < n)%nat
    then Some (suspend (FileSleeping (jobAt (S i))) (perform (Sleep ms) y'))
    else loop (jobAt (S i)) y'.
Proof.
  intros Hi. pose proof Hi as Hlt. apply chunkCount_lt in Hlt; [|assumption|lia].
  fold total in Hlt.
  unfold fileAfterWrite. cbn [jobAt job_data job_sent job_options with_job_sent job_snap job_writer].
  fold total ms.
  rewrite (Z.min_l (Z.of_nat i * c)) by lia.
  rewrite chunk_length by (fold total; lia). fold total.
  assert (Hjob : with_job_sent (Z.min ((Z.of_nat i + 1) * c) total) (jobAt i) = jobAt (S i)).
  { unfold jobAt, with_job_sent. cbn. do 2 f_equal. lia. }
  rewrite Hjob.
  assert (Hcond : bool_decide (Z.min ((Z.of_nat i + 1) * c) total < total)
                  = bool_decide (S i < n)%nat).
  { apply bool_decide_ext. unfold n. rewrite chunkCount_lt by lia. lia. }
  rewrite Hcond. reflexivity.
Qed.

Lemma settle_idle rounds fuel x : suspended (host x) = [] -> settle rounds ans fuel x = Some x.
Proof. intros Hs. destruct rounds; simpl; rewrite Hs; reflexivity. Qed.

Lemma atHead_unpark t x : atHead x -> atHead (unpark 0 (suspend t x)).
Proof.
  intros [Hs Hw]. split; [|exact Hw].
  cbn. rewrite Hs. reflexivity.
Qed.

(** What is left of the run from the head of the loop, with [k] chunks to
    go after [i]. *)
Let fromHead (i k : nat) : Prop :=
  forall x fuelLoop fuel rounds,
    (k < fuelLoop)%nat -> (k < fuel)%nat -> (2 * k <= rounds)%nat -> atHead x ->
    exists a',
      match fileLoop fuelLoop (jobAt i) x with
      | Some x' => settle rounds ans fuel x'
      | None => None
      end = Some a'
      /\ effects (host a') = effects (host x) ++ flat_map (chunkEffects write c ms d) (seq i k)
      /\ suspended (host a') = [].

(** The same from the point where the write of chunk [i] is through. *)
Lemma afterWrite_run i k y loopFuel fuel rounds :
  (i < n)%nat -> fromHead (S i) k ->
  (k < loopFuel)%nat -> (k < fuel)%nat -> (2 * k + 1 <= rounds)%nat -> atHead y ->
  (S i + k = n)%nat ->
  exists a',
    match fileAfterWrite (fileLoop loopFuel) (jobAt i)
            (take (Z.to_nat c) (drop (i * Z.to_nat c) d)) y with
    | Some x' => settle rounds ans fuel x'
    | None => None
    end = Some a'
    /\ effects (host a')
       = effects (host y) ++ tail (chunkEffects write c ms d i)
         ++ flat_map (chunkEffects write c ms d) (seq (S i) k)
    /\ suspended (host a') = [].
Proof.
  intros Hi IH HloopFuel Hfuel Hrounds Hy Hn.
  rewrite fileAfterWrite_chunk by assumption. cbv zeta.
  unfold chunkEffects. fold total n. cbn [tail app].
  set (p := Progress _).
  destruct (bool_decide (ms > 0) && bool_decide (S i < n)%nat) eqn:Hsleep.
  - destruct rounds as [|rounds]; [lia|].
    rewrite (settle_one rounds fuel (FileSleeping (jobAt (S i))))
      by (cbn; rewrite (proj1 Hy); reflexivity).
    cbn [resumeTask].
    destruct (IH (unpark 0 (suspend (FileSleeping (jobAt (S i))) (perform (Sleep ms) (perform p y))))
                fuel fuel rounds ltac:(lia) ltac:(lia) ltac:(lia)
                (atHead_unpark _ _ (atHead_perform _ _ (atHead_perform _ _ Hy))))
      as (a' & Hrun & Heff & Hsusp).
    exists a'. split; [exact Hrun|]. split; [|exact Hsusp].
    rewrite Heff. cbn. rewrite <- !app_assoc. reflexivity.
  - destruct (IH (perform p y) loopFuel fuel rounds ltac:(lia) ltac:(lia) ltac:(lia)
                (atHead_perform _ _ Hy))
      as (a' & Hrun & Heff & Hsusp).
    exists a'. split; [exact Hrun|]. split; [|exact Hsusp].
    rewrite Heff. cbn. rewrite <- !app_assoc. reflexivity.
Qed.

Lemma fromHead_all k : forall i, (i + k = n)%nat -> fromHead i k.
Proof.
  induction k as [|k IH]; intros i Hn x fuelLoop fuel rounds HfuelLoop Hfuel Hrounds Hx.
  - assert (i = n) as -> by lia.
    destruct fuelLoop as [|fuelLoop]; [lia|].
    rewrite fileLoop_done. eexists. split; [apply settle_idle|split].
    + rewrite addLog_host. exact (proj1 Hx).
    + rewrite addLog_host. cbn. rewrite app_nil_r. reflexivity.
    + rewrite addLog_host. exact (proj1 Hx).
  - assert (Hi : (i < n)%nat) by lia.
    destruct fuelLoop as [|fuelLoop]; [lia|].
    rewrite fileLoop_chunk by assumption. cbv zeta.
    set (chunk := take (Z.to_nat c) (drop (i * Z.to_nat c) d)).
    assert (Htrace : flat_map (chunkEffects write c ms d) (seq i (S k))
                     = (write chunk :: tail (chunkEffects write c ms d i))
                       ++ flat_map (chunkEffects write c ms d) (seq (S i) k)) by reflexivity.
    rewrite Htrace.
    assert (Hsync :
      exists a',
        match fileAfterWrite (fileLoop fuelLoop) (jobAt i) chunk (perform (write chunk) x) with
        | Some x' => settle rounds ans fuel x'
        | None => None
        end = Some a'
        /\ effects (host a')
           = effects (host x) ++ (write chunk :: tail (chunkEffects write c ms d i))
             ++ flat_map (chunkEffects write c ms d) (seq (S i) k)
        /\ suspended (host a') = []).
    { destruct (afterWrite_run i k (perform (write chunk) x) fuelLoop fuel rounds Hi
                  (IH (S i) ltac:(lia)) ltac:(lia) ltac:(lia) ltac:(lia)
                  (atHead_perform _ _ Hx) ltac:(lia))
        as (a' & Hrun & Heff & Hsusp).
      exists a'. split; [exact Hrun|]. split; [|exact Hsusp].
      rewrite Heff. cbn. rewrite <- !app_assoc. reflexivity. }
    assert (Hasync :
      exists a',
        settle rounds ans fuel
          (suspend (FileAwaitingWrite (jobAt i) chunk) (perform (write chunk) x)) = Some a'
        /\ effects (host a')
           = effects (host x) ++ (write chunk :: tail (chunkEffects write c ms d i))
             ++ flat_map (chunkEffects write c ms d) (seq (S i) k)
        /\ suspended (host a') = []).
    { destruct rounds as [|rounds]; [lia|].
      rewrite (settle_one rounds fuel (FileAwaitingWrite (jobAt i) chunk))
        by (cbn; rewrite (proj1 Hx); reflexivity).
      cbn [resumeTask].
      destruct (afterWrite_run i k
                  (unpark 0 (suspend (FileAwaitingWrite (jobAt i) chunk) (perform (write chunk) x)))
                  fuel fuel rounds Hi (IH (S i) ltac:(lia)) ltac:(lia) ltac:(lia) ltac:(lia)
                  (atHead_unpark _ _ (atHead_perform _ _ Hx)) ltac:(lia))
        as (a' & Hrun & Heff & Hsusp).
      exists a'. split; [exact Hrun|]. split; [|exact Hsusp].
      rewrite Heff. cbn. rewrite <- !app_assoc. reflexivity. }
    destruct (commMode snap); assumption.
Qed.

End Transfer.

Lemma roundPercent_full total : 0 < total -> roundPercent total total = 100.
Proof.
  intros Ht. unfold roundPercent. symmetry.
  apply (Z.div_unique_pos _ _ 100 total); lia.
Qed.

Lemma writeOf_isWrite snap writer a write chunk :
  writeOf snap writer a = Some write -> isWrite (write chunk) = true.
Proof.
  unfold writeOf. destruct (commMode snap); intros H.
  - destruct writer; simplify_eq/=. reflexivity.
  - destruct (wsRef (refs a)); simplify_eq/=. reflexivity.
  - destruct (bluetoothCharacteristicRef (refs a)); simplify_eq/=. reflexivity.
Qed.

Lemma transferTrace_writes write c ms d (indices : list nat) :
  (forall chunk, isWrite (write chunk) = true) ->
  length (filter (fun e => isWrite e = true) (flat_map (chunkEffects write c ms d) indices))
  = length indices.
Proof.
  intros Hw. induction indices as [|i indices IH]; [reflexivity|].
  cbn [flat_map]. rewrite filter_app, length_app, IH.
  unfold chunkEffects. cbn [app].
  rewrite filter_cons. rewrite decide_True by apply Hw.
  rewrite filter_cons. rewrite decide_False by (simpl; discriminate).
  destruct (_ && _); reflexivity.
Qed.

Lemma transferTrace_last write c ms d :
  0 < c -> d <> [] -> last (transferTrace write c ms d) = Some (Progress 100).
Proof.
  intros Hc Hd. unfold transferTrace.
  set (total := Z.of_nat (length d)).
  assert (Htotal : 0 < total) by (unfold total; destruct d; [congruence | simpl; lia]).
  destruct (chunkCount total c) as [|m] eqn:Hn.
  - assert (H0 : (0 < chunkCount total c)%nat) by (apply chunkCount_lt; lia). lia.
  - rewrite seq_S, flat_map_app. cbn [flat_map plus]. rewrite app_nil_r.
    unfold chunkEffects at 2. fold total. rewrite Hn.
    rewrite (bool_decide_false (S m < S m)%nat) by lia. rewrite andb_false_r, app_nil_r.
    assert (Hlast : ~ (S m < chunkCount total c)%nat) by lia.
    rewrite chunkCount_lt in Hlast by lia.
    rewrite Z.min_r by lia. rewrite roundPercent_full by lia.
    cbn [app]. rewrite last_app_cons. reflexivity.
Qed.



Lemma addLog_setIsPaused ty d newText v a :
  addLog ty d newText (setIsPaused v a) = setIsPaused v (addLog ty d newText a).
Proof. destruct ty; reflexivity. Qed.

(** The loop of a transfer does not see the pause button: whatever
    [setIsPaused] did before the loop goes on, the loop does the same. *)
Lemma fileLoop_ignores_pause fuel : forall job v a,
  fileLoop fuel job (setIsPaused v a) = setIsPaused v <$> fileLoop fuel job a.
Proof.
  induction fuel as [|fuel IH]; intros job v a; [reflexivity|].
  cbn [fileLoop]. cbv zeta. unfold fileEnd, fileCatch, fileAfterWrite.
  change (refs (setIsPaused v a)) with (with_isPausedRef v (refs a)).
  change (bluetoothCharacteristicRef (with_isPausedRef v (refs a)))
    with (bluetoothCharacteristicRef (refs a)).
  change (wsRef (with_isPausedRef v (refs a))) with (wsRef (refs a)).
  repeat case_match; simplify_eq; cbn [fmap option_fmap option_map];
    rewrite ?addLog_setIsPaused; try reflexivity;
    match goal with
       | |- fileLoop _ _ (perform ?p (perform ?w (setIsPaused v a))) = _ =>
           change (perform p (perform w (setIsPaused v a)))
             with (setIsPaused v (perform p (perform w a)));
           apply IH
       end.
Qed.

(** So does the transfer that goes on after an awaited write. *)
Lemma resumeTask_ignores_pause job chunk result ans fuel v a :
  resumeTask (FileAwaitingWrite job chunk) result ans fuel (setIsPaused v a)
  = setIsPaused v <$> resumeTask (FileAwaitingWrite job chunk) result ans fuel a.
Proof.
  cbn [resumeTask]. destruct result.
  - unfold fileAfterWrite. cbv zeta. case_match; [reflexivity|].
    apply (fileLoop_ignores_pause fuel _ v (perform _ a)).
  - unfold fileCatch. rewrite addLog_setIsPaused. reflexivity.
Qed.

(** C2 fails on the code. The test [if (isPaused)] in the loop reads the
    [isPaused] of the render [handleFileSend] closes over, which was false
    when the transfer began; pausing while the first chunk is in flight
    sets the state and [isPausedRef], yet the loop writes the second chunk,
    logs no [error] entry and reports the transfer as complete. (By the two
    lemmas above no pause reaches a running transfer.) *)
Lemma pause_does_not_halt_transfer :
  isPaused (ui (after pausedAfterFirstChunk)) = true
  /\ isPausedRef (refs (after pausedAfterFirstChunk)) = true
  /\ effects (host (after pausedAfterFirstChunk)) = [SerialWrite FromTransfer 7 [x01; x02]]
  /\ effects (host (after pausedTransfer))
     = [SerialWrite FromTransfer 7 [x01; x02]; Progress 50;
        SerialWrite FromTransfer 7 [x03; x04]; Progress 100]
  /\ countErrors (logs (ui (after pausedTransfer))) = 0%nat
  /\ text <$> last (logs (ui (after pausedTransfer))) = Some "文件发送完毕".
Proof. repeat split; vm_compute; reflexivity. Qed.

(** ** The send queue *)

Lemma filter_delete_other {A} (P : A -> Prop) `{!forall y, Decision (P y)} (l : list A) i t :
  l !! i = Some t -> ~ P t -> filter P (delete i l) = filter P l.
Proof.
  revert i. induction l as [|y l IH]; intros [|i] Hi Ht; simplify_eq/=.
  - rewrite filter_cons, decide_False by assumption. reflexivity.
  - rewrite !filter_cons. erewrite IH by eassumption. reflexivity.
Qed.

Lemma filter_delete_one {A} (P : A -> Prop) `{!forall y, Decision (P y)} (l : list A) i t :
  l !! i = Some t -> P t -> (length (filter P l) <= 1)%nat -> filter P (delete i l) = [].
Proof.
  revert i. induction l as [|y l IH]; intros [|i] Hi Ht Hlen; simplify_eq/=.
  - rewrite filter_cons, decide_True in Hlen by assumption. simpl in Hlen.
    destruct (filter P l); [reflexivity | simpl in Hlen; lia].
  - rewrite filter_cons in *. destruct (decide (P y)).
    + simpl in Hlen. assert (Hin : t ∈ filter P l).
      { apply list_elem_of_filter. split; [assumption|]. eapply list_elem_of_lookup_2. eassumption. }
      destruct (filter P l); [inversion Hin | simpl in Hlen; lia].
    + eapply IH; eassumption.
Qed.

Section SendQueue.

Implicit Types (a x : App) (snap : Render).


Lemma QFrame_refl a : QFrame a a.
Proof. repeat split. Qed.

Lemma QFrame_onUi f a x : QFrame a x -> QFrame a (onUi f x).
Proof. intros H. exact H. Qed.

Lemma QFrame_onRefs f a x :
  (forall r, sendQueueRef (f r) = sendQueueRef r) ->
  (forall r, isSendingRef (f r) = isSendingRef r) ->
  QFrame a x -> QFrame a (onRefs f x).
Proof.
  intros Hq Hs (H1 & H2 & H3 & H4). repeat split; try assumption.
  - cbn. rewrite Hq. exact H1.
  - cbn. rewrite Hs. exact H2.
Qed.

Lemma QFrame_onHost f a x :
  (forall h, suspended (f h) = suspended h) ->
  (forall h, effects (f h) = effects h) ->
  QFrame a x -> QFrame a (onHost f x).
Proof.
  intros Hs He (H1 & H2 & H3 & H4). repeat split; try assumption.
  - unfold drainTasks. cbn. rewrite Hs. exact H3.
  - cbn. rewrite He. exact H4.
Qed.

Lemma queueWrites_perform e x :
  queueWrites (effects (host (perform e x)))
  = queueWrites (effects (host x)) ++ (if isQueueWrite e then [e] else []).
Proof.
  unfold queueWrites. cbn. rewrite filter_app. f_equal.
  rewrite filter_cons. destruct (isQueueWrite e); reflexivity.
Qed.

Lemma drainTasks_suspend t x :
  drainTasks (suspend t x) = drainTasks x ++ (if isDrain t then [t] else []).
Proof.
  unfold drainTasks. cbn. rewrite filter_app. f_equal.
  rewrite filter_cons. destruct (isDrain t); reflexivity.
Qed.

Lemma QFrame_perform e a x : isQueueWrite e = false -> QFrame a x -> QFrame a (perform e x).
Proof.
  intros He (H1 & H2 & H3 & H4). repeat split; try assumption.
  rewrite queueWrites_perform, He, app_nil_r. exact H4.
Qed.

Lemma QFrame_suspend t a x : isDrain t = false -> QFrame a x -> QFrame a (suspend t x).
Proof.
  intros Ht (H1 & H2 & H3 & H4). repeat split; try assumption.
  rewrite drainTasks_suspend, Ht, app_nil_r. exact H3.
Qed.

Lemma QFrame_addLog ty d newText a x : QFrame a x -> QFrame a (addLog ty d newText x).
Proof.
  intros (H1 & H2 & H3 & H4). unfold QFrame, drainTasks.
  rewrite addLog_host, addLog_refs. destruct ty; repeat split; assumption.
Qed.

Create HintDb qframe.
Hint Resolve QFrame_refl QFrame_onUi QFrame_addLog : qframe.
Hint Extern 2 (QFrame _ (onRefs _ _)) =>
  apply QFrame_onRefs; [intros; reflexivity | intros; reflexivity | ] : qframe.
Hint Extern 2 (QFrame _ (onHost _ _)) =>
  apply QFrame_onHost; [intros; reflexivity | intros; reflexivity | ] : qframe.
Hint Extern 2 (QFrame _ (perform _ _)) => apply QFrame_perform; [reflexivity | ] : qframe.
Hint Extern 2 (QFrame _ (suspend _ _)) => apply QFrame_suspend; [reflexivity | ] : qframe.

Ltac qframe :=
  unfold setPort, setIsConnected, setIsReconnecting, setIsPaused, setMaxBufferSize,
    clearLogs, setLogs, clearTimeout, setTimeout;
  cbv beta iota zeta; repeat case_match; subst; simplify_eq;
  cbv beta iota zeta; eauto 40 with qframe.

Lemma QFrame_togglePause snap a : QFrame a (togglePause snap a).
Proof. unfold togglePause. qframe. Qed.

Lemma QFrame_disconnect snap r a : QFrame a (disconnect snap r a).
Proof. unfold disconnect. qframe. Qed.

Lemma QFrame_connect snap env a : QFrame a (connect snap env a).
Proof. unfold connect, awaiting, readLoop. qframe. Qed.

Lemma QFrame_socketEvent ws e a : QFrame a (socketEvent ws e a).
Proof.
  unfold socketEvent, ws_onopen, ws_onmessage, ws_onerror, ws_onclose. qframe.
Qed.

Lemma QFrame_timerFire t env a : QFrame a (timerFire t env a).
Proof. unfold timerFire, connect, awaiting, readLoop. qframe. Qed.

Lemma QFrame_serialData value textChunk a : QFrame a (serialData value textChunk a).
Proof. unfold serialData. qframe. Qed.

Lemma QFrame_characteristicvaluechanged d textChunk a :
  QFrame a (characteristicvaluechanged d textChunk a).
Proof. unfold characteristicvaluechanged. qframe. Qed.

Lemma QFrame_gattserverdisconnected snap a : QFrame a (gattserverdisconnected snap a).
Proof. unfold gattserverdisconnected. qframe. Qed.

Lemma QFrame_fileAfterWrite loop job chunk a x x' :
  (forall job x x', QFrame a x -> loop job x = Some x' -> QFrame a x') ->
  QFrame a x -> fileAfterWrite loop job chunk x = Some x' -> QFrame a x'.
Proof.
  intros Hloop Hx. unfold fileAfterWrite. cbv zeta. case_match.
  - intros [= <-]. eauto 10 with qframe.
  - apply Hloop. eauto with qframe.
Qed.

Lemma QFrame_fileLoop fuel job a x x' :
  QFrame a x -> fileLoop fuel job x = Some x' -> QFrame a x'.
Proof.
  revert job x x'. induction fuel as [|fuel IH]; intros job x x' Hx; simpl; [discriminate|].
  unfold fileEnd, fileCatch.
  repeat case_match; try (intros [= <-]; eauto 10 with qframe).
  apply QFrame_fileAfterWrite; eauto with qframe.
Qed.

Lemma QFrame_handleFileSend snap file options ans fuel a a' :
  handleFileSend snap file options ans fuel a = Some a' -> QFrame a a'.
Proof.
  unfold handleFileSend. cbv zeta.
  repeat case_match; try (intros [= <-]; eauto 10 with qframe);
    apply QFrame_fileLoop; eauto 10 with qframe.
Qed.

Lemma QFrame_unpark_file i t a :
  suspended (host a) !! i = Some t -> isDrain t = false -> QFrame a (unpark i a).
Proof.
  intros Hi Ht. repeat split. unfold drainTasks. cbn.
  eapply filter_delete_other; [exact Hi | rewrite Ht; discriminate].
Qed.


Lemma Drained_step snap item rest x y x' ws0 written0 :
  queueWrites (effects (host y)) = queueWrites (effects (host x)) ++ ws0 ->
  Forall2 carries ws0 written0 -> written0 `sublist_of` [item] ->
  drainTasks y = drainTasks x -> isSendingRef (refs y) = isSendingRef (refs x) ->
  Drained snap rest y x' -> Drained snap (item :: rest) x x'.
Proof.
  intros Hw Hc Hsub Ht Hs (processed & written & ws & Hq & Hsub' & Hw' & Hc' & Hend).
  exists (item :: processed), (written0 ++ written), (ws0 ++ ws).
  split; [rewrite Hq; reflexivity|].
  split; [apply (sublist_app written0 [item] written processed); assumption|].
  split; [rewrite Hw', Hw, app_assoc; reflexivity|].
  split; [apply Forall2_app; assumption|].
  rewrite <- Ht, <- Hs. exact Hend.
Qed.

Lemma drainLoop_Drained snap ans queue x :
  sendQueueRef (refs x) = queue -> Drained snap queue x (drainLoop snap ans queue x).
Proof.
  revert x. induction queue as [|item rest IH]; intros x Hq.
  - exists [], [], [].
    split; [cbn; rewrite Hq; reflexivity|].
    split; [constructor|].
    split; [cbn; rewrite app_nil_r; reflexivity|].
    split; [constructor|].
    right. split; [reflexivity|]. split; [reflexivity | exact Hq].
  - cbn [drainLoop]. cbv zeta.
    set (y := onRefs (with_sendQueueRef rest) x).
    assert (Hskip : forall y2,
               QFrame y y2 -> Drained snap (item :: rest) x (drainLoop snap ans rest y2)).
    { intros y2 (H1 & H2 & H3 & H4).
      apply (Drained_step snap item rest x y2 _ [] []);
        [rewrite H4, app_nil_r; reflexivity | constructor | apply sublist_nil_l
        | rewrite H3; reflexivity | rewrite H2; reflexivity | apply IH; rewrite H1; reflexivity]. }
    assert (Hpark : forall w,
               isQueueWrite w = true -> carries w item ->
               Drained snap (item :: rest) x (suspend (DrainAwaitingWrite snap) (perform w y))).
    { intros w Hw Hc. exists [item], [item], [w].
      split; [reflexivity|]. split; [reflexivity|].
      split; [change (effects (host (suspend (DrainAwaitingWrite snap) (perform w y))))
                with (effects (host (perform w y)));
              rewrite queueWrites_perform, Hw; reflexivity|].
      split; [repeat constructor; exact Hc|].
      left. split; [rewrite drainTasks_suspend; reflexivity | reflexivity]. }
    destruct (commMode snap).
    + destruct (port snap) as [p|]; [|apply Hskip, QFrame_refl].
      destruct (portWritable ans); [|apply Hskip, QFrame_refl].
      destruct (getWriter ans).
      * apply Hpark; reflexivity.
      * apply Hskip, QFrame_addLog, QFrame_refl.
    + destruct (wsRef (refs y)) as [ws|]; [|apply Hskip, QFrame_refl].
      destruct (wsOpen ans); [|apply Hskip, QFrame_refl].
      assert (Hsend : forall w, isQueueWrite w = true -> carries w item ->
                 Drained snap (item :: rest) x (drainLoop snap ans rest (perform w y))).
      { intros w Hw Hc.
        apply (Drained_step snap item rest x (perform w y) _ [w] [item]);
          [rewrite queueWrites_perform, Hw; reflexivity | repeat constructor; exact Hc
          | reflexivity | reflexivity | reflexivity | apply IH; reflexivity]. }
      destruct (q_mode item); apply Hsend; reflexivity.
    + destruct (bluetoothCharacteristicRef (refs y)) as [c|]; [|apply Hskip, QFrame_refl].
      apply Hpark; reflexivity.
Qed.

Lemma QueueInv_frame enq a x : QFrame a x -> QueueInv enq a -> QueueInv enq x.
Proof.
  intros (H1 & H2 & H3 & H4). unfold QueueInv. rewrite H1, H2, H3, H4. trivial.
Qed.

(** The drain loop started or resumed in a state without a parked drain
    loop, with [isSendingRef] set. *)
Lemma QueueInv_Drained snap enq items done written x x' :
  enq ++ items = done ++ sendQueueRef (refs x) ->
  written `sublist_of` done ->
  Forall2 carries (queueWrites (effects (host x))) written ->
  drainTasks x = [] -> isSendingRef (refs x) = true ->
  Drained snap (sendQueueRef (refs x)) x x' ->
  QueueInv (enq ++ items) x'.
Proof.
  intros Henq Hsub Hcar Hnone Hsending
    (processed & written' & ws & Hq & Hsub' & Hw & Hc & Hend).
  split.
  { exists (done ++ processed), (written ++ written').
    split; [rewrite Henq, Hq, app_assoc; reflexivity|].
    split; [apply sublist_app; assumption|].
    rewrite Hw. apply Forall2_app; assumption. }
  rewrite Hnone in Hend. destruct Hend as [[Htasks Hs] | (Htasks & Hs & Hempty)].
  - rewrite Htasks, Hs, Hsending. cbn. split; [lia|]. split; [|congruence].
    split; [congruence | reflexivity].
  - rewrite Htasks, Hs. cbn. split; [lia|]. split; [|intros _; exact Hempty].
    split; [discriminate | congruence].
Qed.

Lemma sendData_running conv snap input mode ans a :
  isPaused snap = false ->
  sendData conv snap input mode ans a
  = processSendQueue snap ans
      (onRefs (fun r => with_sendQueueRef (sendQueueRef r ++ [itemOf conv input mode]) r)
         (addLog tx (q_data (itemOf conv input mode)) (q_text (itemOf conv input mode)) a)).
Proof. intros Hrun. unfold sendData. rewrite Hrun. reflexivity. Qed.

Lemma QueueInv_sendData conv snap input mode ans enq a :
  QueueInv enq a ->
  QueueInv (enq ++ (if isPaused snap then [] else [itemOf conv input mode]))
           (sendData conv snap input mode ans a).
Proof.
  intros Hinv. destruct (isPaused snap) eqn:Hpaused.
  - unfold sendData. rewrite Hpaused, app_nil_r.
    eapply QueueInv_frame; [|exact Hinv]. eauto with qframe.
  - rewrite sendData_running by exact Hpaused.
    set (item := itemOf conv input mode).
    set (a1 := addLog tx (q_data item) (q_text item) a).
    assert (Hinv1 : QueueInv enq a1).
    { eapply QueueInv_frame; [|exact Hinv]. apply QFrame_addLog, QFrame_refl. }
    destruct Hinv1 as ((done & written & Henq & Hsub & Hcar) & Hlen & Hsending & Hempty).
    set (a2 := onRefs _ a1).
    assert (Hq2 : sendQueueRef (refs a2) = sendQueueRef (refs a1) ++ [item]) by reflexivity.
    unfold processSendQueue.
    change (isSendingRef (refs a2)) with (isSendingRef (refs a1)).
    destruct (isSendingRef (refs a1)) eqn:Hs; cbn [orb].
    + split; [exists done, written; rewrite Hq2, Henq, app_assoc; auto|].
      change (drainTasks a2) with (drainTasks a1).
      change (isSendingRef (refs a2)) with (isSendingRef (refs a1)). rewrite Hs.
      split; [exact Hlen|]. split; [exact Hsending|].
      intros Hnil. destruct (proj1 Hsending eq_refl Hnil).
    + rewrite bool_decide_false by (rewrite Hq2, length_app; simpl; lia).
      assert (Hnone : drainTasks a1 = []).
      { destruct (drainTasks a1) eqn:Ht; [reflexivity|].
        assert (false = true) by (apply Hsending; discriminate). discriminate. }
      cbv zeta.
      eapply (QueueInv_Drained snap enq [item] done written
                (onRefs (with_isSendingRef true) a2)).
      * cbn [refs onRefs with_refs sendQueueRef with_isSendingRef].
        change (sendQueueRef (refs a2)) with (sendQueueRef (refs a1) ++ [item]).
        rewrite Henq, app_assoc. reflexivity.
      * exact Hsub.
      * exact Hcar.
      * exact Hnone.
      * reflexivity.
      * apply drainLoop_Drained. reflexivity.
Qed.

Lemma QueueInv_resume i result ans fuel enq a a' :
  QueueInv enq a -> resume i result ans fuel a = Some a' -> QueueInv enq a'.
Proof.
  intros Hinv. unfold resume.
  destruct (suspended (host a) !! i) as [t|] eqn:Hi; [|intros [= <-]; exact Hinv].
  destruct t as [snap|job chunk|job]; cbn [resumeTask].
  - (* the drain loop goes on *)
    intros [= <-].
    destruct Hinv as ((done & written & Henq & Hsub & Hcar) & Hlen & Hsending & Hempty).
    assert (Hnone : drainTasks (unpark i a) = []).
    { unfold drainTasks. cbn. eapply filter_delete_one; [exact Hi | reflexivity | exact Hlen]. }
    assert (Hs : isSendingRef (refs a) = true).
    { apply Hsending. intros Hnil.
      assert (Hin : DrainAwaitingWrite snap ∈ drainTasks a).
      { apply list_elem_of_filter. split; [reflexivity|].
        eapply list_elem_of_lookup_2. exact Hi. }
      rewrite Hnil in Hin. inversion Hin. }
    rewrite <- (app_nil_r enq).
    set (x := match result with
              | Resolved _ => unpark i a
              | Rejected err => addLog error emptyBytes ("发送失败: " +:+ err_message err) (unpark i a)
              end).
    assert (Hx : QFrame (unpark i a) x).
    { unfold x. destruct result; eauto with qframe. }
    destruct Hx as (H1 & H2 & H3 & H4).
    eapply (QueueInv_Drained snap enq [] done written x).
    + rewrite app_nil_r, H1. exact Henq.
    + exact Hsub.
    + rewrite H4. exact Hcar.
    + rewrite H3. exact Hnone.
    + rewrite H2. exact Hs.
    + apply drainLoop_Drained. reflexivity.
  - (* a file transfer goes on *)
    intros Hres. eapply QueueInv_frame; [|exact Hinv].
    destruct result.
    + eapply QFrame_fileAfterWrite; [| |exact Hres].
      * intros ? ? ?. apply QFrame_fileLoop.
      * eapply QFrame_unpark_file; [exact Hi | reflexivity].
    + simplify_eq. unfold fileCatch. apply QFrame_addLog.
      eapply QFrame_unpark_file; [exact Hi | reflexivity].
  - intros Hres. eapply QueueInv_frame; [|exact Hinv].
    eapply QFrame_fileLoop; [|exact Hres].
    eapply QFrame_unpark_file; [exact Hi | reflexivity].
Qed.

Lemma QueueInv_step e enq a a' :
  QueueInv enq a -> step e a = Some a' -> QueueInv (enq ++ enqueuedBy [e] a) a'.
Proof.
  intros Hinv Hstep.
  assert (Henq : enqueuedBy [e] a
                 = match e with
                   | SendData conv input mode _ =>
                       if isPaused (ui a) then [] else [itemOf conv input mode]
                   | _ => []
                   end).
  { cbn [enqueuedBy]. rewrite Hstep. destruct e; rewrite ?app_nil_r; reflexivity. }
  rewrite Henq. clear Henq.
  destruct e; rewrite ?app_nil_r; cbn [step] in Hstep.
  1-9, 13-16: simplify_eq; eapply QueueInv_frame; [|exact Hinv].
  - apply QFrame_connect.
  - apply QFrame_disconnect.
  - apply QFrame_togglePause.
  - unfold clearLogs, setLogs. eauto with qframe.
  - eauto with qframe.
  - unfold setMaxBufferSize. eauto with qframe.
  - eauto with qframe.
  - eauto with qframe.
  - eauto with qframe.
  - apply QFrame_timerFire.
  - apply QFrame_socketEvent.
  - apply QFrame_serialData.
  - apply QFrame_characteristicvaluechanged.
  - simplify_eq. apply QueueInv_sendData. exact Hinv.
  - eapply QueueInv_frame; [|exact Hinv]. eapply QFrame_handleFileSend. exact Hstep.
  - eapply QueueInv_resume; eassumption.
  - eapply QueueInv_frame; [|exact Hinv].
    destruct (gattListeners (host a) !! listener); simplify_eq;
      [apply QFrame_gattserverdisconnected | apply QFrame_refl].
Qed.

Lemma QueueInv_run es : forall enq a a',
  QueueInv enq a -> run es a = Some a' -> QueueInv (enq ++ enqueuedBy es a) a'.
Proof.
  induction es as [|e es IH]; intros enq a a' Hinv Hrun.
  - cbn in *. simplify_eq. rewrite app_nil_r. exact Hinv.
  - cbn [run] in Hrun. destruct (step e a) as [a1|] eqn:Hstep; [|discriminate].
    assert (Hcons : enqueuedBy (e :: es) a = enqueuedBy [e] a ++ enqueuedBy es a1).
    { cbn [enqueuedBy]. rewrite Hstep, app_nil_r. reflexivity. }
    rewrite Hcons, app_assoc. eapply IH; [|exact Hrun].
    eapply QueueInv_step; eassumption.
Qed.

End SendQueue.



(** The second [sendData] finds the loop of the first parked: it starts no
    second loop and leaves its item in the queue, and the running loop writes
    it next. *)
Example enqueue_while_draining :
  length (drainTasks (after sendWhileDraining)) = 1%nat
  /\ q_text <$> sendQueueRef (refs (after sendWhileDraining)) = ["b"]
  /\ effects (host (after sendTwo))
     = [SerialWrite FromQueue 7 (String.list_byte_of_string "a");
        SerialWrite FromQueue 7 (String.list_byte_of_string "b")]
  /\ suspended (host (after sendTwo)) = []
  /\ isSendingRef (refs (after sendTwo)) = false.
Proof. repeat split; vm_compute; reflexivity. Qed.

(** ** The reconnect supervisor *)

Section Reconnect.

Implicit Types (a x : App) (snap : Render).

Lemma NFrame_refl a : NFrame a a.
Proof. repeat split. Qed.

Lemma NFrame_onUi f a x : NFrame a x -> NFrame a (onUi f x).
Proof. intros H. exact H. Qed.

Lemma NFrame_onRefs f a x :
  (forall r, shouldReconnectRef (f r) = shouldReconnectRef r) ->
  NFrame a x -> NFrame a (onRefs f x).
Proof.
  intros Hf (H1 & H2 & H3 & H4 & H5). repeat split; try assumption.
  cbn. rewrite Hf. exact H4.
Qed.

Lemma NFrame_onHost f a x :
  (forall h, timers (f h) = timers h) -> (forall h, nextTimer (f h) = nextTimer h) ->
  (forall h, sockets (f h) = sockets h) -> (forall h, effects (f h) = effects h) ->
  NFrame a x -> NFrame a (onHost f x).
Proof.
  intros Ht Hn Hs He (H1 & H2 & H3 & H4 & H5). unfold NFrame. cbn.
  rewrite Ht, Hn, Hs, He. repeat split; assumption.
Qed.

Lemma attempts_snoc es e :
  attempts (es ++ [e]) = (attempts es + (if isNewWebSocket e then 1 else 0))%nat.
Proof.
  unfold attempts. rewrite filter_app, length_app. f_equal.
  rewrite filter_cons. destruct (isNewWebSocket e); reflexivity.
Qed.

Lemma attempts_perform e x :
  attempts (effects (host (perform e x)))
  = (attempts (effects (host x)) + (if isNewWebSocket e then 1 else 0))%nat.
Proof.
  unfold attempts. cbn. rewrite filter_app, length_app. f_equal.
  rewrite filter_cons. destruct (isNewWebSocket e); reflexivity.
Qed.

Lemma NFrame_perform e a x : isNewWebSocket e = false -> NFrame a x -> NFrame a (perform e x).
Proof.
  intros He (H1 & H2 & H3 & H4 & H5). repeat split; try assumption.
  rewrite attempts_perform, He, H5. lia.
Qed.

Lemma NFrame_addLog ty d newText a x : NFrame a x -> NFrame a (addLog ty d newText x).
Proof.
  intros (H1 & H2 & H3 & H4 & H5). unfold NFrame.
  rewrite addLog_host, addLog_refs. destruct ty; repeat split; assumption.
Qed.

Create HintDb nframe.
Hint Constants Opaque : nframe.
Hint Resolve NFrame_refl NFrame_onUi NFrame_addLog : nframe.
Hint Extern 2 (NFrame _ (onRefs _ _)) =>
  apply NFrame_onRefs; [intros; reflexivity | ] : nframe.
Hint Extern 2 (NFrame _ (onHost _ _)) =>
  apply NFrame_onHost;
    [intros; reflexivity | intros; reflexivity | intros; reflexivity | intros; reflexivity | ]
  : nframe.
Hint Extern 2 (NFrame _ (perform _ _)) => apply NFrame_perform; [reflexivity | ] : nframe.

Ltac nframe :=
  unfold setPort, setIsConnected, setIsReconnecting, setIsPaused, setMaxBufferSize,
    clearLogs, setLogs, suspend, unpark;
  cbv beta iota zeta; repeat case_match; subst; simplify_eq;
  cbv beta iota zeta; eauto 40 with nframe.

Lemma NFrame_togglePause snap a : NFrame a (togglePause snap a).
Proof. unfold togglePause. nframe. Qed.

Lemma NFrame_serialData value textChunk a : NFrame a (serialData value textChunk a).
Proof. unfold serialData. nframe. Qed.

Lemma NFrame_characteristicvaluechanged d textChunk a :
  NFrame a (characteristicvaluechanged d textChunk a).
Proof. unfold characteristicvaluechanged. nframe. Qed.

Lemma NFrame_gattserverdisconnected snap a : NFrame a (gattserverdisconnected snap a).
Proof. unfold gattserverdisconnected. nframe. Qed.

Lemma NFrame_drainLoop snap ans queue a x : NFrame a x -> NFrame a (drainLoop snap ans queue x).
Proof.
  revert x. induction queue as [|item rest IH]; intros x Hx; cbn [drainLoop].
  - nframe.
  - cbv zeta. repeat case_match; try apply IH; nframe.
Qed.

Lemma NFrame_sendData conv snap input mode ans a : NFrame a (sendData conv snap input mode ans a).
Proof.
  unfold sendData, processSendQueue. cbv zeta.
  repeat case_match; try apply NFrame_drainLoop; nframe.
Qed.

Lemma NFrame_fileAfterWrite loop job chunk a x x' :
  (forall job x x', NFrame a x -> loop job x = Some x' -> NFrame a x') ->
  NFrame a x -> fileAfterWrite loop job chunk x = Some x' -> NFrame a x'.
Proof.
  intros Hloop Hx. unfold fileAfterWrite. cbv zeta. case_match.
  - intros [= <-]. nframe.
  - apply Hloop. nframe.
Qed.

Lemma NFrame_fileLoop fuel job a x x' :
  NFrame a x -> fileLoop fuel job x = Some x' -> NFrame a x'.
Proof.
  revert job x x'. induction fuel as [|fuel IH]; intros job x x' Hx; simpl; [discriminate|].
  unfold fileEnd, fileCatch.
  repeat case_match; try (intros [= <-]; nframe).
  apply NFrame_fileAfterWrite; [exact IH | nframe].
Qed.

Lemma NFrame_handleFileSend snap file options ans fuel a a' :
  handleFileSend snap file options ans fuel a = Some a' -> NFrame a a'.
Proof.
  unfold handleFileSend. cbv zeta.
  repeat case_match; try (intros [= <-]; nframe);
    apply NFrame_fileLoop; nframe.
Qed.

Lemma NFrame_resume i result ans fuel a a' :
  resume i result ans fuel a = Some a' -> NFrame a a'.
Proof.
  unfold resume. case_match; [|intros [= <-]; apply NFrame_refl].
  unfold resumeTask, fileCatch. repeat case_match; try (intros [= <-]).
  - apply NFrame_drainLoop. nframe.
  - apply NFrame_drainLoop. nframe.
  - apply NFrame_fileAfterWrite; [intros ? ? ?; apply NFrame_fileLoop | nframe].
  - nframe.
  - apply NFrame_fileLoop. nframe.
Qed.

Lemma HostInv_ext a x :
  timers (host x) = timers (host a) -> nextTimer (host x) = nextTimer (host a) ->
  sockets (host x) = sockets (host a) -> HostInv a -> HostInv x.
Proof. unfold HostInv. intros -> -> ->. trivial. Qed.

Lemma HostInv_frame a x : NFrame a x -> HostInv a -> HostInv x.
Proof. intros (H1 & H2 & H3 & _). apply HostInv_ext; assumption. Qed.

Lemma Quiet_frame n a x : NFrame a x -> Quiet n a -> Quiet n x.
Proof. intros (H1 & _ & _ & H4 & H5). unfold Quiet. rewrite H1, H4, H5. trivial. Qed.

(** [connect] outside the WebSocket branch, or without a URL. *)
Lemma NFrame_connect_other snap env a :
  ~ socketRender snap -> NFrame a (connect snap env a).
Proof.
  intros Hno. unfold connect, awaiting, readLoop.
  destruct (commMode snap) eqn:Hmode.
  - nframe.
  - destruct (String.eqb (wsUrl snap) "") eqn:Hurl; [nframe|].
    destruct Hno. split; [exact Hmode|]. apply String.eqb_neq. exact Hurl.
  - nframe.
Qed.

(** [connect] in the WebSocket branch: one attempt, and a socket of this
    render if the constructor returns. *)
Lemma connect_socket snap env a :
  socketRender snap ->
  timers (host (connect snap env a)) = timers (host a)
  /\ nextTimer (host (connect snap env a)) = nextTimer (host a)
  /\ attempts (effects (host (connect snap env a))) = S (attempts (effects (host a)))
  /\ (sockets (host (connect snap env a)) = sockets (host a)
      \/ sockets (host (connect snap env a)) = <[nextSocket (host a) := snap]> (sockets (host a))).
Proof.
  intros [Hmode Hurl]. unfold connect. rewrite Hmode.
  apply String.eqb_neq in Hurl. rewrite Hurl. cbv zeta.
  assert (Hone : attempts (effects (host (perform (NewWebSocket (wsUrl snap)) a)))
                 = S (attempts (effects (host a)))).
  { rewrite attempts_perform. simpl. lia. }
  destruct (newWebSocket env).
  - repeat split; [exact Hone | right; reflexivity].
  - rewrite !addLog_host. repeat split; [exact Hone | left; reflexivity].
Qed.

Lemma HostInv_connect snap env a : HostInv a -> HostInv (connect snap env a).
Proof.
  intros Hinv.
  destruct (decide (socketRender snap)) as [Hsock|Hno];
    [|eapply HostInv_frame; [apply NFrame_connect_other; exact Hno | exact Hinv]].
  destruct (connect_socket snap env a Hsock) as (Ht & Hn & _ & Hs).
  destruct Hinv as (Hfresh & Hsocks & Hcbs). unfold HostInv. rewrite Ht, Hn.
  split; [exact Hfresh|]. split; [|exact Hcbs].
  destruct Hs as [-> | ->]; [exact Hsocks|].
  intros ws snap' Hlook. apply lookup_insert_Some in Hlook as [[_ <-] | [_ Hlook]];
    [exact Hsock | eapply Hsocks; exact Hlook].
Qed.

(** [disconnect] in WebSocket mode takes the flag down and cancels the
    timer [reconnectTimerRef] holds, if any; it touches no other timer, and
    in the other modes none at all. *)
Lemma disconnect_timers snap r a :
  timers (host (disconnect snap r a))
  = match commMode snap, reconnectTimerRef (refs a) with
    | WebSocket, Some t => delete t (timers (host a))
    | _, _ => timers (host a)
    end
  /\ nextTimer (host (disconnect snap r a)) = nextTimer (host a)
  /\ sockets (host (disconnect snap r a)) = sockets (host a)
  /\ attempts (effects (host (disconnect snap r a))) = attempts (effects (host a))
  /\ shouldReconnectRef (refs (disconnect snap r a))
     = match commMode snap with
       | WebSocket => false
       | _ => shouldReconnectRef (refs a)
       end.
Proof.
  destruct (commMode snap) eqn:Hmode.
  - assert (Hframe : NFrame a (disconnect snap r a)).
    { unfold disconnect. rewrite Hmode. nframe. }
    destruct Hframe as (H1 & H2 & H3 & H4 & H5). repeat split; assumption.
  - unfold disconnect. rewrite Hmode. cbv zeta.
    destruct a as [u [sock flag timer dev chr rd keep paused ceiling queue sending lines] h].
    cbn. destruct timer as [t|], sock as [ws|];
      rewrite ?addLog_host, ?addLog_refs; cbn;
      repeat split;
      unfold attempts; rewrite ?filter_app, ?length_app; cbn;
      repeat case_decide; try discriminate; cbn; lia.
  - assert (Hframe : NFrame a (disconnect snap r a)).
    { unfold disconnect. rewrite Hmode. nframe. }
    destruct Hframe as (H1 & H2 & H3 & H4 & H5). repeat split; assumption.
Qed.

Lemma HostInv_delete_timer t a x :
  timers (host x) = delete t (timers (host a)) -> nextTimer (host x) = nextTimer (host a) ->
  sockets (host x) = sockets (host a) -> HostInv a -> HostInv x.
Proof.
  intros Ht Hn Hs (Hfresh & Hsocks & Hcbs). unfold HostInv. rewrite Ht, Hn, Hs.
  split; [|split; [exact Hsocks|]].
  - intros t' [v Hv]. apply lookup_delete_Some in Hv as [_ Hv]. apply Hfresh. eauto.
  - intros t' ms snap Hv. apply lookup_delete_Some in Hv as [_ Hv]. eapply Hcbs. exact Hv.
Qed.

Lemma HostInv_disconnect snap r a : HostInv a -> HostInv (disconnect snap r a).
Proof.
  intros Hinv.
  destruct (disconnect_timers snap r a) as (Ht & Hn & Hs & _).
  destruct (commMode snap), (reconnectTimerRef (refs a)) as [t|];
    first [eapply HostInv_ext; eassumption | eapply HostInv_delete_timer; eassumption].
Qed.

(** [onclose] with the flag up: one timer with the fixed delay, held by
    [reconnectTimerRef]. *)
Lemma ws_onclose_schedules snap a :
  shouldReconnectRef (refs a) = true -> commMode snap = WebSocket ->
  timers (host (ws_onclose snap a))
  = <[nextTimer (host a) := (reconnectDelay, ReconnectCallback snap)]> (timers (host a))
  /\ nextTimer (host (ws_onclose snap a)) = Pos.succ (nextTimer (host a))
  /\ reconnectTimerRef (refs (ws_onclose snap a)) = Some (nextTimer (host a))
  /\ sockets (host (ws_onclose snap a)) = sockets (host a)
  /\ attempts (effects (host (ws_onclose snap a))) = attempts (effects (host a)).
Proof.
  intros Hflag Hmode. unfold ws_onclose. cbv zeta.
  change (shouldReconnectRef (refs (onRefs (with_wsRef None)
            (setIsPaused false (setIsConnected false a)))))
    with (shouldReconnectRef (refs a)).
  rewrite Hflag, bool_decide_true by exact Hmode. cbn [andb].
  unfold setTimeout. cbv beta iota zeta.
  rewrite !addLog_host. repeat split.
Qed.

(** [onclose] with the flag down schedules nothing. *)
Lemma NFrame_ws_onclose_down snap a :
  shouldReconnectRef (refs a) = false -> NFrame a (ws_onclose snap a).
Proof.
  intros Hflag. unfold ws_onclose. cbv zeta.
  change (shouldReconnectRef (refs (onRefs (with_wsRef None)
            (setIsPaused false (setIsConnected false a)))))
    with (shouldReconnectRef (refs a)).
  rewrite Hflag. cbn [andb]. nframe.
Qed.

Lemma HostInv_ws_onclose snap a : socketRender snap -> HostInv a -> HostInv (ws_onclose snap a).
Proof.
  intros Hsock Hinv.
  destruct (shouldReconnectRef (refs a)) eqn:Hflag;
    [|eapply HostInv_frame; [apply NFrame_ws_onclose_down; exact Hflag | exact Hinv]].
  destruct (ws_onclose_schedules snap a Hflag (proj1 Hsock)) as (Ht & Hn & _ & Hs & _).
  destruct Hinv as (Hfresh & Hsocks & Hcbs). unfold HostInv. rewrite Ht, Hn, Hs.
  split; [|split; [exact Hsocks|]].
  - intros t [v Hv]. apply lookup_insert_Some in Hv as [[<- _] | [_ Hv]]; [lia|].
    assert (t < nextTimer (host a))%positive by (apply Hfresh; eauto). lia.
  - intros t ms snap' Hv. apply lookup_insert_Some in Hv as [[_ Hv] | [_ Hv]].
    + simplify_eq. split; [reflexivity | exact Hsock].
    + eapply Hcbs. exact Hv.
Qed.

Lemma NFrame_socketEvent_other ws e a :
  e <> SocketClose -> NFrame a (socketEvent ws e a).
Proof.
  intros He. unfold socketEvent, ws_onopen, ws_onmessage, ws_onerror.
  destruct (sockets (host a) !! ws); [|apply NFrame_refl].
  destruct e; [nframe | nframe | nframe | congruence].
Qed.

Lemma HostInv_socketEvent ws e a : HostInv a -> HostInv (socketEvent ws e a).
Proof.
  intros Hinv.
  destruct e;
    try (eapply HostInv_frame; [apply NFrame_socketEvent_other; discriminate | exact Hinv]).
  unfold socketEvent. destruct (sockets (host a) !! ws) as [snap|] eqn:Hws; [|exact Hinv].
  apply HostInv_ws_onclose; [eapply (proj1 (proj2 Hinv)); exact Hws|].
  destruct Hinv as (Hfresh & Hsocks & Hcbs).
  split; [exact Hfresh|]. split; [|exact Hcbs].
  intros ws' snap' Hv. cbn in Hv. apply lookup_delete_Some in Hv as [_ Hv].
  eapply Hsocks. exact Hv.
Qed.

Lemma HostInv_timerFire t env a : HostInv a -> HostInv (timerFire t env a).
Proof.
  intros Hinv. unfold timerFire.
  destruct (timers (host a) !! t) as [[ms [snap]]|] eqn:Ht; [|exact Hinv].
  apply HostInv_connect.
  eapply (HostInv_delete_timer t a); [reflexivity | reflexivity | reflexivity | exact Hinv].
Qed.

Lemma HostInv_step e a a' : HostInv a -> step e a = Some a' -> HostInv a'.
Proof.
  intros Hinv Hstep. destruct e; cbn [step] in Hstep.
  3-10, 15-16: simplify_eq; eapply HostInv_frame; [|exact Hinv].
  - simplify_eq. apply HostInv_connect. exact Hinv.
  - simplify_eq. apply HostInv_disconnect. exact Hinv.
  - apply NFrame_togglePause.
  - nframe.
  - nframe.
  - nframe.
  - nframe.
  - nframe.
  - nframe.
  - apply NFrame_sendData.
  - apply NFrame_serialData.
  - apply NFrame_characteristicvaluechanged.
  - eapply HostInv_frame; [|exact Hinv]. eapply NFrame_handleFileSend. exact Hstep.
  - eapply HostInv_frame; [|exact Hinv]. eapply NFrame_resume. exact Hstep.
  - simplify_eq. apply HostInv_timerFire. exact Hinv.
  - simplify_eq. apply HostInv_socketEvent. exact Hinv.
  - eapply HostInv_frame; [|exact Hinv].
    destruct (gattListeners (host a) !! listener); simplify_eq;
      [apply NFrame_gattserverdisconnected | apply NFrame_refl].
Qed.

Lemma Reachable_HostInv a : Reachable a -> HostInv a.
Proof.
  intros (supply & es & Hrun).
  assert (Hinit : HostInv (initialApp supply)).
  { split; [|split]; cbn; intros *; rewrite lookup_empty;
      [intros [? ?]; discriminate | discriminate | discriminate]. }
  revert Hinit Hrun. generalize (initialApp supply). 
  induction es as [|e es IH]; intros x Hx Hrun; cbn [run] in Hrun.
  - simplify_eq. exact Hx.
  - destruct (step e x) as [x1|] eqn:Hstep; [|discriminate].
    eapply IH; [|exact Hrun]. eapply HostInv_step; eassumption.
Qed.

Lemma Quiet_step n e a a' : notConnect e -> Quiet n a -> step e a = Some a' -> Quiet n a'.
Proof.
  intros Hnot Hq Hstep. destruct e; cbn [step] in Hstep; try destruct Hnot.
  2-9, 14-15: simplify_eq; eapply Quiet_frame; [|exact Hq].
  - (* disconnect *)
    simplify_eq. destruct Hq as (Hflag & Hnone & Hn).
    destruct (disconnect_timers (ui a) cancelResult a) as (Ht & _ & _ & Hatt & Hdown).
    split; [rewrite Hdown; destruct (commMode (ui a)); auto|].
    split; [|rewrite Hatt; exact Hn].
    rewrite Ht, Hnone.
    destruct (commMode (ui a)), (reconnectTimerRef (refs a));
      first [reflexivity | apply delete_empty].
  - apply NFrame_togglePause.
  - nframe.
  - nframe.
  - nframe.
  - nframe.
  - nframe.
  - nframe.
  - apply NFrame_sendData.
  - apply NFrame_serialData.
  - apply NFrame_characteristicvaluechanged.
  - eapply Quiet_frame; [|exact Hq]. eapply NFrame_handleFileSend. exact Hstep.
  - eapply Quiet_frame; [|exact Hq]. eapply NFrame_resume. exact Hstep.
  - (* a timer comes due: none is pending *)
    simplify_eq. unfold timerFire. rewrite (proj1 (proj2 Hq)), lookup_empty. exact Hq.
  - (* a socket event: [onclose] finds the flag down *)
    simplify_eq.
    destruct e; try (eapply Quiet_frame;
                     [apply NFrame_socketEvent_other; discriminate | exact Hq]).
    unfold socketEvent. destruct (sockets (host a) !! ws) as [snap|]; [|exact Hq].
    eapply Quiet_frame; [apply NFrame_ws_onclose_down; exact (proj1 Hq) | exact Hq].
  - eapply Quiet_frame; [|exact Hq].
    destruct (gattListeners (host a) !! listener); simplify_eq;
      [apply NFrame_gattserverdisconnected | apply NFrame_refl].
Qed.

Lemma Quiet_run n es : forall a a',
  Forall notConnect es -> Quiet n a -> run es a = Some a' -> Quiet n a'.
Proof.
  induction es as [|e es IH]; intros a a' Hes Hq Hrun; cbn [run] in Hrun.
  - simplify_eq. exact Hq.
  - destruct (step e a) as [a1|] eqn:Hstep; [|discriminate].
    inversion Hes; subst. eapply IH; [eassumption | | exact Hrun].
    eapply Quiet_step; eassumption.
Qed.

End Reconnect.



(** The two runs of the witness, evaluated: left alone, the timer comes due
    and a second [new WebSocket] goes out; after [disconnect] it does not. *)
Example reconnect_or_not :
  attempts (effects (host (after connected))) = 1%nat
  /\ size (timers (host (after reconnecting))) = 1%nat
  /\ attempts (effects (host (after (reconnecting ++ [TimerFire 1 okEnv])))) = 2%nat
  /\ attempts (effects (host (after (reconnecting
                                      ++ [Disconnect (Resolved ()); TimerFire 1 okEnv]))))
     = 1%nat.
Proof. repeat split; vm_compute; reflexivity. Qed.

(** The premise on the pending timers is needed. [reconnectTimerRef] holds
    one handle: when two sockets were alive and both closed, the timer of the
    first is pending but no longer held, [disconnect] does not cancel it, and
    it comes due after the user gave up. *)
Example untracked_timer_survives_disconnect :
  reconnectTimerRef (refs (after overlapping)) = None
  /\ shouldReconnectRef (refs (after overlapping)) = false
  /\ size (timers (host (after overlapping))) = 1%nat
  /\ attempts (effects (host (after overlapping))) = 2%nat
  /\ attempts (effects (host (after (overlapping ++ [TimerFire 1 okEnv])))) = 3%nat.
Proof. repeat split; vm_compute; reflexivity. Qed.

(** * Further properties *)

(** ** More on the log buffer *)

Lemma append_empty_r (s : string) : s +:+ "" = s.
Proof. induction s as [|c s IH]; [reflexivity|]. change (String c (s +:+ "") = String c s). by rewrite IH. Qed.

Lemma append_assoc (s1 s2 s3 : string) : (s1 +:+ s2) +:+ s3 = s1 +:+ s2 +:+ s3.
Proof. induction s1 as [|c s1 IH]; [reflexivity|]. change (String c ((s1 +:+ s2) +:+ s3) = String c (s1 +:+ s2 +:+ s3)). by rewrite IH. Qed.

Lemma concat_empty_cons (s : string) (l : list string) :
  String.concat "" (s :: l) = s +:+ String.concat "" l.
Proof. destruct l; simpl; [symmetry; apply append_empty_r | reflexivity]. Qed.

Lemma concat_empty_app (l1 l2 : list string) :
  String.concat "" (l1 ++ l2) = String.concat "" l1 +:+ String.concat "" l2.
Proof.
  induction l1 as [|s l1 IH]; [reflexivity|].
  rewrite <- app_comm_cons, !concat_empty_cons, IH, append_assoc. reflexivity.
Qed.

Lemma exportContent_app (l1 l2 : list LogEntry) :
  exportContent (l1 ++ l2) = exportContent l1 +:+ exportContent l2.
Proof. unfold exportContent. rewrite filter_app, map_app. apply concat_empty_app. Qed.

Lemma countNewlines_app (s1 s2 : string) :
  countNewlines (s1 +:+ s2) = countNewlines s1 + countNewlines s2.
Proof. induction s1 as [|c s1 IH]; simpl; [reflexivity | rewrite IH; lia]. Qed.

(** What an append keeps of the old buffer, as a list: a suffix of it. *)
Lemma addLog_kept ty d newText a :
  exists kept,
    kept `suffix_of` logs (ui a)
    /\ logs (ui (addLog ty d newText a))
       = kept ++ [newLogEntry (stamps (host a) (tick (host a))) ty d newText].
Proof.
  destruct (addLog_suffix ty d newText a) as (k & Heq & Hk).
  exists (drop k (logs (ui a))). split; [apply suffix_drop|].
  rewrite Heq. unfold updatedLogs. apply drop_app_le. exact Hk.
Qed.

(** X1. An append never reorders the buffer and never loses its own entry:
    what is left is a suffix of the old buffer, in its order, followed by the
    new entry, also when the new entry alone is larger than the ceiling. *)
Theorem addLog_keeps_arrival_order (ty : LogType) (d : list byte) (newText : string) (a : App) :
  exists kept,
    kept `suffix_of` logs (ui a)
    /\ logs (ui (addLog ty d newText a))
       = kept ++ [newLogEntry (stamps (host a) (tick (host a))) ty d newText]
    /\ (length (logs (ui (addLog ty d newText a))) <= S (length (logs (ui a))))%nat.
Proof.
  destruct (addLog_kept ty d newText a) as (kept & Hsuf & Heq).
  exists kept. split; [exact Hsuf|]. split; [exact Heq|].
  rewrite Heq, length_app. apply suffix_length in Hsuf. simpl. lia.
Qed.


(** X3. A buffer that holds [info] and [error] entries only is not empty for
    [exportLogs] and [copyLogs]: the download is made, with an empty blob,
    and the empty string goes to the clipboard. *)
Theorem export_without_traffic (format : ExportFormat) (now : Z) (logs : list LogEntry) :
  logs <> [] ->
  Forall (fun l => type l = info \/ type l = error) logs ->
  (exists name, exportLogs format now logs
                = Some {| download_name := name; blob_part := ""; blob_type := "text/plain" |})
  /\ copyLogs logs = Some "".
Proof.
  intros Hne Hall.
  assert (Hcontent : exportContent logs = "").
  { unfold exportContent. induction Hall as [|l logs Hl _ IH]; [reflexivity|].
    rewrite filter_cons. rewrite decide_False; [|destruct Hl as [-> | ->]; intros [|]; discriminate].
    destruct logs; [reflexivity|]. apply IH. discriminate. }
  unfold exportLogs, copyLogs. rewrite Hcontent.
  rewrite bool_decide_false by (destruct logs; [congruence | discriminate]).
  split; [eexists|]; reflexivity.
Qed.

Lemma export_without_traffic_witness :
  copyLogs (logs (ui (after [Disconnect (Resolved ())]))) = Some "".
Proof.
  refine (proj2 (export_without_traffic Txt 0 (logs (ui (after [Disconnect (Resolved ())]))) _ _)).
  - vm_compute. discriminate.
  - vm_compute. repeat constructor.
Defined.

(** X4. The ten most recent entries are safe from eviction: whatever the
    ceiling and the size of the entries, an append leaves at least ten
    entries in the buffer, or all of them if there were fewer. *)
Theorem addLog_keeps_last_ten (ty : LogType) (d : list byte) (newText : string) (a : App) :
  (Nat.min 10 (S (length (logs (ui a)))) <= length (logs (ui (addLog ty d newText a))))%nat.
Proof.
  rewrite addLog_logs. unfold addLogUpdater.
  set (upd := logs (ui a) ++ [newLogEntry _ ty d newText]).
  assert (Hlen : length upd = S (length (logs (ui a)))).
  { unfold upd. rewrite length_app. simpl. lia. }
  case_bool_decide as Hcount.
  - change (-500) with (- Z.of_nat 500).
    rewrite slice_from_last by lia. rewrite length_drop. lia.
  - case_bool_decide as Hsize; [|lia].
    destruct (evictOldest_spec (maxBufferSizeRef (refs a)) upd) as (k & -> & _ & Hbefore).
    destruct k as [|k]; [rewrite drop_0; lia|].
    destruct (Hbefore k) as [_ Hk]; [lia|].
    rewrite length_drop in *. lia.
Qed.

(** ** What every handler keeps of the buffer *)

(** A property of the buffer that holds of the empty buffer and that every
    append keeps holds in every reachable state: the handlers change the
    buffer through [addLog] and the clear button only. *)
Section LogInvariant.

Variable P : list LogEntry -> Prop.
Hypothesis P_empty : P [].
Hypothesis P_append : forall st ceiling ty d newText prev,
  P prev -> P (addLogUpdater st ceiling ty d newText prev).

Implicit Types (a : App) (snap : Render).

Let Q a : Prop := P (logs (ui a)).

Create HintDb loginv.
Hint Constants Opaque : loginv.

Lemma LogInv_frame a a' : logs (ui a') = logs (ui a) -> Q a -> Q a'.
Proof. unfold Q. intros ->. trivial. Qed.

Lemma LogInv_onRefs f a : Q a -> Q (onRefs f a).
Proof. apply LogInv_frame. reflexivity. Qed.
Lemma LogInv_onHost f a : Q a -> Q (onHost f a).
Proof. apply LogInv_frame. reflexivity. Qed.
Lemma LogInv_perform e a : Q a -> Q (perform e a).
Proof. apply LogInv_frame. reflexivity. Qed.
Lemma LogInv_suspend t a : Q a -> Q (suspend t a).
Proof. apply LogInv_frame. reflexivity. Qed.
Lemma LogInv_unpark i a : Q a -> Q (unpark i a).
Proof. apply LogInv_frame. reflexivity. Qed.
Lemma LogInv_clearTimeout t a : Q a -> Q (clearTimeout t a).
Proof. apply LogInv_frame. reflexivity. Qed.
Lemma LogInv_setTimeout cb ms a : Q a -> Q (setTimeout cb ms a).2.
Proof. apply LogInv_frame. reflexivity. Qed.
Lemma LogInv_setPort v a : Q a -> Q (setPort v a).
Proof. apply LogInv_frame. reflexivity. Qed.
Lemma LogInv_setIsConnected v a : Q a -> Q (setIsConnected v a).
Proof. apply LogInv_frame. reflexivity. Qed.
Lemma LogInv_setIsReconnecting v a : Q a -> Q (setIsReconnecting v a).
Proof. apply LogInv_frame. reflexivity. Qed.
Lemma LogInv_setIsPaused v a : Q a -> Q (setIsPaused v a).
Proof. apply LogInv_frame. reflexivity. Qed.
Lemma LogInv_setMaxBufferSize v a : Q a -> Q (setMaxBufferSize v a).
Proof. apply LogInv_frame. reflexivity. Qed.
Lemma LogInv_clearLogs a : Q (clearLogs a).
Proof. exact P_empty. Qed.
Lemma LogInv_addLog ty d newText a : Q a -> Q (addLog ty d newText a).
Proof. unfold Q. rewrite addLog_logs. apply P_append. Qed.

Hint Resolve LogInv_onRefs LogInv_onHost LogInv_perform LogInv_suspend LogInv_unpark LogInv_clearTimeout LogInv_setPort
  LogInv_setIsConnected LogInv_setIsReconnecting LogInv_setIsPaused LogInv_setMaxBufferSize LogInv_clearLogs
  LogInv_addLog : loginv.

Ltac handler_loginv :=
  cbv zeta; repeat case_match; subst; simplify_eq; eauto 40 with loginv.

Lemma LogInv_togglePause snap a : Q a -> Q (togglePause snap a).
Proof. intros. unfold togglePause. handler_loginv. Qed.

Lemma LogInv_disconnect snap r a : Q a -> Q (disconnect snap r a).
Proof. intros. unfold disconnect. handler_loginv. Qed.

Lemma LogInv_connect snap env a : Q a -> Q (connect snap env a).
Proof. intros. unfold connect, awaiting, readLoop. handler_loginv. Qed.

Lemma LogInv_ws_onclose snap a : Q a -> Q (ws_onclose snap a).
Proof.
  intros. unfold ws_onclose. cbv zeta. case_match.
  - apply LogInv_onRefs, LogInv_setTimeout. eauto 20 with loginv.
  - eauto 20 with loginv.
Qed.

Lemma LogInv_socketEvent ws e a : Q a -> Q (socketEvent ws e a).
Proof.
  intros. unfold socketEvent. destruct (sockets (host a) !! ws); [|assumption].
  destruct e.
  - unfold ws_onopen. handler_loginv.
  - unfold ws_onmessage. handler_loginv.
  - unfold ws_onerror. handler_loginv.
  - apply LogInv_ws_onclose. eauto with loginv.
Qed.

Lemma LogInv_drainLoop snap ans queue a : Q a -> Q (drainLoop snap ans queue a).
Proof.
  revert a. induction queue as [|item rest IH]; intros a Hok; simpl.
  - eauto with loginv.
  - repeat case_match; try apply IH; eauto 20 with loginv.
Qed.

Hint Resolve LogInv_togglePause LogInv_disconnect LogInv_connect LogInv_socketEvent LogInv_drainLoop : loginv.

Lemma LogInv_sendData conv snap input mode ans a : Q a -> Q (sendData conv snap input mode ans a).
Proof. intros. unfold sendData, processSendQueue. handler_loginv. Qed.

Lemma LogInv_fileEnd snap a : Q a -> Q (fileEnd snap a).
Proof. intros. unfold fileEnd. handler_loginv. Qed.

Lemma LogInv_fileCatch err a : Q a -> Q (fileCatch err a).
Proof. intros. unfold fileCatch. handler_loginv. Qed.

Hint Resolve LogInv_sendData LogInv_fileEnd LogInv_fileCatch : loginv.

Lemma LogInv_fileAfterWrite loop job chunk a a' :
  (forall job a a', Q a -> loop job a = Some a' -> Q a') ->
  Q a -> fileAfterWrite loop job chunk a = Some a' -> Q a'.
Proof.
  intros Hloop Hok. unfold fileAfterWrite. cbv zeta. case_match.
  - intros [= <-]. eauto 20 with loginv.
  - apply Hloop. eauto with loginv.
Qed.

Lemma LogInv_fileLoop fuel job a a' : Q a -> fileLoop fuel job a = Some a' -> Q a'.
Proof.
  revert job a a'. induction fuel as [|fuel IH]; intros job a a' Hok; simpl; [discriminate|].
  repeat case_match; try (intros [= <-]; eauto 20 with loginv).
  apply LogInv_fileAfterWrite; eauto with loginv.
Qed.

Lemma LogInv_handleFileSend snap file options ans fuel a a' :
  Q a -> handleFileSend snap file options ans fuel a = Some a' -> Q a'.
Proof.
  intros Hok. unfold handleFileSend. cbv zeta.
  repeat case_match; try (intros [= <-]; eauto 20 with loginv);
    apply LogInv_fileLoop; eauto 20 with loginv.
Qed.

Lemma LogInv_resume i result ans fuel a a' : Q a -> resume i result ans fuel a = Some a' -> Q a'.
Proof.
  intros Hok. unfold resume. case_match; [|intros [= <-]; assumption].
  unfold resumeTask. repeat case_match; try (intros [= <-]; eauto 20 with loginv).
  - apply LogInv_fileAfterWrite; [apply LogInv_fileLoop | eauto with loginv].
  - apply LogInv_fileLoop. eauto with loginv.
Qed.

Lemma LogInv_step e a a' : Q a -> step e a = Some a' -> Q a'.
Proof.
  intros Hok. destruct e; cbn [step]; try (intros [= <-]).
  - eauto with loginv.
  - eauto with loginv.
  - eauto with loginv.
  - eauto with loginv.
  - apply (LogInv_frame a); [reflexivity | assumption].
  - eauto with loginv.
  - apply (LogInv_frame a); [reflexivity | assumption].
  - apply (LogInv_frame a); [reflexivity | assumption].
  - apply (LogInv_frame a); [reflexivity | assumption].
  - eauto with loginv.
  - apply LogInv_handleFileSend. assumption.
  - apply LogInv_resume. assumption.
  - unfold timerFire. repeat case_match; eauto 20 with loginv.
  - eauto with loginv.
  - unfold serialData. repeat case_match; eauto 20 with loginv.
  - unfold characteristicvaluechanged. repeat case_match; eauto 20 with loginv.
  - case_match; intros [= <-]; [|assumption].
    unfold gattserverdisconnected. repeat case_match; eauto 20 with loginv.
Qed.

Lemma LogInv_run es : forall a a', P (logs (ui a)) -> run es a = Some a' -> P (logs (ui a')).
Proof.
  induction es as [|e es IH]; intros a a' Hok; simpl.
  - intros [= <-]. assumption.
  - destruct (step e a) as [a1|] eqn:Hstep; [|discriminate].
    apply IH. eapply LogInv_step; eassumption.
Qed.

End LogInvariant.

Lemma addLogUpdater_count st ceiling ty d newText prev :
  (length prev <= 1000)%nat ->
  (length (addLogUpdater st ceiling ty d newText prev) <= 1000)%nat.
Proof.
  intros Hprev. unfold addLogUpdater.
  set (upd := prev ++ [newLogEntry st ty d newText]).
  assert (Hlen : length upd = S (length prev)).
  { unfold upd. rewrite length_app. simpl. lia. }
  case_bool_decide as Hcount.
  - change (-500) with (- Z.of_nat 500).
    rewrite slice_from_last by lia. rewrite length_drop. lia.
  - case_bool_decide as Hsize; [|lia].
    destruct (evictOldest_spec ceiling upd) as (k & -> & _).
    rewrite length_drop. lia.
Qed.

(** X5. Whatever the user and the host do, the buffer never holds more than
    1000 entries. *)
Theorem reachable_log_count (a : App) :
  Reachable a -> (length (logs (ui a)) <= 1000)%nat.
Proof.
  intros (supply & es & Hrun).
  apply (LogInv_run (fun l => (length l <= 1000)%nat)) with (es := es) (a := initialApp supply).
  - simpl. lia.
  - intros. apply addLogUpdater_count. assumption.
  - simpl. lia.
  - exact Hrun.
Qed.

Lemma reachable_log_count_witness :
  (length (logs (ui (after [Disconnect (Resolved ()); SerialDelivers [x01; x02] "ab"]))) <= 1000)%nat.
Proof.
  apply reachable_log_count. exists supply0.
  exists [Disconnect (Resolved ()); SerialDelivers [x01; x02] "ab"].
  vm_compute. reflexivity.
Defined.

(** ** Receiving *)

(** X6. While the component is paused, what the port, the socket or the
    Bluetooth characteristic delivers is dropped: no run of deliveries
    changes the state, so nothing of it is logged, counted or kept for
    later. *)
Theorem paused_drops_deliveries (es : list Event) (a : App) :
  isPausedRef (refs a) = true ->
  Forall (fun e => isDelivery e = true) es ->
  run es a = Some a.
Proof.
  intros Hpaused Hes. induction Hes as [|e es He _ IH]; [reflexivity|].
  assert (Hstep : step e a = Some a).
  { destruct e as [| | | | | | | | | | | | |ws ev| | |]; try discriminate He; cbn [step].
    - destruct ev; try discriminate He.
      unfold socketEvent, ws_onmessage. rewrite Hpaused.
      destruct (sockets (host a) !! ws); reflexivity.
    - unfold serialData. rewrite Hpaused. reflexivity.
    - unfold characteristicvaluechanged. rewrite Hpaused. reflexivity. }
  cbn [run]. rewrite Hstep. exact IH.
Qed.

Lemma paused_drops_deliveries_witness :
  run [SerialDelivers [x01] "a"; BleNotifies [x02] "b"] (after [Connect okEnv; TogglePause])
  = Some (after [Connect okEnv; TogglePause]).
Proof.
  apply paused_drops_deliveries.
  - reflexivity.
  - repeat constructor.
Defined.

Lemma stream_step e a :
  isPausedRef (refs a) = false -> isStream e = true ->
  exists a',
    step e a = Some a'
    /\ isPausedRef (refs a') = false
    /\ newlineCountRef (refs a') = newlineCountRef (refs a) + countNewlines (receivedText [e]).
Proof.
  intros Hrun He.
  destruct e; try discriminate He; cbn [step receivedText]; rewrite append_empty_r.
  - unfold serialData. rewrite Hrun. cbn [negb]. eexists. split; [reflexivity|].
    rewrite addLog_refs. split; [exact Hrun | reflexivity].
  - unfold characteristicvaluechanged. rewrite Hrun. cbn [negb]. eexists. split; [reflexivity|].
    rewrite addLog_refs. split; [exact Hrun | reflexivity].
Qed.

Lemma receivedText_cons e es :
  isStream e = true -> receivedText (e :: es) = receivedText [e] +:+ receivedText es.
Proof.
  destruct e; try discriminate; intros _; cbn [receivedText];
    rewrite append_empty_r; reflexivity.
Qed.

Lemma stream_run es : forall a,
  isPausedRef (refs a) = false ->
  Forall (fun e => isStream e = true) es ->
  exists a',
    run es a = Some a'
    /\ newlineCountRef (refs a') = newlineCountRef (refs a) + countNewlines (receivedText es).
Proof.
  induction es as [|e es IH]; intros a Hrun Hes.
  - exists a. split; [reflexivity | simpl; lia].
  - apply Forall_cons_1 in Hes as [He Hes].
    destruct (stream_step e a Hrun He) as (a1 & Hstep & Hrun1 & Hcount1).
    destruct (IH a1 Hrun1 Hes) as (a' & Hrest & Hcount).
    exists a'. cbn [run]. rewrite Hstep. split; [exact Hrest|].
    rewrite Hcount, Hcount1, (receivedText_cons e es He), countNewlines_app. lia.
Qed.

(** X7. The line-frequency display shows the number of line feeds in the
    text received since the last reading, however the stream was cut into
    chunks and whatever the buffer evicted meanwhile, and the reading sets
    the counter back to zero. *)
Theorem meter_counts_received_lines (now : Z) (m : Meter) (es : list Event) (a : App) :
  isPausedRef (refs a) = false ->
  newlineCountRef (refs a) = 0 ->
  Forall (fun e => isStream e = true) es ->
  now - lastFrequencyUpdateRef m >= 1000 ->
  exists a',
    run es a = Some a'
    /\ lineFrequency (frequencyTimer now m a').1 = countNewlines (receivedText es)
    /\ lastFrequencyUpdateRef (frequencyTimer now m a').1 = now
    /\ newlineCountRef (refs (frequencyTimer now m a').2) = 0.
Proof.
  intros Hrun Hzero Hes Hdue.
  destruct (stream_run es a Hrun Hes) as (a' & Hrest & Hcount).
  exists a'. split; [exact Hrest|].
  unfold frequencyTimer. cbv zeta. rewrite bool_decide_true by exact Hdue.
  cbn. rewrite Hcount, Hzero. repeat split.
Qed.

Lemma meter_counts_received_lines_witness :
  exists a',
    run [SerialDelivers [x0a; x61] (String "010" "a"); SerialDelivers [x0a] (String "010" "")]
        (initialApp supply0) = Some a'
    /\ lineFrequency
         (frequencyTimer 2000 {| lineFrequency := 0; lastFrequencyUpdateRef := 1000 |} a').1 = 2.
Proof.
  destruct (meter_counts_received_lines 2000 {| lineFrequency := 0; lastFrequencyUpdateRef := 1000 |}
              [SerialDelivers [x0a; x61] (String "010" "a"); SerialDelivers [x0a] (String "010" "")]
              (initialApp supply0))
    as (a' & Hrun & Hfreq & _).
  - reflexivity.
  - reflexivity.
  - repeat constructor.
  - cbn. lia.
  - exists a'. split; [exact Hrun | exact Hfreq].
Defined.

(** ** More on the file transfer *)

(** A transfer that passes the tests at the start of [handleFileSend] logs
    the file and enters the loop with the cursor at 0. *)
Lemma handleFileSend_start snap file options ans write fuel a :
  isPaused snap = false ->
  transportReady snap ans a = Some write ->
  exists writer,
    writeOf snap writer a = Some write
    /\ handleFileSend snap file options ans fuel a
       = fileLoop fuel {| job_snap := snap; job_writer := writer;
                          job_data := file_bytes file; job_options := options;
                          job_sent := 0 |}
           (addLog info emptyBytes ("开始发送文件: " +:+ fileLabel file)
              (addLog tx (file_bytes file) ("文件: " +:+ fileLabel file) a)).
Proof.
  intros Hrun Hready.
  unfold transportReady in Hready. unfold handleFileSend. rewrite Hrun. cbv zeta.
  unfold writeOf in *. destruct (commMode snap).
  - destruct (getWriter ans); [|discriminate].
    destruct (portWritable ans); [|discriminate].
    destruct (port snap) as [p|] eqn:Hport; [|discriminate].
    exists (Some p). split; [exact Hready | reflexivity].
  - destruct (wsOpen ans); [|discriminate].
    destruct (wsRef (refs a)); [|discriminate].
    exists None. split; [exact Hready | reflexivity].
  - destruct (bluetoothCharacteristicRef (refs a)); [|discriminate].
    exists None. split; [exact Hready | reflexivity].
Qed.

Lemma writeOf_addLog snap writer ty d newText a :
  writeOf snap writer (addLog ty d newText a) = writeOf snap writer a.
Proof. unfold writeOf. rewrite addLog_refs. destruct ty; reflexivity. Qed.

(** The uninterrupted run of a transfer comes to its end and adds the trace
    of its chunks. *)
Lemma transfer_runs snap file options ans write fuel rounds a :
  isPaused snap = false ->
  transportReady snap ans a = Some write ->
  suspended (host a) = [] ->
  0 < chunkSizeOf (commMode snap) options ->
  (chunkCount (Z.of_nat (length (file_bytes file))) (chunkSizeOf (commMode snap) options) < fuel)%nat ->
  (2 * chunkCount (Z.of_nat (length (file_bytes file))) (chunkSizeOf (commMode snap) options)
   <= rounds)%nat ->
  exists a',
    transfer snap file options ans fuel rounds a = Some a'
    /\ effects (host a')
       = effects (host a)
         ++ transferTrace write (chunkSizeOf (commMode snap) options) (throttleMs options)
              (file_bytes file)
    /\ suspended (host a') = [].
Proof.
  intros Hrun Hready Hidle Hc Hfuel Hrounds.
  destruct (handleFileSend_start snap file options ans write fuel a Hrun Hready)
    as (writer & Hwrite & Hstart).
  set (c := chunkSizeOf (commMode snap) options) in *.
  set (n := chunkCount _ c) in *.
  set (x := addLog info emptyBytes _ _) in Hstart.
  assert (Hx : suspended (host x) = [] /\ writeOf snap writer x = Some write).
  { split.
    - unfold x. rewrite !addLog_host. exact Hidle.
    - unfold x. rewrite !writeOf_addLog. exact Hwrite. }
  destruct (fromHead_all snap writer (file_bytes file) options ans write Hrun Hc n 0%nat
              ltac:(reflexivity) x fuel fuel rounds ltac:(fold c; lia) ltac:(fold c; lia)
              ltac:(fold c; lia) Hx)
    as (a' & Hfin & Heff & Hsusp).
  exists a'. split; [|split].
  - unfold transfer. rewrite Hstart.
    change (Z.of_nat 0 * c) with 0 in Hfin. rewrite Z.min_l in Hfin by lia. exact Hfin.
  - rewrite Heff. unfold x. rewrite !addLog_host. reflexivity.
  - exact Hsusp.
Qed.

Lemma writeOf_shape snap writer a write :
  writeOf snap writer a = Some write ->
  (forall chunk, transferPayload (write chunk) = chunk)
  /\ (forall chunk, progressOf [write chunk] = []).
Proof.
  unfold writeOf. destruct (commMode snap); intros H.
  - destruct writer; simplify_eq/=. split; reflexivity.
  - destruct (wsRef (refs a)); simplify_eq/=. split; reflexivity.
  - destruct (bluetoothCharacteristicRef (refs a)); simplify_eq/=. split; reflexivity.
Qed.

Lemma transportReady_shape snap ans a write :
  transportReady snap ans a = Some write ->
  (forall chunk, transferPayload (write chunk) = chunk)
  /\ (forall chunk, progressOf [write chunk] = []).
Proof.
  unfold transportReady. intros H.
  destruct (commMode snap) eqn:Hmode; repeat case_match; try discriminate;
    eapply writeOf_shape; exact H.
Qed.

(** The chunks of the first [k] rounds, put together. *)
Lemma chunks_take {A} (c : nat) (l : list A) (k : nat) :
  flat_map (fun i => take c (drop (i * c) l)) (seq 0 k) = take (k * c) l.
Proof.
  induction k as [|k IH]; [reflexivity|].
  rewrite seq_S, flat_map_app, IH. cbn [flat_map plus]. rewrite app_nil_r.
  rewrite take_take_drop. f_equal. lia.
Qed.

Lemma transferred_trace write c ms d (indices : list nat) :
  (forall chunk, transferPayload (write chunk) = chunk) ->
  transferred (flat_map (chunkEffects write c ms d) indices)
  = flat_map (fun i => take (Z.to_nat c) (drop (i * Z.to_nat c) d)) indices.
Proof.
  intros Hw. unfold transferred. induction indices as [|i indices IH]; [reflexivity|].
  cbn [flat_map]. rewrite flat_map_app, IH. f_equal.
  unfold chunkEffects. cbn [app flat_map]. rewrite Hw.
  destruct (_ && _); cbn; rewrite app_nil_r; reflexivity.
Qed.

(** X8. Data integrity of an uninterrupted transfer: the chunks it writes,
    put together in the order of the writes, are the bytes of the file,
    nothing lost, repeated or reordered. *)
Theorem transfer_delivers_file (snap : Render) (file : File) (options : FileOptions)
    (ans : HostAnswers) (write : list byte -> Effect) (fuel rounds : nat) (a : App) :
  isPaused snap = false ->
  transportReady snap ans a = Some write ->
  suspended (host a) = [] ->
  0 < chunkSizeOf (commMode snap) options ->
  (chunkCount (Z.of_nat (length (file_bytes file))) (chunkSizeOf (commMode snap) options) < fuel)%nat ->
  (2 * chunkCount (Z.of_nat (length (file_bytes file))) (chunkSizeOf (commMode snap) options)
   <= rounds)%nat ->
  exists a',
    transfer snap file options ans fuel rounds a = Some a'
    /\ transferred (effects (host a')) = transferred (effects (host a)) ++ file_bytes file.
Proof.
  intros Hrun Hready Hidle Hc Hfuel Hrounds.
  destruct (transfer_runs snap file options ans write fuel rounds a Hrun Hready Hidle Hc
              Hfuel Hrounds) as (a' & Hfin & Heff & _).
  exists a'. split; [exact Hfin|].
  rewrite Heff. unfold transferred at 1. rewrite flat_map_app. f_equal.
  fold (transferred (transferTrace write (chunkSizeOf (commMode snap) options)
                       (throttleMs options) (file_bytes file))).
  unfold transferTrace.
  rewrite transferred_trace by (apply (transportReady_shape snap ans a write Hready)).
  rewrite chunks_take. apply take_ge.
  set (c := chunkSizeOf (commMode snap) options) in *.
  set (total := Z.of_nat (length (file_bytes file))) in *.
  assert (Hn : ~ (chunkCount total c < chunkCount total c)%nat) by lia.
  rewrite chunkCount_lt in Hn by (unfold total; lia).
  apply Nat2Z.inj_le. rewrite Nat2Z.inj_mul, Z2Nat.id by lia. fold total. lia.
Qed.

Lemma transfer_delivers_file_witness :
  exists a',
    transfer (ui (after [Connect okEnv])) fourBytes
      {| throttleBytes := 3; throttleMs := 10 |} up 5 10 (after [Connect okEnv]) = Some a'
    /\ transferred (effects (host a')) = [x01; x02; x03; x04].
Proof.
  destruct (transfer_delivers_file (ui (after [Connect okEnv])) fourBytes
              {| throttleBytes := 3; throttleMs := 10 |} up (SerialWrite FromTransfer 7)
              5 10 (after [Connect okEnv]))
    as (a' & Hrun & Hbytes).
  - reflexivity.
  - reflexivity.
  - reflexivity.
  - reflexivity.
  - vm_compute. lia.
  - vm_compute. lia.
  - exists a'. split; [exact Hrun | exact Hbytes].
Defined.

Lemma roundPercent_range sent total :
  0 < total -> 0 <= sent <= total -> 0 <= roundPercent sent total <= 100.
Proof.
  intros Ht Hs. unfold roundPercent. split.
  - apply Z.div_pos; lia.
  - assert ((200 * sent + total) / (2 * total) < 101) by (apply Z.div_lt_upper_bound; lia).
    lia.
Qed.

Lemma roundPercent_mono sent sent' total :
  0 < total -> sent <= sent' -> roundPercent sent total <= roundPercent sent' total.
Proof. intros Ht Hs. unfold roundPercent. apply Z.div_le_mono; lia. Qed.

Lemma progressOf_trace write c ms d (indices : list nat) :
  (forall chunk, progressOf [write chunk] = []) ->
  progressOf (flat_map (chunkEffects write c ms d) indices)
  = map (fun i : nat => roundPercent (Z.min ((Z.of_nat i + 1) * c) (Z.of_nat (length d)))
                          (Z.of_nat (length d))) indices.
Proof.
  intros Hw. unfold progressOf in *. induction indices as [|i indices IH]; [reflexivity|].
  cbn [flat_map map]. rewrite omap_app, IH.
  f_equal. unfold chunkEffects. rewrite omap_app.
  change [write ?w; ?p] with ([write w] ++ [p]). rewrite omap_app, Hw.
  destruct (_ && _); reflexivity.
Qed.



(** *** A chunk size of zero *)

Section ZeroChunk.

Variables (snap : Render) (writer : option SerialPort) (d : list byte)
          (options : FileOptions) (ans : HostAnswers) (write : list byte -> Effect).

Hypothesis running : isPaused snap = false.
Hypothesis zero_chunk : chunkSizeOf (commMode snap) options = 0.
Hypothesis some_data : d <> [].

(** The job of the transfer; its cursor stays at 0. *)
Let job0 : FileJob :=
  {| job_snap := snap; job_writer := writer; job_data := d; job_options := options;
     job_sent := 0 |}.

Let ready (x : App) : Prop := writeOf snap writer x = Some write.

(** The loop is parked on the write of an empty chunk or on its delay. *)
Let parked (x : App) : Prop :=
  ready x
  /\ (suspended (host x) = [FileAwaitingWrite job0 []] \/ suspended (host x) = [FileSleeping job0]).

(** A result of the loop: it is still going round, or parked again. *)
Let stuck (r : option App) : Prop :=
  match r with
  | Some x' => parked x'
  | None => True
  end.

Lemma zero_fileAfterWrite fuel x :
  (forall y, ready y -> suspended (host y) = [] -> stuck (fileLoop fuel job0 y)) ->
  ready x -> suspended (host x) = [] ->
  stuck (fileAfterWrite (fileLoop fuel) job0 [] x).
Proof.
  intros IH Hready Hidle. unfold fileAfterWrite. cbv zeta.
  change (with_job_sent (job_sent job0 + Z.of_nat (length (@nil byte))) job0) with job0.
  case_match.
  - split; [exact Hready|]. right. cbn. rewrite Hidle. reflexivity.
  - apply IH; [exact Hready | exact Hidle].
Qed.

Lemma zero_fileLoop fuel : forall x,
  ready x -> suspended (host x) = [] -> stuck (fileLoop fuel job0 x).
Proof.
  induction fuel as [|fuel IH]; intros x Hready Hidle; [exact I|].
  cbn [fileLoop]. cbn [job0 job_snap job_data job_sent job_options job_writer].
  rewrite bool_decide_true by (destruct d; [congruence | simpl; lia]).
  rewrite running, zero_chunk.
  assert (Hchunk : slice 0 (0 + 0) d = []).
  { unfold slice, relIndex. repeat case_bool_decide; try lia.
    rewrite !Z.min_l by lia. reflexivity. }
  rewrite Hchunk. fold job0.
  pose proof Hready as Hw. unfold ready, writeOf in Hw.
  destruct (commMode snap).
  - destruct writer as [p|]; [|discriminate].
    split; [exact Hready|]. left. cbn. rewrite Hidle. reflexivity.
  - destruct (wsRef (refs x)) as [ws|]; [|discriminate].
    apply zero_fileAfterWrite; [exact IH | exact Hready | exact Hidle].
  - destruct (bluetoothCharacteristicRef (refs x)) as [c|]; [|discriminate].
    split; [exact Hready|]. left. cbn. rewrite Hidle. reflexivity.
Qed.

Lemma zero_settle rounds fuel : forall x, parked x -> settle rounds ans fuel x = None.
Proof.
  induction rounds as [|rounds IH]; intros x [Hready Hpark].
  - destruct Hpark as [Hs|Hs]; simpl; rewrite Hs; reflexivity.
  - assert (Hgo : forall t, suspended (host x) = [t] ->
                    ready (unpark 0 x) /\ suspended (host (unpark 0 x)) = []).
    { intros t Hs. split; [exact Hready|]. cbn. rewrite Hs. reflexivity. }
    destruct Hpark as [Hs|Hs]; destruct (Hgo _ Hs) as [Hready' Hidle'];
      simpl; unfold resume; rewrite Hs; cbn [lookup list_lookup resumeTask].
    + pose proof (zero_fileAfterWrite fuel (unpark 0 x) (zero_fileLoop fuel) Hready' Hidle') as Hst.
      destruct (fileAfterWrite _ _ _ _) as [x'|]; [apply IH; exact Hst | reflexivity].
    + pose proof (zero_fileLoop fuel (unpark 0 x) Hready' Hidle') as Hst.
      destruct (fileLoop _ _ _) as [x'|]; [apply IH; exact Hst | reflexivity].
Qed.

Lemma zero_never_ends fuel rounds x :
  ready x -> suspended (host x) = [] ->
  match fileLoop fuel job0 x with
  | Some x' => settle rounds ans fuel x'
  | None => None
  end = None.
Proof.
  intros Hready Hidle. pose proof (zero_fileLoop fuel x Hready Hidle) as Hst.
  destruct (fileLoop _ _ _) as [x'|]; [apply zero_settle; exact Hst | reflexivity].
Qed.

End ZeroChunk.

(** X10. With a chunk size of zero (the field of the sender takes any
    number) the transfer of a non-empty file never comes to its end: the
    cursor stays at 0, so however long the loop runs and however many writes
    and delays resolve, the run is not finished. *)
Theorem zero_chunk_never_completes (snap : Render) (file : File) (options : FileOptions)
    (ans : HostAnswers) (write : list byte -> Effect) (a : App) :
  isPaused snap = false ->
  transportReady snap ans a = Some write ->
  suspended (host a) = [] ->
  file_bytes file <> [] ->
  chunkSizeOf (commMode snap) options = 0 ->
  forall fuel rounds, transfer snap file options ans fuel rounds a = None.
Proof.
  intros Hrun Hready Hidle Hd Hc fuel rounds.
  destruct (handleFileSend_start snap file options ans write fuel a Hrun Hready)
    as (writer & Hwrite & Hstart).
  unfold transfer. rewrite Hstart.
  apply (zero_never_ends snap writer (file_bytes file) options ans write Hrun Hc Hd).
  - rewrite !writeOf_addLog. exact Hwrite.
  - rewrite !addLog_host. exact Hidle.
Qed.

Lemma zero_chunk_never_completes_witness :
  transfer (ui (after [Connect okEnv])) fourBytes
    {| throttleBytes := 0; throttleMs := 10 |} up 50 50 (after [Connect okEnv]) = None.
Proof.
  apply (zero_chunk_never_completes (ui (after [Connect okEnv])) fourBytes
           {| throttleBytes := 0; throttleMs := 10 |} up (SerialWrite FromTransfer 7)).
  - reflexivity.
  - reflexivity.
  - reflexivity.
  - discriminate.
  - reflexivity.
Defined.

(** An append of an entry that is not an [error] adds no error to the
    buffer. *)
Lemma countErrors_addLog ty d newText a :
  ty <> error ->
  (countErrors (logs (ui (addLog ty d newText a))) <= countErrors (logs (ui a)))%nat.
Proof.
  intros Hty. destruct (addLog_kept ty d newText a) as (kept & [dropped Hsuf] & ->).
  rewrite Hsuf. unfold countErrors. rewrite !filter_app, !length_app.
  rewrite filter_cons, decide_False by exact Hty. simpl. lia.
Qed.

(** X11. An empty file is sent without a write and without a progress
    report: the transfer logs the file and its start and is through at
    once, the last entry of the buffer reporting completion. *)
Theorem empty_file_transfer (snap : Render) (file : File) (options : FileOptions)
    (ans : HostAnswers) (write : list byte -> Effect) (fuel : nat) (a : App) :
  isPaused snap = false ->
  transportReady snap ans a = Some write ->
  file_bytes file = [] ->
  exists a',
    handleFileSend snap file options ans (S fuel) a = Some a'
    /\ effects (host a') = effects (host a)
    /\ suspended (host a') = suspended (host a)
    /\ (exists l, last (logs (ui a')) = Some l /\ type l = info /\ text l = "文件发送完毕")
    /\ (countErrors (logs (ui a')) <= countErrors (logs (ui a)))%nat.
Proof.
  intros Hrun Hready Hd.
  destruct (handleFileSend_start snap file options ans write (S fuel) a Hrun Hready)
    as (writer & _ & Hstart).
  rewrite Hstart. cbn [fileLoop job_data job_sent job_snap]. rewrite Hd.
  rewrite bool_decide_false by (simpl; lia).
  unfold fileEnd. rewrite Hrun. cbn [negb].
  eexists. split; [reflexivity|].
  rewrite !addLog_host. split; [reflexivity|]. split; [reflexivity|]. split.
  - rewrite addLog_last. eexists. split; [reflexivity|]. split; reflexivity.
  - etrans; [apply countErrors_addLog; discriminate|].
    etrans; [apply countErrors_addLog; discriminate|].
    apply countErrors_addLog. discriminate.
Qed.

Lemma empty_file_transfer_witness :
  exists a',
    handleFileSend (ui (after [Connect okEnv])) {| file_name := "empty"; file_bytes := [] |}
      {| throttleBytes := 128; throttleMs := 10 |} up 1 (after [Connect okEnv]) = Some a'
    /\ effects (host a') = effects (host (after [Connect okEnv])).
Proof.
  destruct (empty_file_transfer (ui (after [Connect okEnv]))
              {| file_name := "empty"; file_bytes := [] |}
              {| throttleBytes := 128; throttleMs := 10 |} up (SerialWrite FromTransfer 7)
              0 (after [Connect okEnv]))
    as (a' & Hrun & Heff & _).
  - reflexivity.
  - reflexivity.
  - reflexivity.
  - exists a'. split; [exact Hrun | exact Heff].
Defined.

(** ** More on the send queue *)

Lemma drainLoop_websocket snap ans ws queue : forall a,
  commMode snap = WebSocket -> wsRef (refs a) = Some ws -> wsOpen ans = true ->
  effects (host (drainLoop snap ans queue a)) = effects (host a) ++ map (frameOf ws) queue
  /\ suspended (host (drainLoop snap ans queue a)) = suspended (host a)
  /\ isSendingRef (refs (drainLoop snap ans queue a)) = false
  /\ (queue <> [] -> sendQueueRef (refs (drainLoop snap ans queue a)) = []).
Proof.
  induction queue as [|item rest IH]; intros a Hmode Hws Hopen.
  - cbn. rewrite app_nil_r. repeat split. congruence.
  - cbn [drainLoop]. rewrite Hmode.
    change (wsRef (refs (onRefs (with_sendQueueRef rest) a))) with (wsRef (refs a)).
    rewrite Hws, Hopen.
    set (x := match q_mode item with
              | Hex => perform (WsSendBinary FromQueue ws (q_data item)) _
              | Text => perform (WsSendText ws (q_text item)) _
              end).
    assert (Hx : wsRef (refs x) = Some ws /\ sendQueueRef (refs x) = rest
                 /\ effects (host x) = effects (host a) ++ [frameOf ws item]
                 /\ suspended (host x) = suspended (host a)).
    { unfold x, frameOf. destruct (q_mode item); repeat split; exact Hws. }
    destruct Hx as (Hws' & Hq & Heff & Hsusp).
    destruct (IH x Hmode Hws' Hopen) as (IHeff & IHsusp & IHsend & IHq).
    rewrite IHeff, IHsusp, Heff, Hsusp, <- app_assoc. repeat split; [exact IHsend|].
    intros _. destruct rest as [|item' rest']; [exact Hq | apply IHq; discriminate].
Qed.

(** X12. On an open WebSocket [sendData] sends at once: the call returns
    with the queue empty and nothing parked, having sent one frame per queued
    item in the order of the queue, the new item last; an item sent in text
    mode goes out as a text frame, one in hex mode as a binary frame. *)
Theorem websocket_send_is_immediate (conv : Converters) (snap : Render) (input : string)
    (mode : DisplayMode) (ans : HostAnswers) (ws : Socket) (a : App) :
  isPaused snap = false ->
  commMode snap = WebSocket ->
  wsRef (refs a) = Some ws ->
  wsOpen ans = true ->
  isSendingRef (refs a) = false ->
  effects (host (sendData conv snap input mode ans a))
  = effects (host a) ++ map (frameOf ws) (sendQueueRef (refs a) ++ [itemOf conv input mode])
  /\ sendQueueRef (refs (sendData conv snap input mode ans a)) = []
  /\ isSendingRef (refs (sendData conv snap input mode ans a)) = false
  /\ suspended (host (sendData conv snap input mode ans a)) = suspended (host a).
Proof.
  intros Hrun Hmode Hws Hopen Hidle.
  rewrite sendData_running by exact Hrun.
  set (item := itemOf conv input mode).
  set (x := onRefs _ (addLog tx _ _ a)).
  assert (Hx : wsRef (refs x) = Some ws /\ isSendingRef (refs x) = false
               /\ sendQueueRef (refs x) = sendQueueRef (refs a) ++ [item]
               /\ effects (host x) = effects (host a)
               /\ suspended (host x) = suspended (host a)).
  { unfold x. cbn. repeat split; assumption. }
  destruct Hx as (Hws' & Hidle' & Hq & Heff & Hsusp).
  unfold processSendQueue. rewrite Hidle', Hq.
  rewrite bool_decide_false by (rewrite length_app; simpl; lia). cbn [orb].
  change (sendQueueRef (refs (onRefs (with_isSendingRef true) x))) with (sendQueueRef (refs x)).
  rewrite Hq.
  destruct (drainLoop_websocket snap ans ws (sendQueueRef (refs a) ++ [item])
              (onRefs (with_isSendingRef true) x) Hmode Hws' Hopen)
    as (Deff & Dsusp & Dsend & Dq).
  rewrite Deff, Dsusp. split; [rewrite <- Heff; reflexivity|].
  split; [apply Dq; intros H; apply app_eq_nil in H as [_ H]; discriminate|].
  split; [exact Dsend | exact Hsusp].
Qed.

Lemma websocket_send_is_immediate_witness :
  effects (host (sendData plainConverters (ui (after connected)) "hi" Text up (after connected)))
  = effects (host (after connected)) ++ [WsSendText 0 "hi"].
Proof.
  refine (proj1 (websocket_send_is_immediate plainConverters (ui (after connected)) "hi" Text up
                   0%nat (after connected) _ _ _ _ _)); reflexivity.
Defined.

Lemma drainLoop_noTransport snap ans queue : forall a,
  noTransport snap ans a ->
  effects (host (drainLoop snap ans queue a)) = effects (host a)
  /\ suspended (host (drainLoop snap ans queue a)) = suspended (host a)
  /\ logs (ui (drainLoop snap ans queue a)) = logs (ui a)
  /\ isSendingRef (refs (drainLoop snap ans queue a)) = false
  /\ (queue <> [] -> sendQueueRef (refs (drainLoop snap ans queue a)) = []).
Proof.
  induction queue as [|item rest IH]; intros a Hno.
  - cbn. repeat split. congruence.
  - assert (Hnext : drainLoop snap ans (item :: rest) a
                    = drainLoop snap ans rest (onRefs (with_sendQueueRef rest) a)).
    { cbn [drainLoop]. unfold noTransport in Hno. destruct (commMode snap).
      - destruct Hno as [-> | Hw]; [reflexivity|].
        destruct (port snap); [|reflexivity]. rewrite Hw. reflexivity.
      - change (wsRef (refs (onRefs (with_sendQueueRef rest) a))) with (wsRef (refs a)).
        destruct Hno as [-> | Hw]; [reflexivity|].
        destruct (wsRef (refs a)); [|reflexivity]. rewrite Hw. reflexivity.
      - change (bluetoothCharacteristicRef (refs (onRefs (with_sendQueueRef rest) a)))
          with (bluetoothCharacteristicRef (refs a)).
        rewrite Hno. reflexivity. }
    rewrite Hnext.
    destruct (IH (onRefs (with_sendQueueRef rest) a)) as (Heff & Hsusp & Hlogs & Hsend & Hq).
    { exact Hno. }
    rewrite Heff, Hsusp, Hlogs. repeat split; [exact Hsend|].
    intros _. destruct rest as [|item' rest']; [reflexivity | apply Hq; discriminate].
Qed.

(** X13. Without a transport [sendData] still logs the data as sent: the
    buffer gets the [tx] entry and nothing else, the item is taken off the
    queue and dropped, nothing is written and no error is reported. *)
Theorem send_without_transport (conv : Converters) (snap : Render) (input : string)
    (mode : DisplayMode) (ans : HostAnswers) (a : App) :
  isPaused snap = false ->
  noTransport snap ans a ->
  isSendingRef (refs a) = false ->
  effects (host (sendData conv snap input mode ans a)) = effects (host a)
  /\ suspended (host (sendData conv snap input mode ans a)) = suspended (host a)
  /\ sendQueueRef (refs (sendData conv snap input mode ans a)) = []
  /\ logs (ui (sendData conv snap input mode ans a))
     = logs (ui (addLog tx (q_data (itemOf conv input mode)) (q_text (itemOf conv input mode)) a)).
Proof.
  intros Hrun Hno Hidle.
  rewrite sendData_running by exact Hrun.
  set (item := itemOf conv input mode).
  set (x := onRefs _ (addLog tx _ _ a)).
  assert (Hx : noTransport snap ans (onRefs (with_isSendingRef true) x)
               /\ isSendingRef (refs x) = false
               /\ sendQueueRef (refs x) = sendQueueRef (refs a) ++ [item]
               /\ effects (host x) = effects (host a)
               /\ suspended (host x) = suspended (host a)).
  { unfold x. cbn. repeat split; assumption. }
  destruct Hx as (Hno' & Hidle' & Hq & Heff & Hsusp).
  unfold processSendQueue. rewrite Hidle', Hq.
  rewrite bool_decide_false by (rewrite length_app; simpl; lia). cbn [orb].
  change (sendQueueRef (refs (onRefs (with_isSendingRef true) x))) with (sendQueueRef (refs x)).
  rewrite Hq.
  destruct (drainLoop_noTransport snap ans (sendQueueRef (refs a) ++ [item])
              (onRefs (with_isSendingRef true) x) Hno')
    as (Deff & Dsusp & Dlogs & _ & Dq).
  rewrite Deff, Dsusp, Dlogs. split; [exact Heff|]. split; [exact Hsusp|].
  split; [|reflexivity].
  apply Dq. intros H. apply app_eq_nil in H as [_ H]. discriminate.
Qed.

Lemma send_without_transport_witness :
  effects (host (sendData plainConverters (ui (initialApp supply0)) "hi" Text up
                   (initialApp supply0))) = []
  /\ map type (logs (ui (sendData plainConverters (ui (initialApp supply0)) "hi" Text up
                           (initialApp supply0)))) = [tx].
Proof.
  destruct (send_without_transport plainConverters (ui (initialApp supply0)) "hi" Text up
              (initialApp supply0)) as (Heff & _ & _ & Hlogs).
  - reflexivity.
  - left. reflexivity.
  - reflexivity.
  - split; [exact Heff|]. rewrite Hlogs. reflexivity.
Defined.

Lemma connect_serial_ok env p a :
  commMode (ui a) = Serial ->
  hasSerial env = true -> requestPort env = Resolved p -> openPort env = Resolved () ->
  connect (ui a) env a
  = onRefs (with_readerRef (Some p))
      (addLog info emptyBytes ("已连接: " +:+ pretty (baudRate (ui a)) +:+ " bps")
         (onRefs (with_keepReadingRef true) (setIsConnected true (setPort (Some p) a)))).
Proof.
  intros Hmode Hserial Hport Hopen. unfold connect, awaiting, readLoop.
  rewrite Hmode, Hserial, Hport, Hopen. cbn [negb]. cbv zeta.
  rewrite addLog_refs. reflexivity.
Qed.

(** X14. A serial session and its end. A [connect] whose host calls resolve
    stores the port, takes its reader and sets [isConnected]. The
    [disconnect] of the render that follows cancels the reader and then
    closes the port, in this order, and clears the port, the reader and the
    two flags; but when [reader.cancel()] rejects, [disconnect] stops there:
    the port is not closed and the component still shows connected, with
    [keepReadingRef] down. *)
Theorem serial_session_release (env : ConnectEnv) (p : nat) (r : Outcome ()) (a : App) :
  commMode (ui a) = Serial ->
  hasSerial env = true -> requestPort env = Resolved p -> openPort env = Resolved () ->
  let a1 := connect (ui a) env a in
  let a2 := disconnect (ui a1) r a1 in
  (port (ui a1) = Some p /\ isConnected (ui a1) = true /\ readerRef (refs a1) = Some p
   /\ effects (host a1) = effects (host a))
  /\ keepReadingRef (refs a2) = false
  /\ match r with
     | Resolved _ =>
         effects (host a2) = effects (host a) ++ [ReaderCancel p; PortClose p]
         /\ port (ui a2) = None /\ readerRef (refs a2) = None
         /\ isConnected (ui a2) = false /\ isPaused (ui a2) = false
     | Rejected _ =>
         effects (host a2) = effects (host a) ++ [ReaderCancel p]
         /\ port (ui a2) = Some p /\ readerRef (refs a2) = Some p
         /\ isConnected (ui a2) = true
     end.
Proof.
  intros Hmode Hserial Hport Hopen a1 a2.
  assert (Ha1 : a1 = _) by (apply connect_serial_ok; eassumption).
  assert (H1 : port (ui a1) = Some p /\ isConnected (ui a1) = true /\ readerRef (refs a1) = Some p
               /\ effects (host a1) = effects (host a) /\ commMode (ui a1) = Serial).
  { rewrite Ha1. cbn. repeat split. exact Hmode. }
  destruct H1 as (Hp & Hc & Hr & He & Hm).
  split; [repeat split; assumption|].
  unfold a2, disconnect. rewrite Hm.
  change (readerRef (refs (onRefs (with_keepReadingRef false) a1))) with (readerRef (refs a1)).
  rewrite Hr, Hp. destruct r as [[]|err]; cbn; rewrite He; repeat split; try assumption.
  rewrite <- app_assoc. reflexivity.
Qed.

Lemma serial_session_release_witness :
  effects (host (after [Connect okEnv; Disconnect (Resolved ())]))
  = [ReaderCancel 7; PortClose 7].
Proof.
  destruct (serial_session_release okEnv 7 (Resolved ()) (initialApp supply0))
    as (_ & _ & Heff & _); [reflexivity.. | exact Heff].
Defined.

(** X15. [connect] reports a connection only when every host call it awaits
    has succeeded: if the component is connected after a [connect] and was
    not before, the branch of the render ran to its end. A failed or
    abandoned [connect], and every [connect] in WebSocket mode, leaves
    [isConnected] as it was. *)
Theorem connect_reports_success_only (snap : Render) (env : ConnectEnv) (a : App) :
  isConnected (ui a) = false ->
  isConnected (ui (connect snap env a)) = true ->
  connectSucceeds snap env.
Proof.
  intros Hdown. unfold connect, connectSucceeds, awaiting, readLoop.
  destruct (commMode snap).
  - destruct (hasSerial env); cbn [negb]; [|cbn; congruence].
    destruct (requestPort env) as [p|]; [|cbn; congruence].
    destruct (openPort env) as [[]|]; [|cbn; congruence].
    intros _. split; [reflexivity|]. split; [eexists|]; reflexivity.
  - destruct (String.eqb (wsUrl snap) ""); [cbn; congruence|].
    destruct (newWebSocket env); cbn; congruence.
  - destruct (hasBluetooth env); cbn [negb]; [|cbn; congruence].
    destruct (String.eqb (bluetoothServiceUUID snap) "") eqn:Hs; [cbn; congruence|].
    destruct (String.eqb (bluetoothCharacteristicUUID snap) "") eqn:Hc; [cbn; congruence|].
    cbn [orb].
    destruct (requestDevice env) as [[name [|]]|]; [| cbn; congruence | cbn; congruence].
    cbn [gatt].
    destruct (gattConnect env) as [[]|]; [|cbn; congruence].
    destruct (getPrimaryService env) as [[]|]; [|cbn; congruence].
    destruct (getCharacteristic env) as [c|]; [|cbn; congruence].
    destruct (startNotifications env) as [[]|]; [|cbn; congruence].
    intros _. apply String.eqb_neq in Hs, Hc.
    repeat split; try assumption; eexists; try split; reflexivity.
Qed.

Lemma connect_reports_success_only_witness :
  connectSucceeds (ui (initialApp supply0)) okEnv.
Proof.
  apply (connect_reports_success_only (ui (initialApp supply0)) okEnv (initialApp supply0));
    reflexivity.
Defined.

Lemma ws_onclose_effects snap a : effects (host (ws_onclose snap a)) = effects (host a).
Proof.
  unfold ws_onclose. cbv zeta. case_match.
  - unfold setTimeout. cbv beta iota zeta. cbn [host onRefs with_refs onHost with_host].
    rewrite !addLog_host. reflexivity.
  - rewrite !addLog_host. reflexivity.
Qed.

Lemma connect_socket_effects snap env a :
  socketRender snap ->
  effects (host (connect snap env a)) = effects (host a) ++ [NewWebSocket (wsUrl snap)]
  /\ wsUrl (ui (connect snap env a)) = wsUrl (ui a).
Proof.
  intros [Hmode Hurl]. unfold connect. rewrite Hmode.
  apply String.eqb_neq in Hurl. rewrite Hurl. cbv zeta.
  destruct (newWebSocket env); [split; reflexivity|].
  rewrite addLog_host. split; reflexivity.
Qed.

(** X16. A reconnect goes to the address of the [connect] that made the
    socket, not to the address the field shows when the timer comes due: the
    field can be edited while the component waits to reconnect, and the edit
    has no effect on the attempt. *)
Theorem reconnect_uses_original_url (a : App) (ws : nat) (snap : Render) (url : string)
    (env : ConnectEnv) :
  Reachable a ->
  sockets (host a) !! ws = Some snap ->
  shouldReconnectRef (refs a) = true ->
  exists a',
    run [SocketDelivers ws SocketClose; SetWsUrl url; TimerFire (nextTimer (host a)) env] a
    = Some a'
    /\ effects (host a') = effects (host a) ++ [NewWebSocket (wsUrl snap)]
    /\ wsUrl (ui a') = url.
Proof.
  intros Hreach Hws Hflag.
  apply Reachable_HostInv in Hreach as (_ & Hsocks & _).
  pose proof (Hsocks ws snap Hws) as Hsock.
  set (a0 := onHost (fun h => with_sockets (delete ws (sockets h)) h) a).
  assert (Hclose : socketEvent ws SocketClose a = ws_onclose snap a0).
  { unfold socketEvent. rewrite Hws. reflexivity. }
  destruct (ws_onclose_schedules snap a0 Hflag (proj1 Hsock)) as (Ht & _).
  change (timers (host a0)) with (timers (host a)) in Ht.
  change (nextTimer (host a0)) with (nextTimer (host a)) in Ht.
  pose proof (ws_onclose_effects snap a0) as Heff.
  change (effects (host a0)) with (effects (host a)) in Heff.
  eexists. split; [reflexivity|].
  rewrite Hclose. unfold timerFire.
  change (timers (host (onUi (with_wsUrl url) (ws_onclose snap a0))))
    with (timers (host (ws_onclose snap a0))).
  rewrite Ht, lookup_insert_eq.
  set (x := clearTimeout _ _).
  destruct (connect_socket_effects snap env x Hsock) as (He & Hu).
  rewrite He, Hu. split; [|reflexivity].
  change (effects (host x)) with (effects (host (ws_onclose snap a0))).
  rewrite Heff. reflexivity.
Qed.

Lemma reconnect_uses_original_url_witness :
  exists a',
    run [SocketDelivers 0 SocketClose; SetWsUrl "ws://other"; TimerFire 1 okEnv] (after connected)
    = Some a'
    /\ last (effects (host a')) = Some (NewWebSocket "ws://localhost:8080")
    /\ wsUrl (ui a') = "ws://other".
Proof.
  destruct (reconnect_uses_original_url (after connected) 0 (ui (after [SetCommMode WebSocket]))
              "ws://other" okEnv) as (a' & Hrun & Heff & Hurl).
  - exists supply0, connected. vm_compute. reflexivity.
  - vm_compute. reflexivity.
  - reflexivity.
  - exists a'. split; [exact Hrun|]. split; [|exact Hurl].
    rewrite Heff. apply last_snoc.
Defined.

(** ** More on connect and disconnect *)

(** [connect] registers at most one [gattserverdisconnected] listener, that
    of its own render. *)
Lemma connect_gattListeners snap env a :
  gattListeners (host (connect snap env a)) = gattListeners (host a)
  \/ gattListeners (host (connect snap env a)) = gattListeners (host a) ++ [snap].
Proof.
  unfold connect, awaiting, readLoop.
  repeat case_match; cbn; auto.
Qed.

(** X17. The [gattserverdisconnected] listener tests the [isConnected] of
    the render that started the [connect]. A [connect] started while the
    component is not connected (the only state in which the connect button
    is shown) therefore registers a listener that never does anything: when
    the device goes away, [isConnected], [isPaused] and the Bluetooth refs
    stay as they are and nothing is logged. *)
Theorem stale_gatt_listener (env : ConnectEnv) (a : App) (i : nat) (listener : Render) :
  isConnected (ui a) = false ->
  gattListeners (host a) !! i = None ->
  gattListeners (host (connect (ui a) env a)) !! i = Some listener ->
  forall x, gattListeners (host x) !! i = Some listener -> step (GattDisconnected i) x = Some x.
Proof.
  intros Hdown Hnew Hreg x Hx.
  assert (Hl : listener = ui a).
  { destruct (connect_gattListeners (ui a) env a) as [Heq|Heq]; rewrite Heq in Hreg.
    - congruence.
    - apply lookup_app_Some in Hreg as [Hold | [_ Hin]]; [congruence|].
      apply list_lookup_singleton_Some in Hin as [_ <-]. reflexivity. }
  cbn [step]. rewrite Hx, Hl. unfold gattserverdisconnected. rewrite Hdown, andb_false_r.
  reflexivity.
Qed.

(** After a Bluetooth [connect] with every host call resolved the component
    shows connected, and the loss of the device leaves it so. *)
Lemma stale_gatt_listener_witness :
  isConnected (ui (after [SetCommMode Bluetooth; SetBluetoothServiceUUID "s";
                          SetBluetoothCharacteristicUUID "c"; Connect okEnv])) = true
  /\ step (GattDisconnected 0)
          (after [SetCommMode Bluetooth; SetBluetoothServiceUUID "s";
                  SetBluetoothCharacteristicUUID "c"; Connect okEnv])
     = Some (after [SetCommMode Bluetooth; SetBluetoothServiceUUID "s";
                    SetBluetoothCharacteristicUUID "c"; Connect okEnv]).
Proof.
  split; [reflexivity|].
  apply (stale_gatt_listener okEnv
           (after [SetCommMode Bluetooth; SetBluetoothServiceUUID "s";
                   SetBluetoothCharacteristicUUID "c"])
           0%nat
           (ui (after [SetCommMode Bluetooth; SetBluetoothServiceUUID "s";
                       SetBluetoothCharacteristicUUID "c"]))).
  - reflexivity.
  - reflexivity.
  - reflexivity.
  - reflexivity.
Defined.

(** ** The pause flag *)

Section Pause.

Implicit Types (a : App) (snap : Render).

Create HintDb pause.
Hint Constants Opaque : pause.

Lemma PC_frame a a' :
  isPaused (ui a') = isPaused (ui a) -> isConnected (ui a') = isConnected (ui a) ->
  PausedConnected a -> PausedConnected a'.
Proof. unfold PausedConnected. intros -> ->. trivial. Qed.

Lemma PC_onRefs f a : PausedConnected a -> PausedConnected (onRefs f a).
Proof. apply PC_frame; reflexivity. Qed.
Lemma PC_onHost f a : PausedConnected a -> PausedConnected (onHost f a).
Proof. apply PC_frame; reflexivity. Qed.
Lemma PC_perform e a : PausedConnected a -> PausedConnected (perform e a).
Proof. apply PC_frame; reflexivity. Qed.
Lemma PC_suspend t a : PausedConnected a -> PausedConnected (suspend t a).
Proof. apply PC_frame; reflexivity. Qed.
Lemma PC_unpark i a : PausedConnected a -> PausedConnected (unpark i a).
Proof. apply PC_frame; reflexivity. Qed.
Lemma PC_clearTimeout t a : PausedConnected a -> PausedConnected (clearTimeout t a).
Proof. apply PC_frame; reflexivity. Qed.
Lemma PC_setTimeout cb ms a : PausedConnected a -> PausedConnected (setTimeout cb ms a).2.
Proof. apply PC_frame; reflexivity. Qed.
Lemma PC_setPort v a : PausedConnected a -> PausedConnected (setPort v a).
Proof. apply PC_frame; reflexivity. Qed.
Lemma PC_setIsReconnecting v a : PausedConnected a -> PausedConnected (setIsReconnecting v a).
Proof. apply PC_frame; reflexivity. Qed.
Lemma PC_setMaxBufferSize v a : PausedConnected a -> PausedConnected (setMaxBufferSize v a).
Proof. apply PC_frame; reflexivity. Qed.
Lemma PC_clearLogs a : PausedConnected a -> PausedConnected (clearLogs a).
Proof. apply PC_frame; reflexivity. Qed.
Lemma PC_addLog ty d newText a : PausedConnected a -> PausedConnected (addLog ty d newText a).
Proof. apply PC_frame; destruct ty; reflexivity. Qed.

(** The two ways the flags move: [isConnected] goes up, or [isPaused] goes
    down, which every path that takes [isConnected] down does next. *)
Lemma PC_connected a : PausedConnected a -> PausedConnected (setIsConnected true a).
Proof. intros _ _. reflexivity. Qed.
Lemma PC_resumed a : PausedConnected (setIsPaused false a).
Proof. intros H. discriminate H. Qed.

Hint Resolve PC_onRefs PC_onHost PC_perform PC_suspend PC_unpark PC_clearTimeout PC_setPort
  PC_setIsReconnecting PC_setMaxBufferSize PC_clearLogs PC_addLog PC_connected PC_resumed : pause.

Ltac handler_pause :=
  cbv zeta; repeat case_match; subst; simplify_eq; eauto 40 with pause.

(** [togglePause] of the current render: it pauses a connected component
    only. *)
Lemma PC_togglePause a : PausedConnected a -> PausedConnected (togglePause (ui a) a).
Proof.
  intros Hinv. unfold togglePause.
  destruct (isConnected (ui a)) eqn:Hc; [|exact Hinv]. cbn [negb].
  assert (Hset : forall v, PausedConnected (setIsPaused v a)) by (intros v _; exact Hc).
  destruct (negb (isPaused (ui a))); apply PC_addLog, Hset.
Qed.

Lemma PC_disconnect snap r a : PausedConnected a -> PausedConnected (disconnect snap r a).
Proof. intros. unfold disconnect. handler_pause. Qed.

Lemma PC_connect snap env a : PausedConnected a -> PausedConnected (connect snap env a).
Proof. intros. unfold connect, awaiting, readLoop. handler_pause. Qed.

Lemma PC_ws_onclose snap a : PausedConnected (ws_onclose snap a).
Proof.
  unfold ws_onclose. cbv zeta. case_match.
  - apply PC_onRefs, PC_setTimeout. eauto 20 with pause.
  - eauto 20 with pause.
Qed.

Lemma PC_socketEvent ws e a : PausedConnected a -> PausedConnected (socketEvent ws e a).
Proof.
  intros. unfold socketEvent. destruct (sockets (host a) !! ws); [|assumption].
  destruct e.
  - unfold ws_onopen. handler_pause.
  - unfold ws_onmessage. handler_pause.
  - unfold ws_onerror. handler_pause.
  - apply PC_ws_onclose.
Qed.

Lemma PC_drainLoop snap ans queue a :
  PausedConnected a -> PausedConnected (drainLoop snap ans queue a).
Proof.
  revert a. induction queue as [|item rest IH]; intros a Hok; simpl.
  - eauto with pause.
  - repeat case_match; try apply IH; eauto 20 with pause.
Qed.

Hint Resolve PC_togglePause PC_disconnect PC_connect PC_socketEvent PC_drainLoop : pause.

Lemma PC_sendData conv snap input mode ans a :
  PausedConnected a -> PausedConnected (sendData conv snap input mode ans a).
Proof. intros. unfold sendData, processSendQueue. handler_pause. Qed.

Lemma PC_fileEnd snap a : PausedConnected a -> PausedConnected (fileEnd snap a).
Proof. intros. unfold fileEnd. handler_pause. Qed.

Lemma PC_fileCatch err a : PausedConnected a -> PausedConnected (fileCatch err a).
Proof. intros. unfold fileCatch. handler_pause. Qed.

Hint Resolve PC_sendData PC_fileEnd PC_fileCatch : pause.

Lemma PC_fileAfterWrite loop job chunk a a' :
  (forall job a a', PausedConnected a -> loop job a = Some a' -> PausedConnected a') ->
  PausedConnected a -> fileAfterWrite loop job chunk a = Some a' -> PausedConnected a'.
Proof.
  intros Hloop Hok. unfold fileAfterWrite. cbv zeta. case_match.
  - intros [= <-]. eauto 20 with pause.
  - apply Hloop. eauto with pause.
Qed.

Lemma PC_fileLoop fuel job a a' :
  PausedConnected a -> fileLoop fuel job a = Some a' -> PausedConnected a'.
Proof.
  revert job a a'. induction fuel as [|fuel IH]; intros job a a' Hok; simpl; [discriminate|].
  repeat case_match; try (intros [= <-]; eauto 20 with pause).
  apply PC_fileAfterWrite; eauto with pause.
Qed.

Lemma PC_handleFileSend snap file options ans fuel a a' :
  PausedConnected a -> handleFileSend snap file options ans fuel a = Some a' ->
  PausedConnected a'.
Proof.
  intros Hok. unfold handleFileSend. cbv zeta.
  repeat case_match; try (intros [= <-]; eauto 20 with pause);
    apply PC_fileLoop; eauto 20 with pause.
Qed.

Lemma PC_resume i result ans fuel a a' :
  PausedConnected a -> resume i result ans fuel a = Some a' -> PausedConnected a'.
Proof.
  intros Hok. unfold resume. case_match; [|intros [= <-]; assumption].
  unfold resumeTask. repeat case_match; try (intros [= <-]; eauto 20 with pause).
  - apply PC_fileAfterWrite; [apply PC_fileLoop | eauto with pause].
  - apply PC_fileLoop. eauto with pause.
Qed.

Lemma PC_step e a a' : PausedConnected a -> step e a = Some a' -> PausedConnected a'.
Proof.
  intros Hok. destruct e; cbn [step]; try (intros [= <-]).
  - eauto with pause.
  - eauto with pause.
  - eauto with pause.
  - eauto with pause.
  - apply (PC_frame a); [reflexivity | reflexivity | assumption].
  - eauto with pause.
  - apply (PC_frame a); [reflexivity | reflexivity | assumption].
  - apply (PC_frame a); [reflexivity | reflexivity | assumption].
  - apply (PC_frame a); [reflexivity | reflexivity | assumption].
  - eauto with pause.
  - apply PC_handleFileSend. assumption.
  - apply PC_resume. assumption.
  - unfold timerFire. repeat case_match; eauto 20 with pause.
  - eauto with pause.
  - unfold serialData. repeat case_match; eauto 20 with pause.
  - unfold characteristicvaluechanged. repeat case_match; eauto 20 with pause.
  - case_match; intros [= <-]; [|assumption].
    unfold gattserverdisconnected. repeat case_match; eauto 20 with pause.
Qed.

Lemma PC_run es : forall a a', PausedConnected a -> run es a = Some a' -> PausedConnected a'.
Proof.
  induction es as [|e es IH]; intros a a' Hok; simpl.
  - intros [= <-]. assumption.
  - destruct (step e a) as [a1|] eqn:Hstep; [|discriminate].
    apply IH. eapply PC_step; eassumption.
Qed.

End Pause.

(** X18. The component is never paused while it is not connected: every
    path that takes [isConnected] down (the user's disconnect, the close of
    the socket, the loss of the Bluetooth device) takes [isPaused] down with
    it, and [togglePause] does nothing on a component that is not
    connected. *)
Theorem paused_only_while_connected (a : App) :
  Reachable a -> isPaused (ui a) = true -> isConnected (ui a) = true.
Proof.
  intros (supply & es & Hrun). eapply PC_run; [|exact Hrun].
  intros H. discriminate H.
Qed.

Lemma paused_only_while_connected_witness :
  isConnected (ui (after [Connect okEnv; TogglePause])) = true.
Proof.
  apply paused_only_while_connected.
  - exists supply0, [Connect okEnv; TogglePause]. vm_compute. reflexivity.
  - reflexivity.
Defined.

(** ** More on the reconnect logic *)

Lemma ws_onclose_nextSocket snap a :
  nextSocket (host (ws_onclose snap a)) = nextSocket (host a).
Proof.
  unfold ws_onclose. cbv zeta. case_match.
  - unfold setTimeout. cbv beta iota zeta. cbn [host onRefs with_refs onHost with_host].
    rewrite !addLog_host. reflexivity.
  - rewrite !addLog_host. reflexivity.
Qed.

(** [connect] in the WebSocket branch when the constructor returns: the new
    socket belongs to this render and the flag is up. *)
Lemma connect_socket_made snap env a :
  socketRender snap -> newWebSocket env = Resolved () ->
  sockets (host (connect snap env a)) = <[nextSocket (host a) := snap]> (sockets (host a))
  /\ shouldReconnectRef (refs (connect snap env a)) = true.
Proof.
  intros [Hmode Hurl] Hnew. unfold connect. rewrite Hmode.
  apply String.eqb_neq in Hurl. rewrite Hurl, Hnew. split; reflexivity.
Qed.

(** One round: the state is again one with a live socket of the same render
    and the flag up, and one attempt was made. *)
Lemma retry_round env ws snap a :
  HostInv a -> sockets (host a) !! ws = Some snap ->
  shouldReconnectRef (refs a) = true -> newWebSocket env = Resolved () ->
  let a' := timerFire (nextTimer (host a)) env (socketEvent ws SocketClose a) in
  HostInv a'
  /\ sockets (host a') !! nextSocket (host a) = Some snap
  /\ shouldReconnectRef (refs a') = true
  /\ attempts (effects (host a')) = S (attempts (effects (host a))).
Proof.
  intros Hinv Hws Hflag Hnew a'.
  split; [apply HostInv_timerFire, HostInv_socketEvent; exact Hinv|].
  destruct Hinv as (_ & Hsocks & _).
  pose proof (Hsocks ws snap Hws) as Hsock.
  set (a0 := onHost (fun h => with_sockets (delete ws (sockets h)) h) a).
  assert (Hclose : socketEvent ws SocketClose a = ws_onclose snap a0).
  { unfold socketEvent. rewrite Hws. reflexivity. }
  destruct (ws_onclose_schedules snap a0 Hflag (proj1 Hsock)) as (Ht & _ & _ & _ & Hatt).
  change (timers (host a0)) with (timers (host a)) in Ht.
  change (nextTimer (host a0)) with (nextTimer (host a)) in Ht.
  change (effects (host a0)) with (effects (host a)) in Hatt.
  pose proof (ws_onclose_nextSocket snap a0) as Hnext.
  change (nextSocket (host a0)) with (nextSocket (host a)) in Hnext.
  unfold a', timerFire. rewrite Hclose, Ht, lookup_insert_eq.
  set (x := clearTimeout (nextTimer (host a)) (ws_onclose snap a0)).
  destruct (connect_socket_made snap env x Hsock Hnew) as (Hs & Hf).
  destruct (connect_socket snap env x Hsock) as (_ & _ & Hatt' & _).
  change (nextSocket (host x)) with (nextSocket (host (ws_onclose snap a0))) in Hs.
  rewrite Hnext in Hs. rewrite Hs, lookup_insert_eq, Hf, Hatt'.
  repeat split. f_equal. exact Hatt.
Qed.

Lemma retry_attempts env snap n : forall ws a,
  HostInv a -> sockets (host a) !! ws = Some snap ->
  shouldReconnectRef (refs a) = true -> newWebSocket env = Resolved () ->
  attempts (effects (host (retry n env ws a))) = (n + attempts (effects (host a)))%nat
  /\ shouldReconnectRef (refs (retry n env ws a)) = true
  /\ HostInv (retry n env ws a).
Proof.
  induction n as [|n IH]; intros ws a Hinv Hws Hflag Hnew;
    [split; [reflexivity | split; [exact Hflag | exact Hinv]]|].
  destruct (retry_round env ws snap a Hinv Hws Hflag Hnew) as (Hinv' & Hws' & Hflag' & Hatt).
  cbn [retry]. destruct (IH _ _ Hinv' Hws' Hflag' Hnew) as (Hn & Hf & Hi).
  rewrite Hn, Hatt. split; [lia | split; [exact Hf | exact Hi]].
Qed.

(** X19. The reconnect logic has no retry limit and no back-off: from a
    reachable state with a live socket and [shouldReconnectRef] up, as long
    as each new socket closes again, every round makes one more attempt
    after the same delay, and after any number of rounds the flag is still
    up. *)
Theorem reconnect_without_limit (n : nat) (env : ConnectEnv) (ws : nat) (snap : Render) (a : App) :
  Reachable a ->
  sockets (host a) !! ws = Some snap ->
  shouldReconnectRef (refs a) = true ->
  newWebSocket env = Resolved () ->
  attempts (effects (host (retry n env ws a))) = (n + attempts (effects (host a)))%nat
  /\ shouldReconnectRef (refs (retry n env ws a)) = true
  /\ forall t ms cb, timers (host (retry n env ws a)) !! t = Some (ms, cb) -> ms = 1000.
Proof.
  intros Hreach Hws Hflag Hnew.
  destruct (retry_attempts env snap n ws a (Reachable_HostInv a Hreach) Hws Hflag Hnew)
    as (Hn & Hf & _ & _ & Hcbs).
  split; [exact Hn|]. split; [exact Hf|].
  intros t ms [snap'] Ht. apply (Hcbs t ms snap' Ht).
Qed.

Lemma reconnect_without_limit_witness :
  attempts (effects (host (retry 5 okEnv 0 (after connected)))) = 6%nat.
Proof.
  refine (proj1 (reconnect_without_limit 5 okEnv 0%nat (ui (after [SetCommMode WebSocket]))
                   (after connected) _ _ _ _)).
  - exists supply0, connected. vm_compute. reflexivity.
  - vm_compute. reflexivity.
  - reflexivity.
  - reflexivity.
Defined.

(** ** The quick-send list *)

(** X20. Removing the row that was just added gives the list back, provided
    the id drawn for the new row is not the id of an older row: [removeItem]
    removes by id, so with a clash the older row would go as well. *)
Theorem quick_send_add_remove (newId : string) (items : list QuickSendItem) :
  Forall (fun item => qs_id item <> newId) items ->
  removeItem newId (addItem newId items) = items.
Proof.
  intros Hfresh. unfold removeItem, addItem. rewrite filter_app.
  rewrite filter_cons, decide_False by (simpl; intros H; apply H; reflexivity).
  rewrite filter_nil, app_nil_r.
  induction Hfresh as [|item items Hitem _ IH]; [reflexivity|].
  rewrite filter_cons, decide_True by exact Hitem. f_equal. exact IH.
Qed.

Lemma quick_send_add_remove_witness :
  removeItem "b" (addItem "b" [{| qs_id := "a"; qs_label := "l"; qs_content := "c"; qs_mode := Hex |}])
  = [{| qs_id := "a"; qs_label := "l"; qs_content := "c"; qs_mode := Hex |}].
Proof.
  apply quick_send_add_remove. repeat constructor. simpl. discriminate.
Defined.

(** X21. With distinct ids an edit changes the row it is made in and no
    other, and keeps the order and the length of the list: the result is the
    list with that row replaced by the row with the updates spread over
    it. *)
Theorem quick_send_update_one (i : nat) (item : QuickSendItem) (updates : QuickSendUpdates)
    (items : list QuickSendItem) :
  NoDup (map qs_id items) ->
  items !! i = Some item ->
  updateItem (qs_id item) updates items = <[i := spread item updates]> items.
Proof.
  revert i. induction items as [|x items IH]; intros i Hnodup Hi; [discriminate|].
  cbn [map] in Hnodup. apply NoDup_cons in Hnodup as [Hx Hnodup].
  unfold updateItem in *. cbn [map]. destruct i as [|i]; cbn in Hi |- *.
  - simplify_eq. rewrite decide_True by reflexivity. f_equal.
    clear IH. induction items as [|y items IH]; [reflexivity|].
    cbn [map] in *. apply not_elem_of_cons in Hx as [Hy Hx].
    apply NoDup_cons in Hnodup as [_ Hnodup].
    rewrite decide_False by congruence. f_equal. apply IH; assumption.
  - rewrite decide_False.
    + f_equal. apply IH; assumption.
    + intros Heq. apply Hx. rewrite Heq.
      apply (list_elem_of_fmap_2 qs_id). eapply list_elem_of_lookup_2. exact Hi.
Qed.

Lemma quick_send_update_one_witness :
  updateItem "b" {| u_id := None; u_label := Some "new"; u_content := None; u_mode := None |}
    [{| qs_id := "a"; qs_label := "l"; qs_content := "c"; qs_mode := Hex |};
     {| qs_id := "b"; qs_label := "m"; qs_content := "d"; qs_mode := Text |}]
  = [{| qs_id := "a"; qs_label := "l"; qs_content := "c"; qs_mode := Hex |};
     {| qs_id := "b"; qs_label := "new"; qs_content := "d"; qs_mode := Text |}].
Proof.
  apply (quick_send_update_one 1 {| qs_id := "b"; qs_label := "m"; qs_content := "d"; qs_mode := Text |}).
  - cbn. apply NoDup_cons. split; [|apply NoDup_singleton].
    intros H. apply list_elem_of_singleton in H. discriminate H.
  - reflexivity.
Defined.
